(** * pc-garbage-cleaner: the scan / analyze / clean core, embedded in Rocq

    The development follows the Python sources module by module:

    - [PyFloat], [PyStr], [PyFloatParse] : what the sources use of Python
      itself: the IEEE-754 binary64 arithmetic of [float] (division,
      multiplication, [int()], ["{:.nf}"] formatting, [float(str)]), built on
      the Standard Library's [SpecFloat], and the [str] methods;
    - [SizeUtils]  : [utils/size_utils.py];
    - [PosixPath]  : [os.path], as an interface with its POSIX instance;
    - [Analyzer]   : [core/analyzer.py] ([DiskItem], [AnalyzeResult], the walk);
    - [Scanner]    : [core/scanner.py] ([ScanFilter], target list, scan thread);
    - [Cleaner]    : [core/cleaner.py] (the clean thread and [_clean_file]);
    - [Scenarios]  : the inputs of the end-to-end scenarios;
    - [SizeTools], [SystemUtils] : the functions of [utils/size_utils.py]
      around the two conversions, and [SystemUtils.format_size];
    - [PyRe], [ScannerWalk] : the regular expressions that
      [Scanner._match_pattern] builds; the methods of [ScanTarget] and
      [ScanResult], [add_custom_target] and the walk of one target;
    - [SizeShapes], [Glob], [ScanReport], [AnalysisTree] : what the
      statements about these are made of;
    - the properties, from [FloatFacts] on.

    Python [int] is [Z]; [str] is [string] (a byte string: the Chinese literals
    of the sources are kept as their UTF-8 bytes, and case mapping and the
    character classes of [re] are the ASCII ones). A background thread is the
    function it runs, applied to the state of its object; what the other
    thread may change meanwhile, the abort flag, is read through a schedule.
    The pauses ([time.sleep]) and the diagnostics ([print]) are left out. *)

From Stdlib Require Import ZArith List String Ascii Bool Lia SpecFloat DecimalString.
From Stdlib Require Import Sorted Decimal DecimalFacts DecimalN.
From stdpp Require Import gmap strings list.

Set Warnings "-register-all".
Local Open Scope Z_scope.

(** ** Python values shared by the modules *)

(** What a Python call gives back: a value, or a raised exception. *)
Inductive exn : Type :=
| OverflowError
| ValueError
| ZeroDivisionError
| IndexError
| CallbackError (msg : string).

Inductive res (A : Type) : Type :=
| Ret (a : A)
| Raise (e : exn).
Arguments Ret {A} a.
Arguments Raise {A} e.

Definition bind {A B : Type} (r : res A) (k : A -> res B) : res B :=
  match r with
  | Ret a => k a
  | Raise e => Raise e
  end.

Notation "x <- r ;; k" := (bind r (fun x => k))
  (at level 100, r at next level, right associativity).

(** The value of a call that has no [return] statement, or a bare [return]. *)
Inductive pyval : Type :=
| PyNone
| PyBool (b : bool).

(** ** Binary64 floats *)
Module PyFloat.

Definition prec : Z := 53.
Definition emax : Z := 1024.

Abbreviation float := spec_float.

Definition fdiv : float -> float -> float := SFdiv prec emax.
Definition fmul : float -> float -> float := SFmul prec emax.
Definition fsub : float -> float -> float := SFsub prec emax.
Definition fle : float -> float -> bool := SFleb.

(** The nearest float to the quotient [a / b] of two integers, ties to even.
    [SFdiv]'s core works on any positive mantissas, so the operands need not
    fit in 53 bits: this is Python's [int / int] and the rounding of a decimal
    literal. *)
Definition raw (z : Z) : float :=
  match z with
  | Z0 => S754_zero false
  | Zpos p => S754_finite false p 0
  | Zneg p => S754_finite true p 0
  end.

Definition round_quotient (a b : Z) : float := fdiv (raw a) (raw b).

(** [float(n)] for an [int]. *)
Definition float_of_int (n : Z) : res float :=
  match binary_normalize prec emax n 0 false with
  | S754_infinity _ => Raise OverflowError
  | f => Ret f
  end.

(** [a / b] on two [int]s. *)
Definition int_truediv (a b : Z) : res float :=
  if b =? 0 then Raise ZeroDivisionError
  else match round_quotient a b with
       | S754_infinity _ => Raise OverflowError
       | f => Ret f
       end.

(** [int(x)]: truncation toward zero. *)
Definition int_of_float (x : float) : res Z :=
  match x with
  | S754_zero _ => Ret 0
  | S754_finite s m e =>
      let a := Z.shiftl (Zpos m) e in
      Ret (if s then - a else a)
  | S754_infinity _ => Raise OverflowError
  | S754_nan => Raise ValueError
  end.

(** Literals used by the sources. *)
Definition f0_5 : float := round_quotient 1 2.
Definition f100 : float := round_quotient 100 1.
Definition f1024 : float := round_quotient 1024 1.

(** *** ["{:.<dp>f}".format(x)] *)

Definition digits_of (n : Z) : string :=
  NilZero.string_of_uint (N.to_uint (Z.to_N n)).

Fixpoint zeros (k : nat) : string :=
  match k with
  | O => ""
  | S k' => String "0" (zeros k')
  end.

Definition pad_left (width : nat) (s : string) : string :=
  zeros (width - String.length s) +:+ s.

(** [num / den] rounded to the nearest integer, ties to even. *)
Definition div_half_even (num den : Z) : Z :=
  let q := num / den in
  let r := num mod den in
  match 2 * r ?= den with
  | Lt => q
  | Gt => q + 1
  | Eq => if Z.even q then q else q + 1
  end.

Definition format_fixed (dp : nat) (x : float) : string :=
  let body (n : Z) :=
    let p := 10 ^ Z.of_nat dp in
    match dp with
    | O => digits_of n
    | _ => digits_of (n / p) +:+ "." +:+ pad_left dp (digits_of (n mod p))
    end in
  match x with
  | S754_nan => "nan"
  | S754_infinity s => if s then "-inf" else "inf"
  | S754_zero s => (if s then "-" else "") +:+ body 0
  | S754_finite s m e =>
      let scaled := Zpos m * 10 ^ Z.of_nat dp in
      let n := if 0 <=? e then scaled * 2 ^ e
               else div_half_even scaled (2 ^ (- e)) in
      (if s then "-" else "") +:+ body n
  end.

(** *** What the proofs about rounding speak of *)

(** Where a remainder [r] of a division by [d] lies: at 0, below, at or above
    the half. *)
Definition locate (r d : Z) : location :=
  if r =? 0 then loc_Exact else loc_Inexact (2 * r ?= d).

(** [represents mrs n d]: the record stands for the quotient [n / d], with
    the place of the remainder. *)
Definition represents (mrs : shr_record) (n d : Z) : Prop :=
  shr_m mrs = n / d /\ loc_of_shr_record mrs = locate (n mod d) d.

(** Rounding to nearest, ties to even, of [n / d1]. *)
Definition rne (n d : Z) : Z := round_nearest_even (n / d) (locate (n mod d) d).

(** The canonical float of [A * 2^t], for [A] of at most 53 bits. *)
Definition fl (A t : Z) : float :=
  S754_finite false (Z.to_pos (A * 2 ^ (53 - Zdigits2 A)))
              (t + Zdigits2 A - 53).

End PyFloat.

(** ** ASCII views of the [str] methods the sources call *)
Module PyStr.

Definition code (c : ascii) : N := N_of_ascii c.

Definition is_digit (c : ascii) : bool := (48 <=? code c)%N && (code c <=? 57)%N.
Definition is_upper (c : ascii) : bool := (65 <=? code c)%N && (code c <=? 90)%N.
Definition is_lower (c : ascii) : bool := (97 <=? code c)%N && (code c <=? 122)%N.
Definition is_alpha (c : ascii) : bool := is_upper c || is_lower c.
(** [str.isspace] on the ASCII range: tab to carriage return, the four
    separators 0x1c-0x1f, and the space. *)
Definition is_space (c : ascii) : bool :=
  ((9 <=? code c)%N && (code c <=? 13)%N)
  || ((28 <=? code c)%N && (code c <=? 32)%N).

Definition digit_val (c : ascii) : Z := Z.of_N (code c) - 48.

Definition upper_char (c : ascii) : ascii :=
  if is_lower c then ascii_of_N (code c - 32) else c.
Definition lower_char (c : ascii) : ascii :=
  if is_upper c then ascii_of_N (code c + 32) else c.

Definition chars : string -> list ascii := list_ascii_of_string.
Definition str : list ascii -> string := string_of_list_ascii.

Fixpoint drop_while (p : ascii -> bool) (l : list ascii) : list ascii :=
  match l with
  | c :: l' => if p c then drop_while p l' else l
  | [] => []
  end.

Fixpoint take_while (p : ascii -> bool) (l : list ascii) : list ascii :=
  match l with
  | c :: l' => if p c then c :: take_while p l' else []
  | [] => []
  end.

Definition lstrip_by (p : ascii -> bool) (l : list ascii) : list ascii :=
  drop_while p l.
Definition rstrip_by (p : ascii -> bool) (l : list ascii) : list ascii :=
  rev (drop_while p (rev l)).

(** [s.upper()], [s.strip()], [s.rstrip(c)], [c in s]. *)
Definition upper (s : string) : string := str (map upper_char (chars s)).
Definition lower (s : string) : string := str (map lower_char (chars s)).
Definition strip (s : string) : string :=
  str (rstrip_by is_space (lstrip_by is_space (chars s))).
Definition rstrip (c : ascii) (s : string) : string :=
  str (rstrip_by (Ascii.eqb c) (chars s)).
Definition contains_char (c : ascii) (s : string) : bool :=
  existsb (Ascii.eqb c) (chars s).

Definition str_of_int (n : Z) : string :=
  if n <? 0 then "-" +:+ PyFloat.digits_of (- n) else PyFloat.digits_of n.

End PyStr.

(** *** [float(s)] on a string *)
Module PyFloatParse.
Import PyFloat PyStr.

(** [digit (["_"] digit)*], after its first digit: the value so far, the
    number of digits read, and what is left. *)
Fixpoint digitpart_tail (l : list ascii) (n : Z) (k : nat)
  : Z * nat * list ascii :=
  match l with
  | c :: l' =>
      if is_digit c then digitpart_tail l' (10 * n + digit_val c) (S k)
      else if Ascii.eqb c "_" then
        match l' with
        | d :: l'' =>
            if is_digit d then digitpart_tail l'' (10 * n + digit_val d) (S k)
            else (n, k, l)
        | [] => (n, k, l)
        end
      else (n, k, l)
  | [] => (n, k, l)
  end.

Definition digitpart (l : list ascii) : option (Z * nat * list ascii) :=
  match l with
  | c :: l' => if is_digit c then Some (digitpart_tail l' (digit_val c) 1%nat)
               else None
  | [] => None
  end.

(** [number ::= [digitpart] "." digitpart | digitpart ["."]]: the digits as
    one integer, the number of digits after the point, the rest. *)
Definition number (l : list ascii) : option (Z * nat * list ascii) :=
  match digitpart l with
  | Some (n, _, r) =>
      match r with
      | c :: r' =>
          if Ascii.eqb c "." then
            match digitpart r' with
            | Some (f, k, r'') => Some (n * 10 ^ Z.of_nat k + f, k, r'')
            | None => Some (n, O, r')
            end
          else Some (n, O, r)
      | [] => Some (n, O, r)
      end
  | None =>
      match l with
      | c :: r' => if Ascii.eqb c "." then digitpart r' else None
      | [] => None
      end
  end.

Definition sign (l : list ascii) : bool * list ascii :=
  match l with
  | c :: l' => if Ascii.eqb c "-" then (true, l')
               else if Ascii.eqb c "+" then (false, l')
               else (false, l)
  | [] => (false, l)
  end.

(** [exponent ::= ("e" | "E") [sign] digitpart], optional. *)
Definition exponent (l : list ascii) : option (Z * list ascii) :=
  match l with
  | c :: l' =>
      if Ascii.eqb (upper_char c) "E" then
        let '(neg, l'') := sign l' in
        match digitpart l'' with
        | Some (e, _, r) => Some (if neg then - e else e, r)
        | None => None
        end
      else Some (0, l)
  | [] => Some (0, l)
  end.

(** The float nearest to [mant * 10 ^ e10]. *)
Definition decimal (neg : bool) (mant e10 : Z) : float :=
  let v := if 0 <=? e10 then round_quotient (mant * 10 ^ e10) 1
           else round_quotient mant (10 ^ (- e10)) in
  if neg then SFopp v else v.

Definition parse_float (s : string) : res float :=
  let '(neg, body) := sign (chars (strip s)) in
  let word := str (map upper_char body) in
  if String.eqb word "INF" || String.eqb word "INFINITY" then
    Ret (S754_infinity neg)
  else if String.eqb word "NAN" then Ret S754_nan
  else
    match number body with
    | Some (mant, k, r) =>
        match exponent r with
        | Some (e, []) => Ret (decimal neg mant (e - Z.of_nat k))
        | _ => Raise ValueError
        end
    | None => Raise ValueError
    end.

End PyFloatParse.

(** ** utils/size_utils.py *)
Module SizeUtils.
Import PyFloat PyStr PyFloatParse.

Definition BYTE : Z := 1.
Definition KB : Z := 1024.
Definition MB : Z := 1024 * 1024.
Definition GB : Z := 1024 * 1024 * 1024.
Definition TB : Z := 1024 * 1024 * 1024 * 1024.

Definition unknown_size : string := "未知大小".

(** The [while size >= 1024 and unit_index < len(units) - 1] loop; [fuel] is
    the number of units still above [unit_index]. *)
Fixpoint scale (fuel : nat) (size : float) (unit_index : nat) : float * nat :=
  match fuel with
  | O => (size, unit_index)
  | S fuel' =>
      if fle f1024 size then scale fuel' (fdiv size f1024) (S unit_index)
      else (size, unit_index)
  end.

Definition bytes_to_human_readable (size_in_bytes : Z) (decimal_places : Z)
  : res string :=
  if size_in_bytes <? 0 then Ret unknown_size
  else if size_in_bytes =? 0 then Ret "0 B"
  else
    let units := ["B"; "KB"; "MB"; "GB"; "TB"; "PB"] in
    size <- float_of_int size_in_bytes ;;
    let '(size, unit_index) := scale (length units - 1) size 0%nat in
    let unit := nth unit_index units "" in
    match unit_index with
    | O => n <- int_of_float size ;; Ret (str_of_int n +:+ " " +:+ unit)
    | _ =>
        if decimal_places <? 0 then Raise ValueError
        else
          (* "{:.<dp>f} {}".format(size, unit); formatting that text once
             more leaves it as it is, it holds no braces *)
          let format_str :=
            format_fixed (Z.to_nat decimal_places) size +:+ " " +:+ unit in
          let result := format_str in
          if contains_char "." result
          then Ret (rstrip "." (rstrip "0" result) +:+ " " +:+ unit)
          else Ret result
    end.

(** The table [units] of [human_readable_to_bytes]. *)
Definition units : list (string * Z) :=
  [("B", BYTE); ("BYTE", BYTE); ("BYTES", BYTE);
   ("K", KB); ("KB", KB); ("KIB", KB);
   ("M", MB); ("MB", MB); ("MIB", MB);
   ("G", GB); ("GB", GB); ("GIB", GB);
   ("T", TB); ("TB", TB); ("TIB", TB)].

Fixpoint lookup_unit (u : string) (tbl : list (string * Z)) : option Z :=
  match tbl with
  | (k, v) :: tbl' => if String.eqb k u then Some v else lookup_unit u tbl'
  | [] => None
  end.

(** [re.match(r"([\d.]+)\s*([A-Za-z]+)", s)]: the three classes are disjoint,
    so the only way to match is the longest run of each; groups 1 and 2. *)
Definition re_match (s : string) : option (string * string) :=
  let l := chars s in
  let is_num c := is_digit c || Ascii.eqb c "." in
  let g1 := take_while is_num l in
  let r := drop_while is_space (drop_while is_num l) in
  let g2 := take_while is_alpha r in
  match g1, g2 with
  | _ :: _, _ :: _ => Some (str g1, str g2)
  | _, _ => None
  end.

(** [except (ValueError, TypeError): return 0] *)
Definition except_value_error (r : res Z) : res Z :=
  match r with
  | Raise ValueError => Ret 0
  | _ => r
  end.

Definition human_readable_to_bytes (size_str : string) : res Z :=
  let size_str := upper (strip size_str) in
  if String.eqb size_str "" then Ret 0
  else
    except_value_error
      match re_match size_str with
      | Some (g1, g2) =>
          size_val <- parse_float g1 ;;
          let unit := upper g2 in
          match lookup_unit unit units with
          | Some u => uf <- float_of_int u ;; int_of_float (fmul size_val uf)
          | None => int_of_float size_val
          end
      | None =>
          size_val <- parse_float size_str ;;
          int_of_float size_val
      end.

(** [parseHumanReadable(humanReadable(s))] *)
Definition round_trip (s : Z) (decimal_places : Z) : res Z :=
  text <- bytes_to_human_readable s decimal_places ;;
  human_readable_to_bytes text.

End SizeUtils.

(** ** [os.path]: the interface the sources use, and its POSIX implementation *)
Class OsPath : Type := {
  path_join : string -> string -> string;
  path_basename : string -> string;
  path_splitext : string -> string * string
}.

Module PosixPath.
Import PyStr.

Definition is_sep (c : ascii) : bool := Ascii.eqb c "/".

Definition ends_with_sep (p : string) : bool :=
  match rev (chars p) with
  | c :: _ => is_sep c
  | [] => false
  end.

Definition starts_with_sep (p : string) : bool :=
  match chars p with
  | c :: _ => is_sep c
  | [] => false
  end.

(** [posixpath.join(a, b)] *)
Definition join (a b : string) : string :=
  if starts_with_sep b then b
  else if String.eqb a "" || ends_with_sep a then a +:+ b
  else a +:+ "/" +:+ b.

(** [posixpath.basename(p)]: what follows the last slash. *)
Definition basename (p : string) : string :=
  str (rev (take_while (fun c => negb (is_sep c)) (rev (chars p)))).

(** [genericpath._splitext(p, "/", None, ".")]: the extension starts at the
    last dot of the last component, unless only dots precede it there. *)
Definition splitext (p : string) : string * string :=
  let file := rev (take_while (fun c => negb (is_sep c)) (rev (chars p))) in
  let ext := rev (take_while (fun c => negb (Ascii.eqb c ".")) (rev file)) in
  let stem_len := (length file - length ext - 1)%nat in
  let stem := firstn stem_len file in
  if existsb (Ascii.eqb ".") file
     && existsb (fun c => negb (Ascii.eqb c ".")) stem
  then (str (firstn (length (chars p) - length ext - 1) (chars p)),
        str ("."%char :: ext))
  else (p, "").

#[export] Instance posix : OsPath := {|
  path_join := join;
  path_basename := basename;
  path_splitext := splitext
|}.

End PosixPath.

(** ** core/analyzer.py *)
Module Analyzer.
Import PyStr.

(** *** [DiskItem]

    The [parent] back-reference of the source is the position in the tree. *)
Inductive DiskItem : Type := mkDiskItem {
  path : string;
  name : string;
  is_dir : bool;
  size : Z;
  children : list DiskItem
}.

Section WithOsPath.
Context `{OsPath}.

(** [DiskItem(path, name, is_dir, size)]:
    [self.name = name or os.path.basename(path) or path]. *)
Definition new_DiskItem (path : string) (name : option string)
           (is_dir : bool) (size : Z) : DiskItem :=
  let or_else (a b : string) := if String.eqb a "" then b else a in
  {| path := path;
     name := or_else (default "" name) (or_else (path_basename path) path);
     is_dir := is_dir;
     size := size;
     children := [] |}.

Definition add_child (self child : DiskItem) : DiskItem :=
  {| path := path self; name := name self; is_dir := is_dir self;
     size := size self; children := children self ++ [child] |}.

Definition set_size (self : DiskItem) (sz : Z) : DiskItem :=
  {| path := path self; name := name self; is_dir := is_dir self;
     size := sz; children := children self |}.

(** *** [AnalyzeResult] *)
Record AnalyzeResult : Type := mkAnalyzeResult {
  root_item : option DiskItem;
  file_count : Z;
  dir_count : Z;
  total_size : Z;
  file_types : gmap string Z;
  largest_files : list (string * Z);
  largest_dirs : list (string * Z)
}.

Definition new_AnalyzeResult (root_item : option DiskItem) : AnalyzeResult :=
  {| root_item := root_item; file_count := 0; dir_count := 0; total_size := 0;
     file_types := ∅; largest_files := []; largest_dirs := [] |}.

(** [l.sort(key=lambda x: x[1], reverse=True)]: Python's sort is stable, also
    under [reverse=True], which fixes the result: larger sizes first, and
    entries of equal size in the order they had. *)
Fixpoint insert_by_size (x : string * Z) (l : list (string * Z))
  : list (string * Z) :=
  match l with
  | [] => [x]
  | y :: l' => if snd y <=? snd x then x :: l else y :: insert_by_size x l'
  end.

Fixpoint sort_by_size_desc (l : list (string * Z)) : list (string * Z) :=
  match l with
  | [] => []
  | x :: l' => insert_by_size x (sort_by_size_desc l')
  end.

(** The body shared by [_update_largest_files] and [_update_largest_dirs]. *)
Definition update_largest (lst : list (string * Z)) (path : string) (size : Z)
           (max_count : nat) : list (string * Z) :=
  let lst := lst ++ [(path, size)] in
  let lst := sort_by_size_desc lst in
  if (max_count <? length lst)%nat then firstn max_count lst else lst.

Definition _update_largest_files (self : AnalyzeResult) (path : string)
           (size : Z) (max_count : nat) : AnalyzeResult :=
  {| root_item := root_item self; file_count := file_count self;
     dir_count := dir_count self; total_size := total_size self;
     file_types := file_types self;
     largest_files := update_largest (largest_files self) path size max_count;
     largest_dirs := largest_dirs self |}.

Definition _update_largest_dirs (self : AnalyzeResult) (path : string)
           (size : Z) (max_count : nat) : AnalyzeResult :=
  {| root_item := root_item self; file_count := file_count self;
     dir_count := dir_count self; total_size := total_size self;
     file_types := file_types self;
     largest_files := largest_files self;
     largest_dirs := update_largest (largest_dirs self) path size max_count |}.

Definition no_extension : string := "(无扩展名)".

Definition add_file (self : AnalyzeResult) (path : string) (size : Z)
  : AnalyzeResult :=
  let ext := snd (path_splitext path) in
  let ext := if String.eqb ext "" then no_extension else lower ext in
  let self :=
    {| root_item := root_item self;
       file_count := file_count self + 1;
       dir_count := dir_count self;
       total_size := total_size self + size;
       file_types :=
         <[ext := default 0 (file_types self !! ext) + size]> (file_types self);
       largest_files := largest_files self;
       largest_dirs := largest_dirs self |} in
  _update_largest_files self path size 20.

Definition add_dir (self : AnalyzeResult) (path : string) (size : Z)
  : AnalyzeResult :=
  let self :=
    {| root_item := root_item self;
       file_count := file_count self;
       dir_count := dir_count self + 1;
       total_size := total_size self;
       file_types := file_types self;
       largest_files := largest_files self;
       largest_dirs := largest_dirs self |} in
  _update_largest_dirs self path size 20.

Definition set_root_item (self : AnalyzeResult) (root : DiskItem)
  : AnalyzeResult :=
  {| root_item := Some root; file_count := file_count self;
     dir_count := dir_count self; total_size := total_size self;
     file_types := file_types self;
     largest_files := largest_files self;
     largest_dirs := largest_dirs self |}.

(** Updates of an [AnalyzeResult], for statements over all of them. *)
Inductive update : Type :=
| AddFile (path : string) (size : Z)
| AddDir (path : string) (size : Z).

Definition apply_update (self : AnalyzeResult) (u : update) : AnalyzeResult :=
  match u with
  | AddFile p s => add_file self p s
  | AddDir p s => add_dir self p s
  end.

Definition apply_updates (self : AnalyzeResult) (us : list update)
  : AnalyzeResult :=
  fold_left apply_update us self.

(** The invariant of the two bounded lists: larger sizes first, at most 20
    entries. *)
Definition by_size_desc (a b : string * Z) : Prop := snd b <= snd a.

Definition sorted_desc (l : list (string * Z)) : Prop :=
  StronglySorted by_size_desc l.

Definition bounded_sorted (r : AnalyzeResult) : Prop :=
  (length (largest_files r) <= 20)%nat /\ sorted_desc (largest_files r) /\
  (length (largest_dirs r) <= 20)%nat /\ sorted_desc (largest_dirs r).

(** *** The directory tree the walk reads

    What [os.scandir] and the [DirEntry] methods report. The tree is finite:
    a cycle of symbolic links is outside the model. *)
Inductive fs_entry : Type :=
| FsFile (name : string) (size : Z)
    (* [is_file()]; [FileUtils.get_file_size] gives [size], 0 when
       [os.path.getsize] fails *)
| FsDir (name : string) (readable : bool) (entries : list fs_entry)
    (* [is_dir()]; [os.scandir] on it raises when [readable] is false *)
| FsOther (name : string)
    (* neither [is_file()] nor [is_dir()] *)
| FsFault (name : string).
    (* [is_file()] raises *)

(** What [os.path.exists] and [os.path.isdir] say of the analysed path. *)
Inductive fs_root : Type :=
| NoSuchPath
| RootFile (size : Z)
| RootDir (readable : bool) (entries : list fs_entry).

(** All the nodes of a tree of [DiskItem]s, the root first. *)
Fixpoint nodes (it : DiskItem) : list DiskItem :=
  match it with
  | mkDiskItem _ _ _ _ ch => it :: flat_map nodes ch
  end.

(** [cut_at k it]: the tree [it] has no node more than [k] levels below its
    root, and a directory exactly [k] levels below has the size 0 it was
    created with. *)
Fixpoint cut_at (k : nat) (it : DiskItem) : Prop :=
  match k with
  | O => children it = [] /\ (is_dir it = true -> size it = 0)
  | S k' => Forall (cut_at k') (children it)
  end.

(** What one pass of the loop body may do to the parent: append children
    that are cut [k] levels down, and nothing else. *)
Definition extends_by (k : nat) (parent parent' : DiskItem) : Prop :=
  exists new, children parent' = children parent ++ new /\
              Forall (cut_at k) new.

(** *** [Analyzer] *)

(** Calls made to the caller's callbacks, oldest first. *)
Inductive event : Type :=
| Progress (current_path : string) (file_count dir_count : Z)
| Complete (result : AnalyzeResult).

Record Analyzer : Type := mkAnalyzer {
  result : option AnalyzeResult;
  is_analyzing : bool;
  analyze_progress_callback : option (string -> Z -> Z -> res unit);
  analyze_complete_callback : option (AnalyzeResult -> res unit);
  aborted : bool;
  (* not fields of the source: the reads of [self.aborted] made so far, and
     the calls made so far *)
  polls : nat;
  events : list event
}.

Definition new_Analyzer : Analyzer :=
  {| result := None; is_analyzing := false;
     analyze_progress_callback := None; analyze_complete_callback := None;
     aborted := false; polls := 0%nat; events := [] |}.

Definition the_result (self : Analyzer) : AnalyzeResult :=
  default (new_AnalyzeResult None) (result self).

Definition with_result (self : Analyzer) (r : AnalyzeResult) : Analyzer :=
  {| result := Some r; is_analyzing := is_analyzing self;
     analyze_progress_callback := analyze_progress_callback self;
     analyze_complete_callback := analyze_complete_callback self;
     aborted := aborted self; polls := polls self; events := events self |}.

Definition with_event (self : Analyzer) (e : event) : Analyzer :=
  {| result := result self; is_analyzing := is_analyzing self;
     analyze_progress_callback := analyze_progress_callback self;
     analyze_complete_callback := analyze_complete_callback self;
     aborted := aborted self; polls := polls self;
     events := events self ++ [e] |}.

Definition with_is_analyzing (self : Analyzer) (b : bool) : Analyzer :=
  {| result := result self; is_analyzing := b;
     analyze_progress_callback := analyze_progress_callback self;
     analyze_complete_callback := analyze_complete_callback self;
     aborted := aborted self; polls := polls self; events := events self |}.

Section Run.
(** [abort_analyze] runs on the caller's thread, at any moment:
    [abort_requested k] tells whether it has set the flag by the time the
    walk reads [self.aborted] for the [k]-th time. *)
Variable abort_requested : nat -> bool.

Definition read_aborted (self : Analyzer) : bool * Analyzer :=
  let a := aborted self || abort_requested (polls self) in
  (a, {| result := result self; is_analyzing := is_analyzing self;
         analyze_progress_callback := analyze_progress_callback self;
         analyze_complete_callback := analyze_complete_callback self;
         aborted := a; polls := S (polls self); events := events self |}).

Definition _update_progress (self : Analyzer) (current_path : string)
  : Analyzer * res unit :=
  match analyze_progress_callback self with
  | Some cb =>
      let fc := file_count (the_result self) in
      let dc := dir_count (the_result self) in
      (with_event self (Progress current_path fc dc), cb current_path fc dc)
  | None => (self, Ret tt)
  end.

(** How the [for item in os.scandir(directory)] loop is left. *)
Inductive loop_exit : Type :=
| Exhausted
| Returned.

(** The loop of [_analyze_directory] over the entries, [visit] being its
    body from [try] to the two [except] clauses. *)
Definition scandir_loop
           (visit : fs_entry -> DiskItem -> Z -> Analyzer
                    -> DiskItem * Z * Analyzer)
  : list fs_entry -> DiskItem -> Z -> Analyzer
    -> loop_exit * DiskItem * Z * Analyzer :=
  fix go items parent_item dir_size self :=
    match items with
    | [] => (Exhausted, parent_item, dir_size, self)
    | item :: items' =>
        let '(a, self) := read_aborted self in
        if a then (Returned, parent_item, dir_size, self)
        else
          let '(parent_item, dir_size, self) :=
            visit item parent_item dir_size self in
          go items' parent_item dir_size self
    end.

(** [if max_depth is not None and current_depth > max_depth] *)
Definition beyond (current_depth : Z) (max_depth : option Z) : bool :=
  match max_depth with
  | Some m => m <? current_depth
  | None => false
  end.

(** One call of [_analyze_directory] on a directory whose listing is
    [readable]/[items]; it returns the parent item as the call leaves it. *)
Definition analyze_directory_with
           (visit : fs_entry -> DiskItem -> Z -> Analyzer
                    -> DiskItem * Z * Analyzer)
           (readable : bool) (items : list fs_entry)
           (directory : string) (parent_item : DiskItem)
           (current_depth : Z) (max_depth : option Z) (self : Analyzer)
  : DiskItem * Analyzer :=
  let '(a, self) := read_aborted self in
  if a then (parent_item, self)
  else if beyond current_depth max_depth then (parent_item, self)
  else if negb readable then (parent_item, self)
  else
    match scandir_loop visit items parent_item 0 self with
    | (Returned, parent_item, _, self) => (parent_item, self)
    | (Exhausted, parent_item, dir_size, self) =>
        (set_size parent_item dir_size,
         with_result self (add_dir (the_result self) directory dir_size))
    end.

(** The loop body for one entry of [directory]. A subdirectory is added to
    its parent before the recursive call looks at the depth. *)
Fixpoint analyze_item (directory : string) (current_depth : Z)
         (max_depth : option Z) (item : fs_entry)
         (parent_item : DiskItem) (dir_size : Z) (self : Analyzer)
         {struct item} : DiskItem * Z * Analyzer :=
  match item with
  | FsFile name file_size =>
      let item_path := path_join directory name in
      let dir_size := dir_size + file_size in
      let file_item := new_DiskItem item_path (Some name) false file_size in
      let parent_item := add_child parent_item file_item in
      let self := with_result self (add_file (the_result self) item_path file_size) in
      (* an exception of the callback is caught by [except Exception] *)
      let '(self, _) := _update_progress self item_path in
      (parent_item, dir_size, self)
  | FsDir name readable entries =>
      let item_path := path_join directory name in
      let dir_item := new_DiskItem item_path (Some name) true 0 in
      let '(dir_item, self) :=
        analyze_directory_with
          (analyze_item item_path (current_depth + 1) max_depth)
          readable entries item_path dir_item (current_depth + 1) max_depth
          self in
      (add_child parent_item dir_item, dir_size + size dir_item, self)
  | FsOther _ => (parent_item, dir_size, self)
  | FsFault _ => (parent_item, dir_size, self)
  end.

Definition _analyze_directory (readable : bool) (items : list fs_entry)
           (directory : string) (parent_item : DiskItem)
           (current_depth : Z) (max_depth : option Z) (self : Analyzer)
  : DiskItem * Analyzer :=
  analyze_directory_with (analyze_item directory current_depth max_depth)
    readable items directory parent_item current_depth max_depth self.

(** [_analyze_thread]: the body runs under [try], the completion under
    [finally]. [self.result.root_item] is the root object itself, so it ends
    as the walk left the root. *)
Definition _analyze_thread (fs : fs_root) (path : string)
           (max_depth : option Z) (self : Analyzer) : Analyzer * res unit :=
  let self := with_is_analyzing self true in
  let self := with_result self (new_AnalyzeResult None) in
  let self :=
    match fs with
    | NoSuchPath => self
    | RootDir readable items =>
        let root_item := new_DiskItem path None true 0 in
        let '(root_item, self) :=
          _analyze_directory readable items path root_item 0 max_depth self in
        with_result self (set_root_item (the_result self) root_item)
    | RootFile file_size =>
        let root_item := new_DiskItem path None false file_size in
        let self := with_result self (set_root_item (the_result self) root_item) in
        with_result self (add_file (the_result self) path file_size)
    end in
  let self := with_is_analyzing self false in
  match analyze_complete_callback self with
  | Some cb =>
      (with_event self (Complete (the_result self)), cb (the_result self))
  | None => (self, Ret tt)
  end.

End Run.

(** [analyze_disk]: what it returns, the analyzer after the call, and the
    arguments of the [_analyze_thread] it has started, if any (the thread
    itself sets [is_analyzing], once it runs). [normalize_path] is
    [PathUtils.normalize_path], which reads the user's home directory. *)
Definition analyze_disk (normalize_path : string -> string)
           (self : Analyzer) (path : string) (max_depth : option Z)
           (progress_callback : option (string -> Z -> Z -> res unit))
           (complete_callback : option (AnalyzeResult -> res unit))
  : pyval * Analyzer * option (string * option Z) :=
  if is_analyzing self then (PyNone, self, None)
  else
    let path := normalize_path path in
    let self :=
      {| result := result self; is_analyzing := is_analyzing self;
         analyze_progress_callback := progress_callback;
         analyze_complete_callback := complete_callback;
         aborted := false; polls := polls self; events := events self |} in
    (PyNone, self, Some (path, max_depth)).

Definition abort_analyze (self : Analyzer) : Analyzer :=
  {| result := result self; is_analyzing := is_analyzing self;
     analyze_progress_callback := analyze_progress_callback self;
     analyze_complete_callback := analyze_complete_callback self;
     aborted := true; polls := polls self; events := events self |}.

End WithOsPath.
End Analyzer.

(** ** core/scanner.py *)
Module Scanner.
Import PyStr PyFloat.

(** [if x:] on an [Optional[int]]: [None] and [0] are false. *)
Definition truthy (x : option Z) : bool :=
  match x with
  | Some n => negb (n =? 0)
  | None => false
  end.

Definition nonempty {A : Type} (l : list A) : bool :=
  match l with
  | [] => false
  | _ :: _ => true
  end.

Definition mem (x : string) (l : list string) : bool :=
  existsb (String.eqb x) l.

(** A [datetime] is its number of microseconds since the epoch;
    [(a - b).days] is the floor of the difference in days. *)
Definition microseconds_per_day : Z := 86400 * 1000000.
Definition days_between (now mod_time : Z) : Z :=
  (now - mod_time) / microseconds_per_day.

(** *** [ScanFilter] *)
Record ScanFilter : Type := mkScanFilter {
  min_size : Z;
  max_size : option Z;
  min_age_days : option Z;
  extensions : list string;
  exclude_exts : list string
}.

Definition with_max_size (self : ScanFilter) (v : option Z) : ScanFilter :=
  {| min_size := min_size self; max_size := v;
     min_age_days := min_age_days self; extensions := extensions self;
     exclude_exts := exclude_exts self |}.

Definition with_min_age_days (self : ScanFilter) (v : option Z) : ScanFilter :=
  {| min_size := min_size self; max_size := max_size self;
     min_age_days := v; extensions := extensions self;
     exclude_exts := exclude_exts self |}.

Section WithOsPath.
Context `{OsPath}.

(** [match_file]; [now] is what [datetime.now()] reads. *)
Definition match_file (self : ScanFilter) (now : Z)
           (file_path : string) (file_size : Z) (mod_time : Z) : bool :=
  if (0 <? min_size self) && (file_size <? min_size self) then false
  else if truthy (max_size self)
          && (default 0 (max_size self) <? file_size) then false
  else if truthy (min_age_days self)
          && (days_between now mod_time <? default 0 (min_age_days self))
  then false
  else if nonempty (extensions self) || nonempty (exclude_exts self) then
    let ext := lower (snd (path_splitext file_path)) in
    if nonempty (extensions self) && negb (mem ext (extensions self))
    then false
    else if nonempty (exclude_exts self) && mem ext (exclude_exts self)
    then false
    else true
  else true.

End WithOsPath.

(** *** [ScanTarget] and [ScanResult] *)
Record ScanTarget : Type := mkScanTarget {
  name : string;
  path : string;
  description : string;
  is_system : bool;
  enabled : bool;
  patterns : list string;
  exclude_patterns : list string;
  (* [min_size] and [max_size] in the source *)
  target_min_size : Z;
  target_max_size : option Z;
  min_age : option Z;
  recursive : bool
}.

Record ScanResult : Type := mkScanResult {
  target : ScanTarget;
  files : list string;
  file_types : gmap string (Z * Z);
  total_size : Z;
  start_time : option Z;
  end_time : option Z
}.

(** [ScanTarget(name, path, description, is_system, enabled)] *)
Definition new_ScanTarget (name path : string) (description : option string)
           (is_system enabled : bool) : ScanTarget :=
  {| name := name; path := path;
     description :=
       (let d := default "" description in
        if String.eqb d "" then path else d);
     is_system := is_system; enabled := enabled;
     patterns := []; exclude_patterns := [];
     target_min_size := 0; target_max_size := None; min_age := None;
     recursive := true |}.

(** [ScanResult(target)] *)
Definition new_ScanResult (target : ScanTarget) : ScanResult :=
  {| target := target; files := []; file_types := ∅; total_size := 0;
     start_time := None; end_time := None |}.

(** *** [Scanner] *)

(** What the scan thread does that its caller can see, oldest first. *)
Inductive event : Type :=
| Progress (current total percent : Z)
| Walk (target : ScanTarget)
| Complete (results : list ScanResult).

Record Scanner : Type := mkScanner {
  targets : list ScanTarget;
  results : list ScanResult;
  running : bool;
  abort_flag : bool;
  (* not fields of the source: the reads of [self.abort_flag] by the scan
     thread so far, and what the thread has done so far *)
  polls : nat;
  events : list event
}.

Definition new_Scanner : Scanner :=
  {| targets := []; results := []; running := false; abort_flag := false;
     polls := 0%nat; events := [] |}.

Definition with_targets (self : Scanner) (ts : list ScanTarget) : Scanner :=
  {| targets := ts; results := results self; running := running self;
     abort_flag := abort_flag self; polls := polls self;
     events := events self |}.

Definition with_results (self : Scanner) (rs : list ScanResult) : Scanner :=
  {| targets := targets self; results := rs; running := running self;
     abort_flag := abort_flag self; polls := polls self;
     events := events self |}.

Definition with_running (self : Scanner) (b : bool) : Scanner :=
  {| targets := targets self; results := results self; running := b;
     abort_flag := abort_flag self; polls := polls self;
     events := events self |}.

Definition with_abort_flag (self : Scanner) (b : bool) : Scanner :=
  {| targets := targets self; results := results self;
     running := running self; abort_flag := b; polls := polls self;
     events := events self |}.

Definition with_event (self : Scanner) (e : event) : Scanner :=
  {| targets := targets self; results := results self;
     running := running self; abort_flag := abort_flag self;
     polls := polls self; events := events self ++ [e] |}.

Definition add_target (self : Scanner) (t : ScanTarget) : Scanner :=
  with_targets self (targets self ++ [t]).

(** [del l[i]] *)
Definition py_del {A : Type} (l : list A) (i : Z) : res (list A) :=
  let n := Z.of_nat (length l) in
  let i := if i <? 0 then i + n else i in
  if (0 <=? i) && (i <? n) then Ret (delete (Z.to_nat i) l)
  else Raise IndexError.

Definition remove_target (self : Scanner) (target_index : Z) : res Scanner :=
  if (0 <=? target_index) && (target_index <? Z.of_nat (length (targets self)))
  then ts <- py_del (targets self) target_index ;; Ret (with_targets self ts)
  else Ret self.

Definition clear_targets (self : Scanner) : Scanner := with_targets self [].

(** [int((current - 0.5) * 100 / total_targets)] *)
Definition percent_before (current total_targets : Z) : res Z :=
  c <- float_of_int current ;;
  t <- float_of_int total_targets ;;
  if total_targets =? 0 then Raise ZeroDivisionError
  else int_of_float (fdiv (fmul (fsub c f0_5) f100) t).

(** [int(current * 100 / total_targets)] *)
Definition percent_after (current total_targets : Z) : res Z :=
  q <- int_truediv (current * 100) total_targets ;;
  int_of_float q.

Section Run.
(** [abort_scan] runs on the caller's thread: [abort_requested k] tells
    whether it has set the flag by the [k]-th read of the scan thread. *)
Variable abort_requested : nat -> bool.
(** [_scan_target], the walk of one target: it reads the file system and the
    clock, catches every exception, and always returns a [ScanResult]; the
    number is the position of the walk in the run. *)
Variable _scan_target : nat -> ScanTarget -> option ScanFilter -> ScanResult.

Definition read_abort_flag (self : Scanner) : bool * Scanner :=
  let a := abort_flag self || abort_requested (polls self) in
  (a, {| targets := targets self; results := results self;
         running := running self; abort_flag := a;
         polls := S (polls self); events := events self |}).

Definition call_progress (cb : option (Z -> Z -> Z -> res unit))
           (current total percent : Z) (self : Scanner) : Scanner * res unit :=
  match cb with
  | Some f => (with_event self (Progress current total percent),
               f current total percent)
  | None => (self, Ret tt)
  end.

(** The [for target in enabled_targets] loop; [current] counts the targets
    begun. An exception leaves the loop, and the thread, where it is
    raised. *)
Fixpoint scan_loop (filter_obj : option ScanFilter)
         (progress_callback : option (Z -> Z -> Z -> res unit))
         (total_targets : Z) (enabled_targets : list ScanTarget)
         (current : Z) (self : Scanner) : Scanner * res unit :=
  match enabled_targets with
  | [] => (self, Ret tt)
  | target :: rest =>
      let '(a, self) := read_abort_flag self in
      if a then (self, Ret tt)
      else
        let current := current + 1 in
        match percent_before current total_targets with
        | Raise e => (self, Raise e)
        | Ret progress_percent =>
        match call_progress progress_callback (current - 1) total_targets
                            progress_percent self with
        | (self, Raise e) => (self, Raise e)
        | (self, Ret _) =>
        let result := _scan_target (Z.to_nat (current - 1)) target filter_obj in
        let self := with_event self (Walk target) in
        let self := with_results self (results self ++ [result]) in
        match percent_after current total_targets with
        | Raise e => (self, Raise e)
        | Ret progress_percent =>
        match call_progress progress_callback current total_targets
                            progress_percent self with
        | (self, Raise e) => (self, Raise e)
        | (self, Ret _) =>
            scan_loop filter_obj progress_callback total_targets rest
                      current self
        end end end end
  end.

Definition _scan_thread (self : Scanner) (filter_obj : option ScanFilter)
           (progress_callback : option (Z -> Z -> Z -> res unit))
           (complete_callback : option (list ScanResult -> res unit))
  : Scanner * res unit :=
  let self := with_results self [] in
  let enabled_targets := List.filter enabled (targets self) in
  let total_targets := Z.of_nat (length enabled_targets) in
  match scan_loop filter_obj progress_callback total_targets
                  enabled_targets 0 self with
  | (self, Raise e) => (self, Raise e)
  | (self, Ret _) =>
      let self := with_running self false in
      match complete_callback with
      | Some cb => (with_event self (Complete (results self)),
                    cb (results self))
      | None => (self, Ret tt)
      end
  end.

End Run.

(** The results of the walks over [ts], the first of which is walk number
    [k] of the run. *)
Fixpoint scan_results
         (_scan_target : nat -> ScanTarget -> option ScanFilter -> ScanResult)
         (filter_obj : option ScanFilter) (ts : list ScanTarget) (k : Z)
  : list ScanResult :=
  match ts with
  | [] => []
  | t :: ts' =>
      _scan_target (Z.to_nat k) t filter_obj
      :: scan_results _scan_target filter_obj ts' (k + 1)
  end.

(** What a scan over [ts] lets its caller see when [k] targets are done
    already: for each target a progress call at the half-way mark, the walk,
    and a progress call at the full mark, both percentages cut to an
    integer. *)
Fixpoint scan_events (total : Z) (ts : list ScanTarget) (k : Z) : list event :=
  match ts with
  | [] => []
  | t :: ts' =>
      Progress k total ((2 * (k + 1) - 1) * 50 / total)
      :: Walk t
      :: Progress (k + 1) total ((k + 1) * 100 / total)
      :: scan_events total ts' (k + 1)
  end.

(** [scan]: what it returns, the scanner after the call, and whether a
    [_scan_thread] was started. *)
Definition scan (self : Scanner) : pyval * Scanner * bool :=
  if running self then (PyBool false, self, false)
  else
    let self := with_abort_flag self false in
    let self := with_running self true in
    (PyBool true, self, true).

Definition abort_scan (self : Scanner) : Scanner :=
  if running self then with_abort_flag self true else self.

Definition is_running (self : Scanner) : bool := running self.

End Scanner.

(** ** core/cleaner.py *)
Module Cleaner.
Import PyStr PyFloat.

(** How a call into the operating system ends: it returns, or it raises an
    exception [e], of which [msg] is [str(e)]. *)
Inductive os_result : Type :=
| OsOk
| OsRaise (msg : string).

Inductive CleanMethod : Type :=
| RECYCLE_BIN
| PERMANENT
| RENAME
| SECURE.

Record CleanTask : Type := mkCleanTask {
  file_path : string;
  metadata : gmap string string;
  size : Z
}.

Record CleanResult : Type := mkCleanResult {
  result_file_path : string;
  result_size : Z;
  result_metadata : gmap string string;
  success : bool;
  error : option string;
  timestamp : Z
}.

(** The message of a task whose file is gone: "file not found". *)
Definition file_not_found : string := "文件不存在".

(** What the clean thread does that its caller can see, oldest first. *)
Inductive event : Type :=
| Progress (current total percent : Z)
| Cleaned (task : CleanTask) (result : CleanResult)
| Complete (results : list CleanResult).

Record Cleaner : Type := mkCleaner {
  method : CleanMethod;
  running : bool;
  abort_flag : bool;
  (* not fields of the source: the reads of [self.abort_flag] by the clean
     thread so far, and what the thread has done so far *)
  polls : nat;
  events : list event
}.

Definition new_Cleaner (method : CleanMethod) : Cleaner :=
  {| method := method; running := false; abort_flag := false;
     polls := 0%nat; events := [] |}.

Definition with_running (self : Cleaner) (b : bool) : Cleaner :=
  {| method := method self; running := b; abort_flag := abort_flag self;
     polls := polls self; events := events self |}.

Definition with_abort_flag (self : Cleaner) (b : bool) : Cleaner :=
  {| method := method self; running := running self; abort_flag := b;
     polls := polls self; events := events self |}.

Definition with_event (self : Cleaner) (e : event) : Cleaner :=
  {| method := method self; running := running self;
     abort_flag := abort_flag self; polls := polls self;
     events := events self ++ [e] |}.

Definition set_method (self : Cleaner) (m : CleanMethod) : Cleaner :=
  {| method := m; running := running self; abort_flag := abort_flag self;
     polls := polls self; events := events self |}.

(** [int((current / total) * 100) if total > 0 else 100] *)
Definition percent (current total : Z) : res Z :=
  if 0 <? total then
    q <- int_truediv current total ;;
    int_of_float (fmul q f100)
  else Ret 100.

(** The percent of a progress call, once [percent] has returned it. *)
Definition percent_value (current total : Z) : Z :=
  match percent current total with
  | Ret p => p
  | Raise _ => 0
  end.

(** *** The operating system the cleaner calls into *)
Class Os (FS : Type) : Type := {
  os_path_exists : FS -> string -> bool;
  os_path_isdir : FS -> string -> bool;
  os_path_getsize : FS -> string -> option Z;
  send2trash : string -> FS -> FS * os_result;
  os_remove : string -> FS -> FS * os_result;
  shutil_rmtree : string -> FS -> FS * os_result;
  os_rename : string -> string -> FS -> FS * os_result;
  (* the three overwriting passes of [_secure_delete], from
     [os.path.getsize] to the last [os.fsync] and the closing of the file *)
  overwrite_passes : string -> FS -> FS * os_result;
  (* [int(time.time())] and [datetime.now()] *)
  time_time : FS -> Z;
  datetime_now : FS -> Z
}.

Section WithOs.
Context {FS : Type} `{Os FS}.

(** [CleanTask(file_path, metadata)] *)
Definition new_CleanTask (fs : FS) (file_path : string)
           (metadata : option (gmap string string)) : CleanTask :=
  {| file_path := file_path;
     metadata := default ∅ metadata;
     size := default 0 (os_path_getsize fs file_path) |}.

(** [CleanResult(task, success, error)] *)
Definition new_CleanResult (fs : FS) (task : CleanTask) (success : bool)
           (error : option string) : CleanResult :=
  {| result_file_path := file_path task;
     result_size := size task;
     result_metadata := metadata task;
     success := success;
     error := error;
     timestamp := datetime_now fs |}.

(** [_secure_delete]: the passes and the removal run under [try]; on any
    exception the handler tries a plain [os.remove]. *)
Definition _secure_delete (file_path : string) (fs : FS) : FS * os_result :=
  let '(fs, r) := overwrite_passes file_path fs in
  let '(fs, r) :=
    match r with
    | OsOk => os_remove file_path fs
    | OsRaise msg => (fs, OsRaise msg)
    end in
  match r with
  | OsOk => (fs, OsOk)
  | OsRaise _ => os_remove file_path fs
  end.

(** The operation [_clean_file] runs on an existing path. *)
Definition clean_operation (method : CleanMethod) (file_path : string)
           (fs : FS) : FS * os_result :=
  match method with
  | RECYCLE_BIN => send2trash file_path fs
  | PERMANENT =>
      if os_path_isdir fs file_path then shutil_rmtree file_path fs
      else os_remove file_path fs
  | RENAME =>
      let new_path := file_path +:+ ".bak" in
      let new_path :=
        if os_path_exists fs new_path
        then file_path +:+ "." +:+ str_of_int (time_time fs) +:+ ".bak"
        else new_path in
      os_rename file_path new_path fs
  | SECURE =>
      if negb (os_path_isdir fs file_path) then _secure_delete file_path fs
      else shutil_rmtree file_path fs
  end.

Definition _clean_file (task : CleanTask) (method : CleanMethod) (fs : FS)
  : FS * CleanResult :=
  let file_path := file_path task in
  if negb (os_path_exists fs file_path)
  then (fs, new_CleanResult fs task false (Some file_not_found))
  else
    let '(fs, r) := clean_operation method file_path fs in
    match r with
    | OsOk => (fs, new_CleanResult fs task true None)
    | OsRaise msg => (fs, new_CleanResult fs task false (Some msg))
    end.

(** [_clean_file] on every task of a batch, in order, each on the file system
    the tasks before it have left. *)
Fixpoint clean_each (method : CleanMethod) (tasks : list CleanTask) (fs : FS)
  : FS * list CleanResult :=
  match tasks with
  | [] => (fs, [])
  | task :: rest =>
      let '(fs, result) := _clean_file task method fs in
      let '(fs, results) := clean_each method rest fs in
      (fs, result :: results)
  end.

(** What a clean over [tasks] lets its caller see when [i] tasks are done
    already: for each task the progress call, then the cleaning of the
    file. *)
Fixpoint clean_events (method : CleanMethod) (total : Z)
         (tasks : list CleanTask) (i : Z) (fs : FS) : list event :=
  match tasks with
  | [] => []
  | task :: rest =>
      let '(fs', result) := _clean_file task method fs in
      Progress (i + 1) total (percent_value (i + 1) total)
      :: Cleaned task result
      :: clean_events method total rest (i + 1) fs'
  end.

Section Run.
(** [abort_clean] runs on the caller's thread: [abort_requested k] tells
    whether it has set the flag by the [k]-th read of the clean thread. *)
Variable abort_requested : nat -> bool.

Definition read_abort_flag (self : Cleaner) : bool * Cleaner :=
  let a := abort_flag self || abort_requested (polls self) in
  (a, {| method := method self; running := running self; abort_flag := a;
         polls := S (polls self); events := events self |}).

(** The [for i, task in enumerate(tasks)] loop; [i] is the index of the
    first task of [tasks]. An exception leaves the loop, and the thread,
    where it is raised. *)
Fixpoint clean_loop (method : CleanMethod)
         (progress_callback : option (Z -> Z -> Z -> res unit))
         (total : Z) (tasks : list CleanTask) (i : Z)
         (results : list CleanResult) (self : Cleaner) (fs : FS)
  : Cleaner * FS * res (list CleanResult) :=
  match tasks with
  | [] => (self, fs, Ret results)
  | task :: rest =>
      let '(a, self) := read_abort_flag self in
      if a then (self, fs, Ret results)
      else
        let current := i + 1 in
        match percent current total with
        | Raise e => (self, fs, Raise e)
        | Ret percent =>
        let '(self, called) :=
          match progress_callback with
          | Some cb => (with_event self (Progress current total percent),
                        cb current total percent)
          | None => (self, Ret tt)
          end in
        match called with
        | Raise e => (self, fs, Raise e)
        | Ret _ =>
            let '(fs, result) := _clean_file task method fs in
            let self := with_event self (Cleaned task result) in
            clean_loop method progress_callback total rest (i + 1)
                       (results ++ [result]) self fs
        end end
  end.

Definition _clean_thread (self : Cleaner) (fs : FS)
           (tasks : list CleanTask) (method : CleanMethod)
           (progress_callback : option (Z -> Z -> Z -> res unit))
           (complete_callback : option (list CleanResult -> res unit))
  : Cleaner * FS * res unit :=
  let total := Z.of_nat (length tasks) in
  match clean_loop method progress_callback total tasks 0 [] self fs with
  | (self, fs, Raise e) => (self, fs, Raise e)
  | (self, fs, Ret results) =>
      let self := with_running self false in
      match complete_callback with
      | Some cb => (with_event self (Complete results), fs, cb results)
      | None => (self, fs, Ret tt)
      end
  end.

End Run.
End WithOs.

(** [clean]: what it returns, the cleaner after the call, and the method of
    the [_clean_thread] it has started, if any. *)
Definition clean (self : Cleaner) (method : option CleanMethod)
  : pyval * Cleaner * option CleanMethod :=
  if running self then (PyBool false, self, None)
  else
    let clean_method := default (Cleaner.method self) method in
    let self := with_abort_flag self false in
    let self := with_running self true in
    (PyBool true, self, Some clean_method).

Definition abort_clean (self : Cleaner) : Cleaner :=
  if running self then with_abort_flag self true else self.

Definition is_running (self : Cleaner) : bool := running self.

End Cleaner.

(** ** The scenarios of the specification *)
Module Scenarios.
Import PosixPath.

(** Scenario C: [root/sub1/sub2/file.txt], analysed with a maximum depth
    of 1 and never aborted. *)
Definition tree_c : Analyzer.fs_root :=
  Analyzer.RootDir true
    [Analyzer.FsDir "sub1" true
       [Analyzer.FsDir "sub2" true [Analyzer.FsFile "file.txt" 100]]].

Definition never : nat -> bool := fun _ => false.

Definition analysis_c : Analyzer.Analyzer :=
  fst (Analyzer._analyze_thread never tree_c "root" (Some 1)
         Analyzer.new_Analyzer).

(** Three targets, the second disabled. *)
Definition three_targets : Scanner.Scanner :=
  Scanner.with_targets Scanner.new_Scanner
    [Scanner.new_ScanTarget "temp" "/tmp" None true true;
     Scanner.new_ScanTarget "logs" "/var/log" None true false;
     Scanner.new_ScanTarget "cache" "/home/u/.cache" None false true].

(** [ScanFilter(max_size=0, min_age_days=0)] *)
Definition zero_filter : Scanner.ScanFilter :=
  {| Scanner.min_size := 0; Scanner.max_size := Some 0;
     Scanner.min_age_days := Some 0; Scanner.extensions := [];
     Scanner.exclude_exts := [] |}.

(** A walk that finds nothing. *)
Definition empty_walk (k : nat) (t : Scanner.ScanTarget)
           (f : option Scanner.ScanFilter) : Scanner.ScanResult :=
  Scanner.new_ScanResult t.

(** Callbacks: one that returns, one that raises. *)
Definition quiet {A : Type} : A -> res unit := fun _ => Ret tt.
Definition quiet3 : Z -> Z -> Z -> res unit := fun _ _ _ => Ret tt.
Definition failing3 : Z -> Z -> Z -> res unit :=
  fun _ _ _ => Raise (CallbackError "boom").

(** A scanner whose [scan] has just started the thread, with [k] enabled
    targets. *)
Definition scanner_of (k : nat) : Scanner.Scanner :=
  snd (fst (Scanner.scan
    (Scanner.with_targets Scanner.new_Scanner
       (map (fun i => Scanner.new_ScanTarget "t" "/tmp" None false true)
            (seq 0 k))))).

(** The percent of the progress contracts as the specification words it:
    [round(current * 100 / total)]. *)
Definition round_percent (current total : Z) : Z :=
  PyFloat.div_half_even (current * 100) total.

(** A file system of regular files for the cleaner: the size of every
    existing path, the paths that may not be removed or renamed, and the
    clock. *)
Record simple_fs : Type := mkSimpleFs {
  sf_files : gmap string Z;
  sf_locked : list string;
  sf_clock : Z
}.

Definition sf_exists (fs : simple_fs) (p : string) : bool :=
  match sf_files fs !! p with
  | Some _ => true
  | None => false
  end.

Definition sf_is_locked (fs : simple_fs) (p : string) : bool :=
  existsb (String.eqb p) (sf_locked fs).

Definition sf_without (p : string) (fs : simple_fs) : simple_fs :=
  {| sf_files := delete p (sf_files fs); sf_locked := sf_locked fs;
     sf_clock := sf_clock fs |}.

Definition no_such_file (p : string) : Cleaner.os_result :=
  Cleaner.OsRaise ("[Errno 2] No such file or directory: '" +:+ p +:+ "'").

Definition permission_denied (p : string) : Cleaner.os_result :=
  Cleaner.OsRaise ("[Errno 13] Permission denied: '" +:+ p +:+ "'").

Definition sf_remove (p : string) (fs : simple_fs)
  : simple_fs * Cleaner.os_result :=
  if negb (sf_exists fs p) then (fs, no_such_file p)
  else if sf_is_locked fs p then (fs, permission_denied p)
  else (sf_without p fs, Cleaner.OsOk).

Definition sf_rmtree (p : string) (fs : simple_fs)
  : simple_fs * Cleaner.os_result :=
  if sf_exists fs p
  then (fs, Cleaner.OsRaise ("[Errno 20] Not a directory: '" +:+ p +:+ "'"))
  else (fs, no_such_file p).

Definition sf_rename (src dst : string) (fs : simple_fs)
  : simple_fs * Cleaner.os_result :=
  match sf_files fs !! src with
  | Some sz =>
      if sf_is_locked fs src then (fs, permission_denied src)
      else ({| sf_files := <[dst := sz]> (delete src (sf_files fs));
               sf_locked := sf_locked fs;
               sf_clock := sf_clock fs |}, Cleaner.OsOk)
  | None => (fs, no_such_file src)
  end.

Definition sf_overwrite (p : string) (fs : simple_fs)
  : simple_fs * Cleaner.os_result :=
  if negb (sf_exists fs p) then (fs, no_such_file p)
  else if sf_is_locked fs p then (fs, permission_denied p)
  else (fs, Cleaner.OsOk).

#[export] Instance simple_os : Cleaner.Os simple_fs := {|
  Cleaner.os_path_exists := sf_exists;
  Cleaner.os_path_isdir := fun _ _ => false;
  Cleaner.os_path_getsize := fun fs p => sf_files fs !! p;
  Cleaner.send2trash := sf_remove;
  Cleaner.os_remove := sf_remove;
  Cleaner.shutil_rmtree := sf_rmtree;
  Cleaner.os_rename := sf_rename;
  Cleaner.overwrite_passes := sf_overwrite;
  Cleaner.time_time := sf_clock;
  Cleaner.datetime_now := sf_clock
|}.

(** Scenario B: three tasks made while [a], [b] and [c] existed; [b] is
    removed before the cleaning starts. *)
Definition fs_abc : simple_fs :=
  {| sf_files := <["/t/a" := 10]> (<["/t/b" := 20]> (<["/t/c" := 30]> ∅));
     sf_locked := [];
     sf_clock := 1700000000 |}.

(** The same files, with [c] protected against removal. *)
Definition fs_c_locked : simple_fs :=
  {| sf_files := sf_files fs_abc; sf_locked := ["/t/c"];
     sf_clock := sf_clock fs_abc |}.

Definition fs_ac : simple_fs := sf_without "/t/b" fs_abc.

Definition tasks_abc : list Cleaner.CleanTask :=
  [Cleaner.new_CleanTask fs_abc "/t/a" None;
   Cleaner.new_CleanTask fs_abc "/t/b" None;
   Cleaner.new_CleanTask fs_abc "/t/c" None].

(** A cleaner whose [clean] has just started the thread. *)
Definition cleaner_started : Cleaner.Cleaner :=
  snd (fst (Cleaner.clean (Cleaner.new_Cleaner Cleaner.RECYCLE_BIN)
                          (Some Cleaner.PERMANENT))).

End Scenarios.

(** ** utils/size_utils.py: the functions around the two conversions *)
Module SizeTools.
Import PyFloat PyStr SizeUtils.

Definition unknown_range : string := "未知大小范围".

(** [format_size_range]; [bytes_to_human_readable] is called with its default
    of two decimal places. *)
Definition format_size_range (min_size max_size : Z) : res string :=
  if (min_size <? 0) || (max_size <? 0) then Ret unknown_range
  else if min_size =? max_size then bytes_to_human_readable min_size 2
  else
    min_str <- bytes_to_human_readable min_size 2 ;;
    max_str <- bytes_to_human_readable max_size 2 ;;
    Ret (min_str +:+ " - " +:+ max_str).

(** [add_sizes] on a list of [int]s: the entries that are not negative are
    kept and summed, [sum] starting from 0. *)
Definition add_sizes (sizes : list Z) : Z :=
  let valid_sizes := List.filter (fun size => 0 <=? size) sizes in
  match valid_sizes with
  | [] => 0
  | _ :: _ => fold_left Z.add valid_sizes 0
  end.

Definition get_size_category (size_in_bytes : Z) : string :=
  if size_in_bytes <? 0 then "未知"
  else if size_in_bytes =? 0 then "空"
  else if size_in_bytes <? 10 * KB then "极小"
  else if size_in_bytes <? 1 * MB then "小"
  else if size_in_bytes <? 100 * MB then "中等"
  else if size_in_bytes <? 1 * GB then "大"
  else "极大".

(** The upper end of a size filter: a number of bytes, or [float('inf')]. *)
Inductive bound : Type :=
| Bytes (n : Z)
| Infinity.

(** [s.split(sep, 1)] for a [sep] that occurs in [s]: what stands before the
    first [sep], and what follows it. *)
Definition split_once (sep : ascii) (s : string) : string * string :=
  let l := chars s in
  (str (take_while (fun c => negb (Ascii.eqb sep c)) l),
   str (tl (drop_while (fun c => negb (Ascii.eqb sep c)) l))).

(** [s.startswith(c)] and [s[1:]]. *)
Definition startswith_char (c : ascii) (s : string) : bool :=
  match s with
  | String x _ => Ascii.eqb c x
  | EmptyString => false
  end.

Definition from_1 (s : string) : string :=
  match s with
  | String _ s' => s'
  | EmptyString => EmptyString
  end.

Definition parse_size_filter (size_filter : string) : res (Z * bound) :=
  if String.eqb size_filter "" then Ret (0, Infinity)
  else
    let size_filter := strip size_filter in
    if contains_char "-" size_filter then
      let parts := split_once "-" size_filter in
      min_size <- human_readable_to_bytes (strip (fst parts)) ;;
      max_size <- human_readable_to_bytes (strip (snd parts)) ;;
      Ret (min_size, Bytes max_size)
    else if startswith_char ">" size_filter then
      min_size <- human_readable_to_bytes (strip (from_1 size_filter)) ;;
      Ret (min_size, Infinity)
    else if startswith_char "<" size_filter then
      max_size <- human_readable_to_bytes (strip (from_1 size_filter)) ;;
      Ret (0, Bytes max_size)
    else
      exact_size <- human_readable_to_bytes size_filter ;;
      Ret (exact_size, Bytes exact_size).

(** [s.endswith(suffix)] and [s[:-k]]. *)
Definition endswith (suffix s : string) : bool :=
  let n := String.length s in
  let k := String.length suffix in
  (k <=? n)%nat && String.eqb (substring (n - k) k s) suffix.

Definition without_last (k : nat) (s : string) : string :=
  substring 0 (String.length s - k) s.

(** [format_percentage(part, total, decimal_places)] *)
Definition format_percentage (part total decimal_places : Z) : res string :=
  if (total <=? 0) || (part <? 0) then Ret "0%"
  else
    q <- int_truediv part total ;;
    let percentage := fmul q f100 in
    if decimal_places <? 0 then Raise ValueError
    else
      let result :=
        format_fixed (Z.to_nat decimal_places) percentage +:+ "%" in
      if endswith ".0%" result then Ret (without_last 3 result +:+ "%")
      else Ret result.

End SizeTools.

(** ** utils/system_utils.py: [SystemUtils.format_size] *)
Module SystemUtils.
Import PyFloat PyStr.

Definition flt : float -> float -> bool := SFltb.

(** The [for unit in [...]] loop on the units that are left, [size_bytes]
    being a float; after the last unit the size is given in PB. *)
Fixpoint format_size_loop (units : list string) (size_bytes : float) : string :=
  match units with
  | [] => format_fixed 2 size_bytes +:+ " PB"
  | unit :: units' =>
      if flt size_bytes f1024
      then format_fixed 2 size_bytes +:+ " " +:+ unit
      else format_size_loop units' (fdiv size_bytes f1024)
  end.

(** [format_size] on an [int]. The first test compares the [int] itself with
    1024.0; the [int] becomes a float where it is formatted or divided, and
    the conversion keeps the order with 1024, so it is made first here. An
    [int] too large for a float raises [OverflowError] at that place. *)
Definition format_size (size_bytes : Z) : res string :=
  size <- float_of_int size_bytes ;;
  Ret (format_size_loop ["B"; "KB"; "MB"; "GB"; "TB"] size).

End SystemUtils.

(** ** The texts of sizes: what the statements about them are made of *)
Module SizeShapes.
Import PyFloat PyStr PyFloatParse SizeUtils.

(** ["{:.<dp>f}"] on a number that is not negative, given as the integer
    [n] of its digits: the digits before the point, and [dp] digits after. *)
Definition fixed_text (dp : nat) (n : Z) : string :=
  match dp with
  | O => digits_of n
  | _ => digits_of (n / 10 ^ Z.of_nat dp) +:+ "."
         +:+ pad_left dp (digits_of (n mod 10 ^ Z.of_nat dp))
  end.

(** A list that starts with none of the characters of [p], or is empty. *)
Definition stops_at (p : ascii -> bool) (l : list ascii) : Prop :=
  match l with
  | [] => True
  | c :: _ => p c = false
  end.

(** The number a run of digits stands for, read after the number [acc]. *)
Fixpoint uint_val (d : Decimal.uint) (acc : Z) : Z :=
  match d with
  | Nil => acc
  | D0 d => uint_val d (10 * acc + 0)
  | D1 d => uint_val d (10 * acc + 1)
  | D2 d => uint_val d (10 * acc + 2)
  | D3 d => uint_val d (10 * acc + 3)
  | D4 d => uint_val d (10 * acc + 4)
  | D5 d => uint_val d (10 * acc + 5)
  | D6 d => uint_val d (10 * acc + 6)
  | D7 d => uint_val d (10 * acc + 7)
  | D8 d => uint_val d (10 * acc + 8)
  | D9 d => uint_val d (10 * acc + 9)
  end.

(** The digits of a number, as characters. *)
Definition digit_chars (n : Z) : list ascii := chars (digits_of n).

(** What ends a run of digits for [float()]: neither a digit nor ["_"]. *)
Definition ends_digits (l : list ascii) : Prop :=
  match l with
  | [] => True
  | c :: _ => is_digit c = false /\ Ascii.eqb c "_" = false
  end.

(** The number of whole factors 1024 in a size, five at most: the index of
    its unit. *)
Definition unit_index (s : Z) : nat :=
  Z.to_nat (Z.min 5 ((Zdigits2 s - 1) / 10)).

(** The text [bytes_to_human_readable] gives for a size of [i] whole factors
    1024, to [dp] decimal places. *)
Definition size_number (s : Z) (i : Z) (dp : nat) : string :=
  fixed_text dp (div_half_even (s * 10 ^ Z.of_nat dp) (1024 ^ i)).

(** The units of [bytes_to_human_readable], by index. *)
Definition unit_names : list string := ["B"; "KB"; "MB"; "GB"; "TB"; "PB"].

(** The characters of a number: digits and the point. *)
Definition is_num (c : ascii) : bool := is_digit c || Ascii.eqb c ".".

(** What [human_readable_to_bytes] does with the number and the unit it has
    found. *)
Definition read_size (number unit : string) : res Z :=
  except_value_error
    (size_val <- parse_float number ;;
     match lookup_unit (upper unit) units with
     | Some u => uf <- float_of_int u ;; int_of_float (fmul size_val uf)
     | None => int_of_float size_val
     end).

(** The characters of the text of a size: digits, the point, the space and
    capital letters; none is the dash. *)
Definition is_size_char (c : ascii) : bool :=
  is_num c || Ascii.eqb c " " || is_upper c.

(** A text that starts with a digit, ends in ["B"], and holds no dash. *)
Definition size_text (t : string) : Prop :=
  exists c body,
    chars t = c :: body ++ ["B"%char] /\ is_digit c = true /\
    forallb is_size_char (chars t) = true.

End SizeShapes.

(** ** [re]: the regular expressions [Scanner._match_pattern] builds

    [_match_pattern] turns a wildcard pattern into a regular expression made
    of an opening [^], literal characters, [\.], [.], [.*] and a closing [$],
    and matches it with [re.IGNORECASE]. Anything else in the expression (a
    character that is special to [re], a byte that is not ASCII, in the
    expression or in the text) is outside this model: the answer is [None]. *)
Module PyRe.
Import PyStr.

(** [s.replace(old, new)] for an [old] of one character. *)
Definition replace (old : ascii) (new : string) (s : string) : string :=
  str (flat_map (fun c => if Ascii.eqb c old then chars new else [c]) (chars s)).

Inductive token : Type :=
| Char (c : ascii)   (* a literal character, [\.] included *)
| AnyChar            (* [.] *)
| AnyStar.           (* [.*] *)

Definition is_ascii (c : ascii) : bool := (code c <? 128)%N.

(** The characters with a meaning of their own in an expression. *)
Definition is_special (c : ascii) : bool :=
  existsb (Ascii.eqb c) (chars "\^$.*+?()[]{}|").

Definition newline : ascii := "010".

Fixpoint tokens (l : list ascii) : option (list token) :=
  match l with
  | [] => Some []
  | c :: r =>
      if Ascii.eqb c "\" then
        match r with
        | d :: r' =>
            if Ascii.eqb d "." then option_map (cons (Char ".")) (tokens r')
            else None
        | [] => None
        end
      else if Ascii.eqb c "." then
        match r with
        | d :: r' =>
            if Ascii.eqb d "*" then option_map (cons AnyStar) (tokens r')
            else option_map (cons AnyChar) (tokens r)
        | [] => Some [AnyChar]
        end
      else if is_special c || negb (is_ascii c) then None
      else option_map (cons (Char c)) (tokens r)
  end.

(** Two ASCII characters that [re.IGNORECASE] takes for the same. *)
Definition same_letter (c x : ascii) : bool :=
  Ascii.eqb (lower_char c) (lower_char x).

(** [$] without [re.MULTILINE]: the end of the text, or the line break that
    ends it. *)
Definition at_end (s : list ascii) : bool :=
  match s with
  | [] => true
  | [x] => Ascii.eqb x newline
  | _ => false
  end.

(** Whether the tokens, then [$], match the text from its start; [.] matches
    any character but a line break. *)
Fixpoint match_here (p : list token) (s : list ascii) : bool :=
  match p with
  | [] => at_end s
  | Char c :: p' =>
      match s with
      | x :: s' => same_letter c x && match_here p' s'
      | [] => false
      end
  | AnyChar :: p' =>
      match s with
      | x :: s' => negb (Ascii.eqb x newline) && match_here p' s'
      | [] => false
      end
  | AnyStar :: p' =>
      (fix star (s : list ascii) : bool :=
         match_here p' s
         || match s with
            | x :: s' => negb (Ascii.eqb x newline) && star s'
            | [] => false
            end) s
  end.

(** [bool(re.match(pattern, text, re.IGNORECASE))] for a [pattern] of the
    shape [^...$]. *)
Definition re_match_ignorecase (pattern text : string) : option bool :=
  if forallb is_ascii (chars text) then
    match chars pattern with
    | c :: r =>
        if Ascii.eqb c "^" then
          match rev r with
          | d :: body =>
              if Ascii.eqb d "$"
              then option_map (fun p => match_here p (chars text))
                              (tokens (rev body))
              else None
          | [] => None
          end
        else None
    | [] => None
    end
  else None.

End PyRe.

(** ** core/scanner.py: targets, results and the walk of one target *)
Module ScannerWalk.
Import PyStr PyFloat PyRe Scanner.

(** *** [ScanTarget]: its methods *)
Definition add_pattern (self : ScanTarget) (pattern : string) : ScanTarget :=
  if mem pattern (patterns self) then self
  else
    {| name := name self; path := path self; description := description self;
       is_system := is_system self; enabled := enabled self;
       patterns := patterns self ++ [pattern];
       exclude_patterns := exclude_patterns self;
       target_min_size := target_min_size self;
       target_max_size := target_max_size self;
       min_age := min_age self; recursive := recursive self |}.

Definition add_exclude_pattern (self : ScanTarget) (pattern : string)
  : ScanTarget :=
  if mem pattern (exclude_patterns self) then self
  else
    {| name := name self; path := path self; description := description self;
       is_system := is_system self; enabled := enabled self;
       patterns := patterns self;
       exclude_patterns := exclude_patterns self ++ [pattern];
       target_min_size := target_min_size self;
       target_max_size := target_max_size self;
       min_age := min_age self; recursive := recursive self |}.

Definition set_size_filter (self : ScanTarget) (min_size : Z)
           (max_size : option Z) : ScanTarget :=
  {| name := name self; path := path self; description := description self;
     is_system := is_system self; enabled := enabled self;
     patterns := patterns self; exclude_patterns := exclude_patterns self;
     target_min_size := min_size; target_max_size := max_size;
     min_age := min_age self; recursive := recursive self |}.

Definition set_age_filter (self : ScanTarget) (min_age : option Z)
  : ScanTarget :=
  {| name := name self; path := path self; description := description self;
     is_system := is_system self; enabled := enabled self;
     patterns := patterns self; exclude_patterns := exclude_patterns self;
     target_min_size := target_min_size self;
     target_max_size := target_max_size self;
     min_age := min_age; recursive := recursive self |}.

Definition set_recursive (self : ScanTarget) (recursive : bool) : ScanTarget :=
  {| name := name self; path := path self; description := description self;
     is_system := is_system self; enabled := enabled self;
     patterns := patterns self; exclude_patterns := exclude_patterns self;
     target_min_size := target_min_size self;
     target_max_size := target_max_size self;
     min_age := min_age self; recursive := recursive |}.

(** *** [Scanner.add_custom_target] *)
Definition user_directory : string := "用户选择的目录: ".

(** [os_path_exists] is what [os.path.exists(path)] answers. The call returns
    the new target, or [None], and leaves the scanner with it added. *)
Definition add_custom_target (os_path_exists : bool) (self : Scanner)
           (name path : string) (patterns : option (list string))
           (min_age : option Z) (min_size : Z) (description : option string)
           (enabled : bool) : option ScanTarget * Scanner :=
  if os_path_exists then
    let description :=
      let d := default "" description in
      if String.eqb d "" then user_directory +:+ path else d in
    let target := new_ScanTarget name path (Some description) false enabled in
    let target :=
      if nonempty (default [] patterns)
      then fold_left add_pattern (default [] patterns) target
      else add_pattern target "*" in
    let target :=
      match min_age with
      | Some a => set_age_filter target (Some a)
      | None => target
      end in
    let target :=
      if 0 <? min_size then set_size_filter target min_size None
      else target in
    (Some target, add_target self target)
  else (None, self).

(** *** [ScanResult]: its methods

    [file_info], the dictionary from a path to the size, the type and the
    modification time of the file, is kept beside the record of the scan
    thread. *)
Record FileInfo : Type := mkFileInfo {
  info_size : Z;
  info_type : string;
  info_mod_time : Z
}.

Record Found : Type := mkFound {
  result : ScanResult;
  file_info : gmap string FileInfo
}.

(** [ScanResult(target)] *)
Definition new_Found (target : ScanTarget) : Found :=
  {| result := new_ScanResult target; file_info := ∅ |}.

Definition with_start_time (self : Found) (t : Z) : Found :=
  {| result :=
       {| target := target (result self); files := files (result self);
          file_types := file_types (result self);
          total_size := total_size (result self);
          start_time := Some t; end_time := end_time (result self) |};
     file_info := file_info self |}.

Definition with_end_time (self : Found) (t : Z) : Found :=
  {| result :=
       {| target := target (result self); files := files (result self);
          file_types := file_types (result self);
          total_size := total_size (result self);
          start_time := start_time (result self); end_time := Some t |};
     file_info := file_info self |}.

(** [add_file]; an entry of [file_types] is the pair of its ['count'] and its
    ['size']. *)
Definition add_file (self : Found) (file_path : string) (file_size : Z)
           (file_type : string) (mod_time : Z) : Found :=
  let r := result self in
  {| result :=
       {| target := target r;
          files := files r ++ [file_path];
          file_types :=
            match file_types r !! file_type with
            | Some (count, size) =>
                <[file_type := (count + 1, size + file_size)]> (file_types r)
            | None => <[file_type := (1, file_size)]> (file_types r)
            end;
          total_size := total_size r + file_size;
          start_time := start_time r; end_time := end_time r |};
     file_info :=
       <[file_path := {| info_size := file_size; info_type := file_type;
                         info_mod_time := mod_time |}]> (file_info self) |}.

(** *** [_match_pattern] *)
Definition _match_pattern (filename pattern : string) : option bool :=
  let regex_pattern := replace "." "\." pattern in
  let regex_pattern := replace "*" ".*" regex_pattern in
  let regex_pattern := replace "?" "." regex_pattern in
  let regex_pattern := "^" +:+ regex_pattern +:+ "$" in
  re_match_ignorecase regex_pattern filename.

(** *** The directory tree the walk reads *)

(** What [os.stat] and [datetime.fromtimestamp] give for a file. *)
Inductive stat_result : Type :=
| Stat (st_size : Z) (mod_time : Z)
| StatOSError
    (* [os.stat], or the conversion of the time, raises an [OSError] *)
| StatTimeError (e : exn).
    (* [datetime.fromtimestamp] raises [e], an [OverflowError] or a
       [ValueError], for a time out of its range *)

Inductive fs_entry : Type :=
| FsFile (name : string) (stat : stat_result)
    (* [os.path.isfile] *)
| FsDir (name : string) (listing : option (list fs_entry))
    (* [os.path.isdir]; [os.listdir] on it raises an [OSError] when
       [listing] is [None] *)
| FsOther (name : string).
    (* neither *)

(** What [os.path.exists] says of the path of the target, and [os.listdir]
    gives for it. *)
Inductive fs_root : Type :=
| NoSuchPath
| Root (listing : option (list fs_entry)).

(** The scan thread at work on a target: the scanner, whose abort flag it
    reads, the clock, and what it has found. *)
Record Walk : Type := mkWalk {
  scanner : Scanner;
  ticks : nat;
  found : Found
}.

Definition with_found (w : Walk) (f : Found) : Walk :=
  {| scanner := scanner w; ticks := ticks w; found := f |}.

Section Run.
Context `{OsPath}.
(** [abort_scan] runs on the caller's thread: [abort_requested k] tells
    whether it has set the flag by the [k]-th read of the scan thread. *)
Variable abort_requested : nat -> bool.
(** [now k] is what [datetime.now()] gives at the [k]-th of the moments at
    which the walk may read it. *)
Variable now : nat -> Z.
(** [self._match_pattern]: it returns, or [re] raises an exception, which
    is no [OSError]. *)
Variable match_pattern : string -> string -> res bool.

Definition read_clock (w : Walk) : Z * Walk :=
  (now (ticks w),
   {| scanner := scanner w; ticks := S (ticks w); found := found w |}).

Definition read_abort (w : Walk) : bool * Walk :=
  let '(a, s) := read_abort_flag abort_requested (scanner w) in
  (a, {| scanner := s; ticks := ticks w; found := found w |}).

(** [any(self._match_pattern(filename, pattern) for pattern in patterns)] *)
Fixpoint any_match (filename : string) (patterns : list string) : res bool :=
  match patterns with
  | [] => Ret false
  | pattern :: rest =>
      b <- match_pattern filename pattern ;;
      if b then Ret true else any_match filename rest
  end.

(** The type under which [_process_file] counts a file. *)
Definition no_extension : string := "无扩展名".

Definition file_type_of (filename : string) : string :=
  let file_ext := lower (snd (path_splitext filename)) in
  match file_ext with
  | EmptyString => no_extension
  | String _ rest => rest
  end.

(** [_process_file]; an [OSError] raised between [os.stat] and [add_file]
    is caught, any other exception leaves the function. *)
Definition _process_file (target : ScanTarget) (file_path : string)
           (stat : stat_result) (filter_obj : option ScanFilter) (w : Walk)
  : Walk * res unit :=
  let filename := path_basename file_path in
  match (if nonempty (patterns target)
         then any_match filename (patterns target) else Ret true) with
  | Raise e => (w, Raise e)
  | Ret is_match =>
  match (if nonempty (exclude_patterns target)
         then any_match filename (exclude_patterns target)
         else Ret false) with
  | Raise e => (w, Raise e)
  | Ret is_excluded =>
      if is_excluded then (w, Ret tt)
      else if is_match then
        match stat with
        | StatOSError => (w, Ret tt)
        | StatTimeError e => (w, Raise e)
        | Stat file_size mod_time =>
            let '(passes, w) :=
              match filter_obj with
              | Some f =>
                  let '(t, w) := read_clock w in
                  (match_file f t file_path file_size mod_time, w)
              | None => (true, w)
              end in
            if negb passes then (w, Ret tt)
            else
              let '(old_enough, w) :=
                if truthy (min_age target) then
                  let '(t, w) := read_clock w in
                  (negb (days_between t mod_time
                         <? default 0 (min_age target)), w)
                else (true, w) in
              if negb old_enough then (w, Ret tt)
              else
                (with_found w
                   (add_file (found w) file_path file_size
                             (file_type_of filename) mod_time),
                 Ret tt)
        end
      else (w, Ret tt)
  end end.

(** The [for item in items] loop of [_scan_directory], [visit] being its
    body; an exception that [visit] lets through ends the loop. *)
Definition listdir_loop (visit : fs_entry -> Walk -> Walk * res unit)
  : list fs_entry -> Walk -> Walk * res unit :=
  fix go items w :=
    match items with
    | [] => (w, Ret tt)
    | item :: items' =>
        let '(a, w) := read_abort w in
        if a then (w, Ret tt)
        else
          match visit item w with
          | (w, Raise e) => (w, Raise e)
          | (w, Ret _) => go items' w
          end
    end.

(** One call of [_scan_directory] on a directory with the given listing. *)
Definition scan_directory_with (visit : fs_entry -> Walk -> Walk * res unit)
           (listing : option (list fs_entry)) (w : Walk) : Walk * res unit :=
  match listing with
  | None => (w, Ret tt)
  | Some items => listdir_loop visit items w
  end.

(** The loop body for one entry of [directory]. *)
Fixpoint scan_item (target : ScanTarget) (directory : string)
         (filter_obj : option ScanFilter) (item : fs_entry) (w : Walk)
         {struct item} : Walk * res unit :=
  match item with
  | FsFile name stat =>
      _process_file target (path_join directory name) stat filter_obj w
  | FsDir name listing =>
      if recursive target then
        scan_directory_with
          (scan_item target (path_join directory name) filter_obj) listing w
      else (w, Ret tt)
  | FsOther _ => (w, Ret tt)
  end.

Definition _scan_directory (target : ScanTarget) (directory : string)
           (listing : option (list fs_entry))
           (filter_obj : option ScanFilter) (w : Walk) : Walk * res unit :=
  scan_directory_with (scan_item target directory filter_obj) listing w.

(** [_scan_target]: whatever the walk raises is caught, and the result so
    far is returned. *)
Definition _scan_target (fs : fs_root) (target : ScanTarget)
           (filter_obj : option ScanFilter) (w : Walk) : Walk :=
  let w := with_found w (new_Found target) in
  let '(t, w) := read_clock w in
  let w := with_found w (with_start_time (found w) t) in
  let w :=
    match fs with
    | NoSuchPath => w
    | Root listing =>
        fst (_scan_directory target (path target) listing filter_obj w)
    end in
  let '(t, w) := read_clock w in
  with_found w (with_end_time (found w) t).

End Run.

End ScannerWalk.

(** ** Wildcard patterns: the characters the statements about them cover *)
Module Glob.
Import PyStr PyRe.

(** A character that stands for itself in a wildcard pattern. *)
Definition is_literal (c : ascii) : bool :=
  is_ascii c && (negb (is_special c) || Ascii.eqb c ".").

(** A file name of ASCII characters, without a line break. *)
Definition is_name_char (c : ascii) : bool :=
  is_ascii c && negb (Ascii.eqb c newline).

(** What a character of a pattern becomes in the expression. *)
Definition expression_of (c : ascii) : list ascii :=
  if Ascii.eqb c "." then chars "\."
  else if Ascii.eqb c "*" then chars ".*"
  else if Ascii.eqb c "?" then chars "."
  else [c].

(** The token it is read as. *)
Definition token_of (c : ascii) : token :=
  if Ascii.eqb c "." then Char "."
  else if Ascii.eqb c "*" then AnyStar
  else if Ascii.eqb c "?" then AnyChar
  else Char c.

(** The characters of a wildcard pattern this model covers. *)
Definition is_glob_char (c : ascii) : bool :=
  is_literal c || Ascii.eqb c "*" || Ascii.eqb c "?".

End Glob.

(** ** What a walk of the scanner may report *)
Module ScanReport.
Import PyStr Scanner ScannerWalk.

(** A file as [add_file] receives it: path, size, type, modification
    time. *)
Definition hit : Type := string * Z * string * Z.

Definition add_hit (f : Found) (h : hit) : Found :=
  let '(p, s, t, m) := h in add_file f p s t m.

Definition hit_path (h : hit) : string :=
  let '(p, _, _, _) := h in p.

Definition hit_file (h : hit) : string * Z * Z :=
  let '(p, s, _, m) := h in (p, s, m).

(** The walk with another target in its result. *)
Definition with_target (t : ScanTarget) (w : Walk) : Walk :=
  {| scanner := scanner w; ticks := ticks w;
     found :=
       {| result :=
            {| target := t; files := files (result (found w));
               file_types := file_types (result (found w));
               total_size := total_size (result (found w));
               start_time := start_time (result (found w));
               end_time := end_time (result (found w)) |};
          file_info := file_info (found w) |} |}.

(** The walk in the hands of another scanner. *)
Definition with_scanner (s : Scanner) (w : Walk) : Walk :=
  {| scanner := s; ticks := ticks w; found := found w |}.

(** The files and the bytes that the entries of [file_types] count. *)
Definition counted (m : gmap string (Z * Z)) : Z :=
  map_fold (fun _ v acc => acc + fst v) 0 m.

Definition sized (m : gmap string (Z * Z)) : Z :=
  map_fold (fun _ v acc => acc + snd v) 0 m.

(** The counters agree with the list of files and the total size. *)
Definition balanced (f : Found) : Prop :=
  counted (file_types (result f)) = Z.of_nat (length (files (result f))) /\
  sized (file_types (result f)) = total_size (result f).

(** The aborted walk [a] and the full walk [b] after the same calls: they
    are at the same point, or [a] has seen the flag and [b] is ahead. *)
Definition keeps_up (a b : Walk * res unit) : Prop :=
  (found a.1 = found b.1 /\ ticks a.1 = ticks b.1 /\
   abort_flag (scanner b.1) = false /\ a.2 = b.2) \/
  (abort_flag (scanner a.1) = true /\ a.2 = Ret tt /\
   files (result (found a.1)) `prefix_of` files (result (found b.1))).

Section WithOsPath.
Context `{OsPath}.

(** The regular files below an entry of [directory] whose size and time can
    be read, with their paths; those of the subdirectories only for a
    recursive walk. *)
Fixpoint entry_files (recursive : bool) (directory : string)
         (item : fs_entry) : list (string * Z * Z) :=
  match item with
  | FsFile name (Stat size mod_time) =>
      [(path_join directory name, size, mod_time)]
  | FsFile _ _ => []
  | FsDir name (Some items) =>
      if recursive
      then flat_map (entry_files recursive (path_join directory name)) items
      else []
  | FsDir _ None => []
  | FsOther _ => []
  end.

Definition tree_files (recursive : bool) (directory : string)
           (fs : fs_root) : list (string * Z * Z) :=
  match fs with
  | Root (Some items) => flat_map (entry_files recursive directory) items
  | _ => []
  end.

(** What [_process_file] has checked of a file before it reports it. *)
Definition checked (now : nat -> Z) (match_pattern : string -> string -> res bool)
           (target : ScanTarget) (filter_obj : option ScanFilter)
           (h : hit) : Prop :=
  let '(p, s, t, m) := h in
  (patterns target <> [] ->
   exists pattern, In pattern (patterns target) /\
                   match_pattern (path_basename p) pattern = Ret true) /\
  (forall pattern, In pattern (exclude_patterns target) ->
                   match_pattern (path_basename p) pattern = Ret false) /\
  t = file_type_of (path_basename p) /\
  (forall f, filter_obj = Some f ->
             exists k, match_file f (now k) p s m = true) /\
  (truthy (min_age target) = true ->
   exists k, default 0 (min_age target) <= days_between (now k) m).

(** What the walk of some entries reports: files of those entries that
    [_process_file] has checked now match_pattern. *)
Definition reports (now : nat -> Z)
           (match_pattern : string -> string -> res bool)
           (target : ScanTarget) (filter_obj : option ScanFilter)
           (directory : string) (items : list fs_entry) (w w' : Walk) : Prop :=
  exists hits,
    found w' = fold_left add_hit hits (found w) /\
    Forall (fun h => checked now match_pattern target filter_obj h /\
                     In (hit_file h)
                        (flat_map (entry_files (recursive target) directory)
                                  items))
           hits.

End WithOsPath.

(** [self._match_pattern] on the patterns of the model; a pattern outside
    it is taken to raise. *)
Definition match_glob (filename pattern : string) : res bool :=
  match _match_pattern filename pattern with
  | Some b => Ret b
  | None => Raise ValueError
  end.

(** A download directory: two temporary files, one of them kept by name,
    a document, and a cache directory with one more temporary file. *)
Definition downloads : fs_root :=
  Root (Some [FsFile "a.tmp" (Stat 10 0);
              FsFile "keep.tmp" (Stat 20 0);
              FsFile "notes.txt" (Stat 30 0);
              FsDir "cache" (Some [FsFile "B.TMP" (Stat 40 0)]);
              FsFile "c.tmp" (Stat 50 0)]).

Definition temp_target : ScanTarget :=
  add_exclude_pattern
    (add_pattern (new_ScanTarget "temp" "/dl" None false true) "*.tmp")
    "keep*".

(** The same target with a pattern that [re] rejects put first. *)
Definition broken_target : ScanTarget :=
  add_pattern
    (add_pattern (new_ScanTarget "temp" "/dl" None false true) "[")
    "*.tmp".

Definition fresh_walk : Walk :=
  {| scanner := new_Scanner; ticks := 0%nat; found := new_Found temp_target |}.

End ScanReport.

(** ** What an analysis has in its tree *)
Module AnalysisTree.
Import Analyzer.

(** The file nodes of some trees, and the bytes of a list of nodes. *)
Definition file_nodes (l : list DiskItem) : list DiskItem :=
  List.filter (fun it => negb (is_dir it)) (flat_map nodes l).

Definition sum_sizes (l : list DiskItem) : Z :=
  fold_right Z.add 0 (map size l).

(** What a step of the walk does to the parent and to the counters: it adds
    children, and it counts their file nodes. *)
Definition accounts (p : DiskItem) (s : Analyzer) (p' : DiskItem)
           (s' : Analyzer) : Prop :=
  exists new,
    children p' = children p ++ new /\ is_dir p' = is_dir p /\
    file_count (the_result s')
    = file_count (the_result s) + Z.of_nat (length (file_nodes new)) /\
    total_size (the_result s')
    = total_size (the_result s) + sum_sizes (file_nodes new).

(** The bytes that a step adds to the size of the directory are the bytes
    it adds to the total. *)
Definition sizes_up (ds : Z) (s : Analyzer) (ds' : Z) (s' : Analyzer) : Prop :=
  aborted s' = false /\
  ds' - ds = total_size (the_result s') - total_size (the_result s).

(** A directory with two files and a subdirectory that holds a third. *)
Definition photos : fs_root :=
  RootDir true
    [FsFile "a.jpg" 100;
     FsDir "old" true [FsFile "b.jpg" 20; FsOther "socket"];
     FsFile "c.png" 3].

End AnalysisTree.

(** * Properties *)

(** ** Binary64 arithmetic: what rounding does to the percentages *)
Module FloatFacts.
Import PyFloat.

Lemma digits2_pos_size p : digits2_pos p = Pos.size p.
Proof. induction p; simpl; congruence. Qed.

Lemma Zdigits2_log2 z : 0 < z -> Zdigits2 z = Z.log2 z + 1.
Proof.
  destruct z as [|p|p]; try lia. intros _. simpl.
  destruct p; simpl; rewrite ?digits2_pos_size; lia.
Qed.

Lemma Zdigits2_bounds z :
  0 < z -> 2 ^ (Zdigits2 z - 1) <= z < 2 ^ Zdigits2 z.
Proof.
  intros Hz. rewrite Zdigits2_log2 by exact Hz.
  replace (Z.log2 z + 1 - 1) with (Z.log2 z) by lia.
  apply Z.log2_spec. exact Hz.
Qed.

Lemma Zdigits2_unique z d :
  0 < d -> 2 ^ (d - 1) <= z < 2 ^ d -> Zdigits2 z = d.
Proof.
  intros Hd Hz.
  assert (0 < z) by (pose proof (Z.pow_pos_nonneg 2 (d - 1)); lia).
  rewrite Zdigits2_log2 by assumption.
  rewrite (Z.log2_unique z (d - 1)); try lia.
  replace (Z.succ (d - 1)) with d by lia. exact Hz.
Qed.

Lemma new_location_locate d r :
  0 < d -> 0 <= r < d -> new_location d r = locate r d.
Proof.
  intros Hd Hr. unfold new_location, new_location_even, new_location_odd, locate.
  destruct (Z.even d) eqn:Ev; [reflexivity|].
  destruct (r =? 0); [reflexivity|]. f_equal.
  assert (Hodd : Z.odd d = true) by (rewrite <- Z.negb_even, Ev; reflexivity).
  apply Z.odd_spec in Hodd. destruct Hodd as [j Hj].
  destruct (2 * r + 1 ?= d) eqn:C1; destruct (2 * r ?= d) eqn:C2;
    try reflexivity;
    rewrite ?Z.compare_eq_iff, ?Z.compare_lt_iff, ?Z.compare_gt_iff in *; lia.
Qed.

Lemma shr_1_nonneg m r s :
  0 <= m ->
  shr_1 {| shr_m := m; shr_r := r; shr_s := s |} =
  {| shr_m := Z.div2 m; shr_r := Z.odd m; shr_s := r || s |}.
Proof.
  intros Hm. destruct m as [|p|p]; [reflexivity| |lia].
  destruct p; reflexivity.
Qed.

Lemma div_mod_double n d :
  0 <= n -> 0 < d ->
  n / (2 * d) = (n / d) / 2 /\
  n mod (2 * d) = d * ((n / d) mod 2) + n mod d.
Proof.
  intros Hn Hd.
  pose proof (Z.div_mod n d ltac:(lia)) as E1.
  pose proof (Z.mod_pos_bound n d Hd) as B1.
  pose proof (Z.div_mod (n / d) 2 ltac:(lia)) as E2.
  pose proof (Z.mod_pos_bound (n / d) 2 ltac:(lia)) as B2.
  assert (E : n = (2 * d) * ((n / d) / 2) + (d * ((n / d) mod 2) + n mod d)) by nia.
  split.
  - symmetry. eapply Z.div_unique_pos; [|exact E]. nia.
  - symmetry. eapply Z.mod_unique_pos; [|exact E]. nia.
Qed.

Lemma shr_1_represents mrs n d :
  0 <= n -> 0 < d -> represents mrs n d -> represents (shr_1 mrs) n (2 * d).
Proof.
  intros Hn Hd [Hm Hl]. destruct mrs as [m r s]. simpl in Hm, Hl.
  assert (0 <= m) by (subst m; apply Z.div_pos; lia).
  rewrite shr_1_nonneg by assumption.
  destruct (div_mod_double n d Hn Hd) as [Eq Er].
  pose proof (Z.mod_pos_bound n d Hd) as B.
  split; simpl.
  - rewrite Z.div2_div, Hm. symmetry. exact Eq.
  - rewrite Er, <- Hm, Zmod_odd. unfold locate in *.
    destruct (Z.odd m); destruct r, s; simpl in *;
      destruct (n mod d =? 0) eqn:E0; try discriminate;
      rewrite ?Z.eqb_eq, ?Z.eqb_neq in E0;
      try (injection Hl as Hl; symmetry in Hl; rewrite ?Z.compare_eq_iff, ?Z.compare_lt_iff, ?Z.compare_gt_iff in Hl);
      repeat match goal with
      | |- context [?a =? 0] => destruct (Z.eqb_spec a 0)
      end; try lia; try reflexivity; f_equal; symmetry;
      rewrite ?Z.compare_eq_iff, ?Z.compare_lt_iff, ?Z.compare_gt_iff; try lia.
Qed.

Lemma pow2_xO p : 2 ^ Zpos p~0 = 2 ^ Zpos p * 2 ^ Zpos p.
Proof.
  replace (Zpos p~0) with (Zpos p + Zpos p) by lia.
  apply Z.pow_add_r; lia.
Qed.

Lemma pow2_xI p : 2 ^ Zpos p~1 = 2 ^ Zpos p * (2 ^ Zpos p * 2).
Proof.
  replace (Zpos p~1) with (Zpos p + (Zpos p + 1)) by lia.
  rewrite !Z.pow_add_r by lia. reflexivity.
Qed.

Lemma iter_pos_shr_1_represents p :
  forall mrs n d,
    0 <= n -> 0 < d -> represents mrs n d ->
    represents (SpecFloat.iter_pos shr_1 p mrs) n (2 ^ Zpos p * d).
Proof.
  induction p as [p IH|p IH|]; intros mrs n d Hn Hd Hr; simpl.
  - assert (0 < 2 ^ Zpos p) by (apply Z.pow_pos_nonneg; lia).
    rewrite pow2_xI.
    replace (2 ^ Zpos p * (2 ^ Zpos p * 2) * d)
      with (2 ^ Zpos p * (2 ^ Zpos p * (2 * d))) by ring.
    apply IH; [lia|nia|]. apply IH; [lia|lia|].
    now apply shr_1_represents.
  - assert (0 < 2 ^ Zpos p) by (apply Z.pow_pos_nonneg; lia).
    rewrite pow2_xO.
    replace (2 ^ Zpos p * 2 ^ Zpos p * d)
      with (2 ^ Zpos p * (2 ^ Zpos p * d)) by ring.
    apply IH; [lia|nia|]. now apply IH.
  - replace (2 ^ 1 * d) with (2 * d) by reflexivity.
    now apply shr_1_represents.
Qed.

Lemma shr_represents mrs e k n d :
  0 <= n -> 0 < d -> represents mrs n d ->
  represents (fst (shr mrs e k)) n (2 ^ Z.max 0 k * d) /\
  snd (shr mrs e k) = e + Z.max 0 k.
Proof.
  intros Hn Hd Hr. destruct k as [|p|p]; simpl fst; simpl snd.
  - rewrite Z.max_l by lia. rewrite Z.pow_0_r, Z.mul_1_l. split; [exact Hr|lia].
  - rewrite Z.max_r by lia. split; [|reflexivity].
    now apply iter_pos_shr_1_represents.
  - rewrite Z.max_l by lia. rewrite Z.pow_0_r, Z.mul_1_l. split; [exact Hr|lia].
Qed.

Lemma shr_record_of_loc_represents n d :
  represents (shr_record_of_loc (n / d) (locate (n mod d) d)) n d.
Proof.
  split.
  - destruct (locate _ _) as [|[]]; reflexivity.
  - destruct (locate _ _) as [|[]]; reflexivity.
Qed.

Lemma rne_cases n d :
  0 < d ->
  (rne n d = n / d /\ 2 * (n mod d) <= d) \/
  (rne n d = n / d + 1 /\ d <= 2 * (n mod d)).
Proof.
  intros Hd. unfold rne, round_nearest_even, locate.
  pose proof (Z.mod_pos_bound n d Hd) as B.
  destruct (Z.eqb_spec (n mod d) 0) as [E|E]; [left; lia|].
  destruct (2 * (n mod d) ?= d) eqn:C;
    rewrite ?Z.compare_eq_iff, ?Z.compare_lt_iff, ?Z.compare_gt_iff in C.
  - destruct (Z.even (n / d)); [left|right]; lia.
  - left; lia.
  - right; lia.
Qed.

Lemma fexp_normal e :
  -1074 <= e - 53 -> fexp prec emax e = e - 53.
Proof. intros H. unfold fexp, emin, prec, emax. lia. Qed.

Lemma div_pow2_bounds m k D :
  0 <= k -> 2 ^ (D + k - 1) <= m < 2 ^ (D + k) -> 1 <= D ->
  2 ^ (D - 1) <= m / 2 ^ k < 2 ^ D.
Proof.
  intros Hk [Hlo Hhi] HD.
  assert (0 < 2 ^ k) by (apply Z.pow_pos_nonneg; lia).
  split.
  - apply Z.div_le_lower_bound; [assumption|].
    rewrite <- Z.pow_add_r by lia.
    replace (k + (D - 1)) with (D + k - 1) by lia. exact Hlo.
  - apply Z.div_lt_upper_bound; [assumption|].
    rewrite <- Z.pow_add_r by lia.
    replace (k + D) with (D + k) by lia. exact Hhi.
Qed.

Lemma binary_round_aux_spec sx n d ex :
  0 < d -> 0 <= n ->
  53 <= Zdigits2 (n / d) ->
  -1074 <= Zdigits2 (n / d) + ex - 53 ->
  let k := Zdigits2 (n / d) - 53 in
  let e1 := ex + k in
  let m2 := rne n (2 ^ k * d) in
  exists m3 e3,
    binary_round_aux prec emax sx (n / d) ex (locate (n mod d) d) =
    (if e3 <=? emax - prec then S754_finite sx m3 e3 else S754_infinity sx) /\
    Zpos m3 * 2 ^ (e3 - e1) = m2 /\ e1 <= e3 <= e1 + 1 /\
    2 ^ 52 <= Zpos m3 < 2 ^ 53.
Proof.
  intros Hd Hn Hdig Hnorm k e1 m2.
  assert (Hmx : 0 < n / d).
  { pose proof (Z.div_pos n d Hn Hd).
    assert (n / d <> 0) by (intros E; rewrite E in Hdig; simpl in Hdig; lia).
    lia. }
  assert (Hk : 0 <= k) by (unfold k; lia).
  assert (Hpk : 0 < 2 ^ k) by (apply Z.pow_pos_nonneg; lia).
  unfold binary_round_aux, shr_fexp.
  rewrite (fexp_normal (Zdigits2 (n / d) + ex)) by exact Hnorm.
  replace (Zdigits2 (n / d) + ex - 53 - ex) with k by (unfold k; lia).
  destruct (shr_represents (shr_record_of_loc (n / d) (locate (n mod d) d))
              ex k n d Hn Hd (shr_record_of_loc_represents n d)) as [[Hm Hl] He].
  destruct (shr _ ex k) as [mrs' e'] eqn:E1. simpl in Hm, Hl, He.
  rewrite Z.max_r in Hm, Hl, He by lia.
  rewrite Hm, Hl. fold (rne n (2 ^ k * d)). fold m2.
  subst e'. fold e1.
  (* the rounded mantissa has 53 bits, or is 2^53 *)
  assert (Hm1 : 2 ^ 52 <= n / (2 ^ k * d) < 2 ^ 53).
  { rewrite Z.mul_comm, <- Z.div_div by lia.
    apply (div_pow2_bounds (n / d) k 53); try lia.
    pose proof (Zdigits2_bounds (n / d) Hmx) as B.
    replace (53 + k - 1) with (Zdigits2 (n / d) - 1) by (unfold k; lia).
    replace (53 + k) with (Zdigits2 (n / d)) by (unfold k; lia). exact B. }
  assert (Hm2 : 2 ^ 52 <= m2 <= 2 ^ 53).
  { unfold m2. destruct (rne_cases n (2 ^ k * d) ltac:(lia)) as [[-> _]|[-> _]]; lia. }
  destruct (Z.eq_dec m2 (2 ^ 53)) as [Ecarry|Hlt].
  - (* carry: one more shift *)
    rewrite Ecarry.
    replace (Zdigits2 (2 ^ 53)) with 54 by reflexivity.
    rewrite fexp_normal by (unfold e1, k; lia).
    replace (54 + e1 - 53 - e1) with 1 by lia.
    simpl. exists (Z.to_pos (2 ^ 52)), (e1 + 1).
    split; [reflexivity|].
    replace (e1 + 1 - e1) with 1 by lia.
    split; [reflexivity|]. split; [lia|]. split; [reflexivity|reflexivity].
  - rewrite (Zdigits2_unique m2 53) by lia.
    rewrite fexp_normal by (unfold e1, k; lia).
    replace (53 + e1 - 53 - e1) with 0 by lia.
    simpl. destruct m2 as [|p|p] eqn:Ep; try lia.
    exists p, e1. split; [reflexivity|].
    replace (e1 - e1) with 0 by lia. rewrite Z.pow_0_r.
    split; [lia|]. split; [lia|]. lia.
Qed.


Lemma Zdigits2_pos z : 0 < z -> 1 <= Zdigits2 z.
Proof.
  intros Hz. rewrite Zdigits2_log2 by assumption.
  pose proof (Z.log2_nonneg z). lia.
Qed.

Lemma Zdigits2_ge z d : 0 < d -> 2 ^ (d - 1) <= z -> d <= Zdigits2 z.
Proof.
  intros Hd Hz.
  assert (0 < z) by (pose proof (Z.pow_pos_nonneg 2 (d - 1)); lia).
  destruct (Z_lt_le_dec (Zdigits2 z) d) as [Hlt|]; [|assumption].
  pose proof (Zdigits2_bounds z H) as [_ Hhi].
  assert (2 ^ Zdigits2 z <= 2 ^ (d - 1)).
  { pose proof (Zdigits2_pos z H). apply Z.pow_le_mono_r; lia. }
  lia.
Qed.

Lemma Zdigits2_le z d : 0 < z -> z < 2 ^ d -> Zdigits2 z <= d.
Proof.
  intros Hz Hhi.
  destruct (Z_lt_le_dec d (Zdigits2 z)) as [Hlt|]; [|assumption].
  pose proof (Zdigits2_bounds z Hz) as [Hlo _].
  assert (0 <= d).
  { destruct (Z_lt_le_dec d 0); [|assumption].
    rewrite Z.pow_neg_r in Hhi by assumption. lia. }
  assert (2 ^ d <= 2 ^ (Zdigits2 z - 1)) by (apply Z.pow_le_mono_r; lia).
  lia.
Qed.

(** The scaled quotient that [SFdiv] rounds has 53 or 54 bits. *)
Lemma scaled_quotient_bounds a b :
  0 < a -> 0 < b ->
  let s := 53 - Zdigits2 a + Zdigits2 b in
  0 <= s ->
  2 ^ 52 <= a * 2 ^ s / b < 2 ^ 54.
Proof.
  intros Ha Hb s Hs.
  pose proof (Zdigits2_bounds a Ha) as [Halo Hahi].
  pose proof (Zdigits2_bounds b Hb) as [Hblo Hbhi].
  pose proof (Zdigits2_pos a Ha). pose proof (Zdigits2_pos b Hb).
  assert (0 < 2 ^ s) by (apply Z.pow_pos_nonneg; lia).
  split.
  - apply Z.div_le_lower_bound; [assumption|].
    (* b * 2^52 < 2^db * 2^52 = 2^(da-1) * 2^s <= a * 2^s *)
    assert (E : 2 ^ Zdigits2 b * 2 ^ 52 = 2 ^ (Zdigits2 a - 1) * 2 ^ s).
    { rewrite <- !Z.pow_add_r by lia. f_equal. unfold s. lia. }
    nia.
  - apply Z.div_lt_upper_bound; [assumption|].
    assert (E : 2 ^ (Zdigits2 b - 1) * 2 ^ 54 = 2 ^ Zdigits2 a * 2 ^ s).
    { rewrite <- !Z.pow_add_r by lia. f_equal. unfold s. lia. }
    nia.
Qed.

Lemma round_quotient_core a b :
  0 < a -> 0 < b ->
  let s := 53 - Zdigits2 a + Zdigits2 b in
  0 <= s <= 1074 ->
  round_quotient a b =
  binary_round_aux prec emax false (a * 2 ^ s / b) (- s)
                   (locate ((a * 2 ^ s) mod b) b).
Proof.
  intros Ha Hb s Hs.
  destruct a as [|pa|pa]; try lia. destruct b as [|pb|pb]; try lia.
  unfold round_quotient, raw, fdiv, SFdiv, SFdiv_core_binary.
  rewrite !Z.add_0_r, Z.sub_diag.
  rewrite fexp_normal by (fold s in Hs; unfold s in Hs; lia).
  replace (Z.min (Zdigits2 (Zpos pa) - Zdigits2 (Zpos pb) - 53) 0)
    with (- s) by (unfold s; lia).
  replace (0 - - s) with s by lia.
  assert (Em : match s with
               | 0 => Zpos pa
               | Zpos _ => Z.shiftl (Zpos pa) s
               | Zneg _ => 0
               end = Zpos pa * 2 ^ s).
  { destruct s as [|p|p] eqn:Es; try lia.
    - rewrite Z.shiftl_mul_pow2 by lia. reflexivity. }
  rewrite Em.
  pose proof (Z.mod_pos_bound (Zpos pa * 2 ^ s) (Zpos pb) ltac:(lia)) as B.
  unfold Z.div, Z.modulo in *.
  destruct (Z.div_eucl (Zpos pa * 2 ^ s) (Zpos pb)) as [q r].
  rewrite new_location_locate by lia. reflexivity.
Qed.

Lemma round_quotient_spec a b :
  0 < a -> 0 < b ->
  let s := 53 - Zdigits2 a + Zdigits2 b in
  0 <= s <= 1000 ->
  let k := Zdigits2 (a * 2 ^ s / b) - 53 in
  let e1 := k - s in
  exists m3 e3,
    round_quotient a b = S754_finite false m3 e3 /\
    Zpos m3 * 2 ^ (e3 - e1) = rne (a * 2 ^ s) (2 ^ k * b) /\
    e1 <= e3 <= e1 + 1 /\ 2 ^ 52 <= Zpos m3 < 2 ^ 53 /\ 0 <= k <= 1.
Proof.
  intros Ha Hb s Hs k e1.
  assert (0 < 2 ^ s) by (apply Z.pow_pos_nonneg; lia).
  pose proof (scaled_quotient_bounds a b Ha Hb ltac:(fold s; lia)) as Hq.
  fold s in Hq.
  assert (Hq0 : 0 < a * 2 ^ s / b) by lia.
  assert (Hk : 0 <= k <= 1).
  { unfold k. split.
    - pose proof (Zdigits2_ge (a * 2 ^ s / b) 53 ltac:(lia) ltac:(lia)). lia.
    - pose proof (Zdigits2_le (a * 2 ^ s / b) 54 Hq0 ltac:(lia)). lia. }
  rewrite round_quotient_core by (try assumption; fold s; lia). fold s.
  assert (Hk' := Hk). unfold k in Hk'.
  destruct (binary_round_aux_spec false (a * 2 ^ s) b (- s))
    as (m3 & e3 & E & Hv & He & Hm); try lia.
  fold k in E, Hv, He. replace (- s + k) with e1 in * by (unfold e1; lia).
  exists m3, e3.
  replace (e3 <=? emax - prec) with true in E
    by (symmetry; apply Z.leb_le; unfold emax, prec, e1 in *; lia).
  repeat split; try assumption; try lia.
Qed.

Lemma succ_div_cases m T :
  0 <= m -> 0 < T ->
  (m + 1) / T = m / T \/ m + 1 = T * (m / T + 1).
Proof.
  intros Hm HT.
  pose proof (Z.div_mod m T ltac:(lia)) as E.
  pose proof (Z.mod_pos_bound m T HT) as B.
  destruct (Z.eq_dec (m mod T) (T - 1)) as [Eq|Ne].
  - right. lia.
  - left. symmetry. apply (Z.div_unique_pos _ _ _ (m mod T + 1)); lia.
Qed.

(** [int(a / b)] is the integer quotient when [a] fits in 53 bits. *)
Lemma round_quotient_floor a b :
  0 < a < 2 ^ 53 -> 0 < b < 2 ^ 900 ->
  int_of_float (round_quotient a b) = Ret (a / b).
Proof.
  intros [Ha Ha53] [Hb Hb900].
  pose proof (Zdigits2_le a 53 Ha Ha53) as Hda.
  pose proof (Zdigits2_le b 900 Hb Hb900) as Hdb.
  pose proof (Zdigits2_pos a Ha) as Hda1.
  pose proof (Zdigits2_pos b Hb) as Hdb1.
  pose proof (Zdigits2_bounds b Hb) as [_ Hbhi].
  set (s := 53 - Zdigits2 a + Zdigits2 b).
  assert (Hs : 1 <= s <= 1000) by (unfold s; lia).
  destruct (round_quotient_spec a b Ha Hb ltac:(fold s; lia))
    as (m3 & e3 & E & Hv & He & Hm & Hk).
  fold s in Hv, He, Hk.
  set (k := Zdigits2 (a * 2 ^ s / b) - 53) in *.
  set (T := 2 ^ (s - k)).
  assert (HT : 0 < T) by (apply Z.pow_pos_nonneg; lia).
  assert (H2s : 0 < 2 ^ s) by (apply Z.pow_pos_nonneg; lia).
  assert (H2k : 0 < 2 ^ k) by (apply Z.pow_pos_nonneg; lia).
  assert (EDT : 2 ^ k * b * T = b * 2 ^ s).
  { unfold T. replace (2 ^ s) with (2 ^ k * 2 ^ (s - k)).
    - ring.
    - rewrite <- Z.pow_add_r by lia. f_equal. lia. }
  set (N := a * 2 ^ s) in *. set (D1 := 2 ^ k * b) in *.
  assert (HD1 : 0 < D1) by (unfold D1; nia).
  (* the quotient before rounding *)
  assert (E1 : N / D1 / T = a / b).
  { rewrite Z.div_div by lia. rewrite EDT. unfold N.
    apply Z.div_mul_cancel_r; lia. }
  (* rounding does not reach the next integer *)
  assert (E2 : rne N D1 / T = a / b).
  { destruct (rne_cases N D1 HD1) as [[-> _]|[-> Hup]]; [exact E1|].
    assert (Hm1 : 0 <= N / D1) by (apply Z.div_pos; unfold N; nia).
    destruct (succ_div_cases (N / D1) T Hm1 HT) as [->|Ebad]; [exact E1|].
    exfalso. rewrite E1 in Ebad.
    pose proof (Z.div_mod N D1 ltac:(lia)) as EN.
    pose proof (Z.mod_pos_bound N D1 HD1) as BN.
    (* N < (N/D1 + 1) * D1 = (a/b + 1) * b * 2^s *)
    assert (Hlt : a * 2 ^ s < (a / b + 1) * (b * 2 ^ s)).
    { rewrite <- EDT. fold D1. fold N. nia. }
    assert (Hab : a + 1 <= (a / b + 1) * b) by nia.
    assert (Hgap : 2 ^ s <= D1 - N mod D1).
    { assert ((a + 1) * 2 ^ s <= (a / b + 1) * (b * 2 ^ s)) by nia.
      assert ((N / D1 + 1) * D1 = (a / b + 1) * (b * 2 ^ s)).
      { rewrite <- EDT. fold D1. nia. }
      unfold N in *. nia. }
    assert (Hbig : 2 ^ (s + 1) <= D1).
    { rewrite Z.pow_add_r by lia. lia. }
    assert (Hsmall : D1 < 2 ^ (k + Zdigits2 b)).
    { rewrite Z.pow_add_r by lia. unfold D1. nia. }
    assert (s + 1 < k + Zdigits2 b).
    { apply (Z.pow_lt_mono_r_iff 2); lia. }
    unfold s in *. lia. }
  rewrite E. simpl int_of_float. f_equal.
  rewrite <- E2, <- Hv.
  destruct (Z.eq_dec e3 (k - s)) as [->|Hne].
  - replace (k - s - (k - s)) with 0 by lia. rewrite Z.pow_0_r, Z.mul_1_r.
    rewrite Z.shiftl_div_pow2 by lia.
    unfold T. do 2 f_equal. lia.
  - assert (e3 = k - s + 1) by lia. subst e3.
    replace (k - s + 1 - (k - s)) with 1 by lia.
    replace (2 ^ 1) with 2 by reflexivity.
    (* the mantissa 2^53 only arises below 2^53 when T >= 2 *)
    assert (HT2 : 2 <= T).
    { destruct (Z.eq_dec T 1) as [ET|]; [|lia].
      rewrite <- Hv in E2. replace (k - s + 1 - (k - s)) with 1 in E2 by lia.
      rewrite ET, Z.div_1_r in E2. replace (2 ^ 1) with 2 in E2 by reflexivity.
      assert (a / b <= a).
      { apply Z.div_le_upper_bound; nia. }
      lia. }
    assert (Hsk : 1 <= s - k).
    { destruct (Z.eq_dec (s - k) 0) as [E0|]; [|lia].
      unfold T in HT2. rewrite E0 in HT2. simpl in HT2. lia. }
    rewrite Z.shiftl_div_pow2 by lia.
    unfold T. replace (s - k) with (1 + (s - k - 1)) by lia.
    rewrite Z.pow_add_r by lia. replace (2 ^ 1) with 2 by reflexivity.
    rewrite (Z.mul_comm (Zpos m3) 2).
    pose proof (Z.pow_pos_nonneg 2 (s - k - 1)).
    rewrite Z.div_mul_cancel_l by lia.
    do 2 f_equal. lia.
Qed.

Lemma rne_exact n d : 0 < d -> n mod d = 0 -> rne n d = n / d.
Proof.
  intros Hd E. unfold rne, locate. rewrite E. reflexivity.
Qed.

(** A mantissa whose low bits are zero is rounded without change. *)
Lemma binary_round_aux_exact mx ex :
  53 <= Zdigits2 mx -> 0 < mx ->
  -1074 <= Zdigits2 mx + ex - 53 ->
  let k := Zdigits2 mx - 53 in
  mx mod 2 ^ k = 0 ->
  ex + k <= 971 ->
  binary_round_aux prec emax false mx ex loc_Exact =
  S754_finite false (Z.to_pos (mx / 2 ^ k)) (ex + k) /\
  2 ^ 52 <= mx / 2 ^ k < 2 ^ 53.
Proof.
  intros Hdig Hmx Hnorm k Hmod Hex.
  assert (Hk : 0 <= k) by (unfold k; lia).
  assert (H2k : 0 < 2 ^ k) by (apply Z.pow_pos_nonneg; lia).
  pose proof (binary_round_aux_spec false mx 1 ex ltac:(lia) ltac:(lia)) as S.
  rewrite Z.div_1_r, Z.mod_1_r in S.
  specialize (S Hdig Hnorm). cbv zeta in S. fold k in S.
  rewrite Z.mul_1_r in S.
  destruct S as (m3 & e3 & E & Hv & He & Hm).
  change (locate 0 1) with loc_Exact in E.
  rewrite rne_exact in Hv by assumption.
  assert (Hb : 2 ^ 52 <= mx / 2 ^ k < 2 ^ 53).
  { apply (div_pow2_bounds mx k 53); try lia.
    pose proof (Zdigits2_bounds mx Hmx) as B.
    replace (53 + k - 1) with (Zdigits2 mx - 1) by (unfold k; lia).
    replace (53 + k) with (Zdigits2 mx) by (unfold k; lia). exact B. }
  split; [|exact Hb].
  assert (e3 = ex + k).
  { destruct (Z.eq_dec e3 (ex + k)) as [|Hne]; [assumption|].
    assert (e3 = ex + k + 1) by lia. subst e3.
    replace (ex + k + 1 - (ex + k)) with 1 in Hv by lia.
    change (2 ^ 1) with 2 in Hv. lia. }
  subst e3. replace (ex + k - (ex + k)) with 0 in Hv by lia.
  rewrite Z.pow_0_r, Z.mul_1_r in Hv.
  rewrite E. replace (ex + k <=? emax - prec) with true
    by (symmetry; apply Z.leb_le; unfold emax, prec; lia).
  rewrite <- Hv. rewrite Pos2Z.id. reflexivity.
Qed.

Lemma pos_iter_xO p d : Zpos (Pos.iter xO p d) = Zpos p * 2 ^ Zpos d.
Proof.
  revert p. induction d as [d IH|d IH|]; intros p; simpl.
  - rewrite Pos2Z.inj_xO, !IH, pow2_xI. ring.
  - rewrite !IH, pow2_xO. ring.
  - rewrite Pos2Z.inj_xO. change (2 ^ 1) with 2. ring.
Qed.

Lemma digits_mul_pow2 A j :
  0 < A -> 0 <= j -> Zdigits2 (A * 2 ^ j) = Zdigits2 A + j.
Proof.
  intros HA Hj.
  assert (0 < 2 ^ j) by (apply Z.pow_pos_nonneg; lia).
  rewrite !Zdigits2_log2 by nia.
  rewrite Z.log2_mul_pow2 by lia. lia.
Qed.

(** [binary_round] on a mantissa whose value fits in 53 bits. *)
Lemma binary_round_fl p ex A j :
  0 < A < 2 ^ 53 -> 0 <= j -> Zpos p = A * 2 ^ j ->
  -1074 <= Zdigits2 A + j + ex - 53 -> ex + j + Zdigits2 A - 53 <= 971 ->
  binary_round prec emax false p ex = fl A (ex + j).
Proof.
  intros [HA HA53] Hj Ep Hnorm Hmax.
  pose proof (Zdigits2_le A 53 HA HA53) as HdA.
  pose proof (Zdigits2_pos A HA) as HdA1.
  assert (H2j : 0 < 2 ^ j) by (apply Z.pow_pos_nonneg; lia).
  assert (Hdp : Zdigits2 (Zpos p) = Zdigits2 A + j).
  { rewrite Ep. now apply digits_mul_pow2. }
  unfold binary_round.
  change (Zpos (digits2_pos p)) with (Zdigits2 (Zpos p)).
  rewrite Hdp, fexp_normal by lia.
  unfold shl_align.
  destruct (Zdigits2 A + j + ex - 53 - ex) as [|q|q] eqn:Esh.
  - (* already 53 bits *)
    destruct (binary_round_aux_exact (Zpos p) ex) as [E _]; try lia.
    { rewrite Hdp. replace (Zdigits2 A + j - 53) with 0 by lia.
      rewrite Z.pow_0_r. apply Z.mod_1_r. }
    rewrite E, Hdp. unfold fl.
    replace (Zdigits2 A + j - 53) with 0 by lia.
    rewrite Z.pow_0_r, Z.div_1_r, Pos2Z.id.
    replace (53 - Zdigits2 A) with j by lia. rewrite <- Ep, Pos2Z.id.
    f_equal. lia.
  - (* more than 53 bits: the low ones are zero *)
    assert (Hkj : Zdigits2 A + j - 53 <= j) by lia.
    assert (Esplit : Zpos p = A * 2 ^ (53 - Zdigits2 A)
                              * 2 ^ (Zdigits2 A + j - 53)).
    { rewrite Ep, <- Z.mul_assoc, <- Z.pow_add_r by lia. do 2 f_equal. lia. }
    destruct (binary_round_aux_exact (Zpos p) ex) as [E _]; try lia.
    { rewrite Hdp. rewrite Esplit. apply Z.mod_mul.
      pose proof (Z.pow_pos_nonneg 2 (Zdigits2 A + j - 53)); lia. }
    rewrite E, Hdp. unfold fl. f_equal; [|lia].
    f_equal. rewrite Esplit at 1. apply Z.div_mul.
    pose proof (Z.pow_pos_nonneg 2 (Zdigits2 A + j - 53)); lia.
  - (* fewer than 53 bits: shifted left first *)
    assert (Eq : Zpos q = 53 - Zdigits2 A - j) by lia.
    assert (Emz : Zpos (Pos.iter xO p q) = A * 2 ^ (53 - Zdigits2 A)).
    { rewrite pos_iter_xO, Ep, Eq, <- Z.mul_assoc, <- Z.pow_add_r by lia.
      do 2 f_equal. lia. }
    assert (Hdz : Zdigits2 (Zpos (Pos.iter xO p q)) = 53).
    { rewrite Emz, digits_mul_pow2 by lia. lia. }
    destruct (binary_round_aux_exact (Zpos (Pos.iter xO p q))
                (Zdigits2 A + j + ex - 53)) as [E _]; try lia.
    { rewrite Hdz. replace (53 - 53) with 0 by lia.
      rewrite Z.pow_0_r. apply Z.mod_1_r. }
    rewrite E, Hdz. unfold fl.
    replace (53 - 53) with 0 by lia.
    rewrite Z.pow_0_r, Z.div_1_r, Pos2Z.id.
    rewrite <- Emz, Pos2Z.id. f_equal. lia.
Qed.

Lemma fl_mantissa A :
  0 < A < 2 ^ 53 ->
  Zpos (Z.to_pos (A * 2 ^ (53 - Zdigits2 A))) = A * 2 ^ (53 - Zdigits2 A) /\
  Zdigits2 (A * 2 ^ (53 - Zdigits2 A)) = 53.
Proof.
  intros [HA HA53].
  pose proof (Zdigits2_le A 53 HA HA53).
  assert (0 < 2 ^ (53 - Zdigits2 A)) by (apply Z.pow_pos_nonneg; lia).
  split.
  - apply Z2Pos.id. nia.
  - rewrite digits_mul_pow2 by lia. lia.
Qed.

Lemma float_of_int_fl v :
  0 < v < 2 ^ 53 -> float_of_int v = Ret (fl v 0).
Proof.
  intros Hv. pose proof (Zdigits2_pos v ltac:(lia)).
  pose proof (Zdigits2_le v 53 ltac:(lia) ltac:(lia)).
  unfold float_of_int. destruct v as [|p|p]; try lia.
  unfold binary_normalize.
  rewrite (binary_round_fl p 0 (Zpos p) 0); try lia.
  reflexivity.
Qed.

Lemma f100_fl : f100 = fl 100 0.
Proof. reflexivity. Qed.

Lemma fl_double A t : 0 < A -> 2 * A < 2 ^ 53 -> fl (2 * A) (t - 1) = fl A t.
Proof.
  intros HA HA53. unfold fl.
  pose proof (Zdigits2_le (2 * A) 53 ltac:(lia) HA53) as Hd.
  replace (2 * A) with (A * 2 ^ 1) in * by (change (2 ^ 1) with 2; lia).
  rewrite digits_mul_pow2 in * by lia.
  f_equal; [|lia]. f_equal.
  rewrite <- Z.mul_assoc, <- Z.pow_add_r by lia. do 2 f_equal. lia.
Qed.

Lemma fsub_half c :
  1 <= c -> 2 * c - 1 < 2 ^ 53 ->
  fsub (fl c 0) f0_5 = fl (2 * c - 1) (-1).
Proof.
  intros Hc Hc53.
  pose proof (Zdigits2_pos c ltac:(lia)) as Hd1.
  pose proof (Zdigits2_le c 53 ltac:(lia) ltac:(lia)) as Hd53.
  destruct (fl_mantissa c ltac:(lia)) as [Em _].
  change f0_5 with (S754_finite false 4503599627370496 (-53)).
  unfold fsub, SFsub, fl at 1.
  replace (Z.min (0 + Zdigits2 c - 53) (-53)) with (-53) by lia.
  unfold shl_align at 2. change (-53 - -53) with 0. cbv iota. simpl fst.
  unfold shl_align.
  destruct (-53 - (0 + Zdigits2 c - 53)) as [|q|q] eqn:Esh; try lia.
  simpl fst. unfold cond_Zopp.
  rewrite pos_iter_xO, Em.
  assert (Eq : Zpos q = Zdigits2 c) by lia.
  assert (EM : c * 2 ^ (53 - Zdigits2 c) * 2 ^ Zpos q - 4503599627370496
               = (2 * c - 1) * 2 ^ 52).
  { rewrite Eq, <- Z.mul_assoc, <- Z.pow_add_r by lia.
    replace (53 - Zdigits2 c + Zdigits2 c) with 53 by lia.
    change (2 ^ 53) with (2 * 2 ^ 52). change 4503599627370496 with (2 ^ 52).
    ring. }
  rewrite EM.
  assert (Hpos : 0 < (2 * c - 1) * 2 ^ 52) by (change (2 ^ 52) with 4503599627370496; lia).
  destruct ((2 * c - 1) * 2 ^ 52) as [|M|M] eqn:EMM; try lia.
  unfold binary_normalize.
  rewrite (binary_round_fl M (-53) (2 * c - 1) 52); try lia.
  - reflexivity.
  - pose proof (Zdigits2_pos (2 * c - 1) ltac:(lia)). lia.
  - pose proof (Zdigits2_le (2 * c - 1) 53 ltac:(lia) ltac:(lia)). lia.
Qed.

Lemma digits_mul_ge A B :
  0 < A -> 0 < B -> Zdigits2 A + Zdigits2 B - 1 <= Zdigits2 (A * B).
Proof.
  intros HA HB.
  pose proof (Zdigits2_bounds A HA) as [HAlo _].
  pose proof (Zdigits2_bounds B HB) as [HBlo _].
  pose proof (Zdigits2_pos A HA). pose proof (Zdigits2_pos B HB).
  apply Zdigits2_ge; [lia|].
  replace (Zdigits2 A + Zdigits2 B - 1 - 1)
    with ((Zdigits2 A - 1) + (Zdigits2 B - 1)) by lia.
  rewrite Z.pow_add_r by lia.
  assert (0 < 2 ^ (Zdigits2 A - 1)) by (apply Z.pow_pos_nonneg; lia).
  assert (0 < 2 ^ (Zdigits2 B - 1)) by (apply Z.pow_pos_nonneg; lia).
  nia.
Qed.

Lemma fmul_fl A s B t :
  0 < A -> 0 < B -> A * B < 2 ^ 53 ->
  -1000 <= s + t <= 900 ->
  fmul (fl A s) (fl B t) = fl (A * B) (s + t).
Proof.
  intros HA HB HAB Hst.
  assert (HA53 : A < 2 ^ 53) by nia.
  assert (HB53 : B < 2 ^ 53) by nia.
  pose proof (Zdigits2_pos A HA) as HdA1.
  pose proof (Zdigits2_pos B HB) as HdB1.
  pose proof (Zdigits2_le A 53 HA HA53) as HdA.
  pose proof (Zdigits2_le B 53 HB HB53) as HdB.
  pose proof (Zdigits2_le (A * B) 53 ltac:(nia) HAB) as HdAB.
  pose proof (digits_mul_ge A B HA HB) as HdAB'.
  destruct (fl_mantissa A ltac:(lia)) as [EmA _].
  destruct (fl_mantissa B ltac:(lia)) as [EmB _].
  remember (fl (A * B) (s + t)) as R eqn:ER.
  unfold fmul, SFmul, fl. simpl xorb. subst R.
  rewrite Pos2Z.inj_mul, EmA, EmB.
  set (j := 106 - Zdigits2 A - Zdigits2 B).
  assert (EP : A * 2 ^ (53 - Zdigits2 A) * (B * 2 ^ (53 - Zdigits2 B))
               = A * B * 2 ^ j).
  { unfold j. replace (106 - Zdigits2 A - Zdigits2 B)
      with ((53 - Zdigits2 A) + (53 - Zdigits2 B)) by lia.
    rewrite Z.pow_add_r by lia. ring. }
  rewrite EP.
  assert (Hj : 0 <= j) by (unfold j; lia).
  assert (Hdig : Zdigits2 (A * B * 2 ^ j) = Zdigits2 (A * B) + j).
  { apply digits_mul_pow2; [nia|lia]. }
  assert (H2j : 0 < 2 ^ j) by (apply Z.pow_pos_nonneg; lia).
  set (k := Zdigits2 (A * B) + j - 53).
  assert (Hk : 0 <= k <= j) by (unfold k, j; lia).
  assert (Esplit : A * B * 2 ^ j = A * B * 2 ^ (j - k) * 2 ^ k).
  { replace (2 ^ j) with (2 ^ (j - k) * 2 ^ k).
    - ring.
    - rewrite <- Z.pow_add_r by lia. f_equal. lia. }
  assert (H2k : 0 < 2 ^ k) by (apply Z.pow_pos_nonneg; lia).
  assert (Hmod : (A * B * 2 ^ j) mod 2 ^ (Zdigits2 (A * B * 2 ^ j) - 53) = 0).
  { rewrite Hdig. fold k. rewrite Esplit. apply Z.mod_mul. lia. }
  assert (H1 : 53 <= Zdigits2 (A * B * 2 ^ j)) by (rewrite Hdig; unfold j; lia).
  assert (H2 : 0 < A * B * 2 ^ j)
    by (apply Z.mul_pos_pos; [apply Z.mul_pos_pos|]; assumption).
  assert (H3 : -1074 <= Zdigits2 (A * B * 2 ^ j)
                        + (s + Zdigits2 A - 53 + (t + Zdigits2 B - 53)) - 53)
    by (rewrite Hdig; unfold j; lia).
  assert (H4 : s + Zdigits2 A - 53 + (t + Zdigits2 B - 53)
               + (Zdigits2 (A * B * 2 ^ j) - 53) <= 971)
    by (rewrite Hdig; unfold j; lia).
  destruct (binary_round_aux_exact (A * B * 2 ^ j)
              (s + Zdigits2 A - 53 + (t + Zdigits2 B - 53))
              H1 H2 H3 Hmod H4) as [E _].
  rewrite E, Hdig. fold k. unfold fl. f_equal.
  - f_equal. rewrite Esplit at 1. rewrite Z.div_mul by lia.
    do 2 f_equal. unfold k. lia.
  - unfold k, j. lia.
Qed.

Lemma locate_scale r d F : 0 < F -> locate (r * F) (d * F) = locate r d.
Proof.
  intros HF. unfold locate.
  destruct (Z.eqb_spec r 0) as [->|Hr].
  - reflexivity.
  - destruct (Z.eqb_spec (r * F) 0) as [E|_]; [nia|].
    f_equal. destruct (2 * r ?= d) eqn:C;
      rewrite ?Z.compare_eq_iff, ?Z.compare_lt_iff, ?Z.compare_gt_iff in *; nia.
Qed.

(** Dividing the canonical floats of two integers rounds their quotient. *)
Lemma fdiv_fl A B :
  0 < A < 2 ^ 53 -> 0 < B < 2 ^ 53 ->
  fdiv (fl A 0) (fl B 0) = round_quotient A B.
Proof.
  intros [HA HA53] [HB HB53].
  pose proof (Zdigits2_pos A HA) as HdA1.
  pose proof (Zdigits2_pos B HB) as HdB1.
  pose proof (Zdigits2_le A 53 HA HA53) as HdA.
  pose proof (Zdigits2_le B 53 HB HB53) as HdB.
  destruct (fl_mantissa A ltac:(lia)) as [EmA EdA].
  destruct (fl_mantissa B ltac:(lia)) as [EmB EdB].
  set (s := 53 - Zdigits2 A + Zdigits2 B).
  rewrite round_quotient_core by (try assumption; fold s; lia). fold s.
  unfold fdiv, SFdiv, fl, SFdiv_core_binary. simpl xorb.
  rewrite EmA, EmB, EdA, EdB.
  replace (53 + (0 + Zdigits2 A - 53) - (53 + (0 + Zdigits2 B - 53)))
    with (Zdigits2 A - Zdigits2 B) by lia.
  rewrite fexp_normal by lia.
  replace (Z.min (Zdigits2 A - Zdigits2 B - 53)
                 (0 + Zdigits2 A - 53 - (0 + Zdigits2 B - 53)))
    with (- s) by (unfold s; lia).
  replace (0 + Zdigits2 A - 53 - (0 + Zdigits2 B - 53) - - s) with 53
    by (unfold s; lia).
  cbv iota. rewrite Z.shiftl_mul_pow2 by lia.
  set (F := 2 ^ (53 - Zdigits2 B)).
  assert (HF : 0 < F) by (apply Z.pow_pos_nonneg; lia).
  assert (EN : A * 2 ^ (53 - Zdigits2 A) * 2 ^ 53 = A * 2 ^ s * F).
  { unfold F, s. rewrite <- !Z.mul_assoc, <- !Z.pow_add_r by lia.
    do 2 f_equal. lia. }
  rewrite EN.
  assert (H2s : 0 < 2 ^ s) by (apply Z.pow_pos_nonneg; unfold s; lia).
  pose proof (Z.mod_pos_bound (A * 2 ^ s * F) (B * F) ltac:(nia)) as Bnd.
  assert (Eq : A * 2 ^ s * F / (B * F) = A * 2 ^ s / B)
    by (apply Z.div_mul_cancel_r; lia).
  assert (Er : (A * 2 ^ s * F) mod (B * F) = (A * 2 ^ s) mod B * F)
    by (apply Z.mul_mod_distr_r; lia).
  unfold Z.div, Z.modulo in Eq, Er, Bnd.
  destruct (Z.div_eucl (A * 2 ^ s * F) (B * F)) as [q r].
  rewrite new_location_locate by nia.
  subst q r. rewrite locate_scale by assumption. reflexivity.
Qed.

(** [int((current - 0.5) * 100 / total)] in closed form. *)
Lemma percent_before_floor c n :
  1 <= c -> (2 * c - 1) * 100 < 2 ^ 53 -> 0 < n < 2 ^ 53 ->
  Scanner.percent_before c n = Ret ((2 * c - 1) * 50 / n).
Proof.
  intros Hc Hc53 Hn. unfold Scanner.percent_before.
  rewrite (float_of_int_fl c) by lia. rewrite (float_of_int_fl n) by lia.
  unfold bind.
  replace (n =? 0) with false by (symmetry; apply Z.eqb_neq; lia).
  rewrite fsub_half by lia.
  rewrite f100_fl, fmul_fl by lia.
  replace ((2 * c - 1) * 100) with (2 * ((2 * c - 1) * 50)) by ring.
  change (-1 + 0) with (0 - 1).
  rewrite fl_double by lia.
  rewrite fdiv_fl by lia.
  apply round_quotient_floor; [lia|].
  change (2 ^ 900) with (2 ^ 53 * 2 ^ 847).
  change (2 ^ 847) with (Zpos (2 ^ 847)). lia.
Qed.

Lemma int_truediv_floor a b :
  0 < a < 2 ^ 53 -> 0 < b < 2 ^ 53 ->
  bind (int_truediv a b) int_of_float = Ret (a / b).
Proof.
  intros Ha Hb.
  assert (Hb900 : b < 2 ^ 900).
  { change (2 ^ 900) with (2 ^ 53 * 2 ^ 847).
    change (2 ^ 847) with (Zpos (2 ^ 847)). lia. }
  pose proof (round_quotient_floor a b Ha ltac:(lia)) as E.
  unfold int_truediv.
  replace (b =? 0) with false by (symmetry; apply Z.eqb_neq; lia).
  destruct (round_quotient a b); simpl in *; try discriminate; exact E.
Qed.

(** [int(current * 100 / total)] in closed form. *)
Lemma percent_after_floor c n :
  1 <= c -> c * 100 < 2 ^ 53 -> 0 < n < 2 ^ 53 ->
  Scanner.percent_after c n = Ret (c * 100 / n).
Proof.
  intros Hc Hc53 Hn. unfold Scanner.percent_after.
  apply int_truediv_floor; lia.
Qed.

(** [rne] stays below a bound that the quotient does not exceed. *)
Lemma rne_le_bound n d U :
  0 <= n -> 0 < d -> n <= U * d -> rne n d <= U.
Proof.
  intros Hn Hd HU.
  pose proof (Z.div_mod n d ltac:(lia)) as E.
  pose proof (Z.mod_pos_bound n d Hd) as B.
  destruct (rne_cases n d Hd) as [[-> _]|[-> Hup]].
  - apply Z.div_le_upper_bound; [assumption|]. lia.
  - destruct (Z.eq_dec (n mod d) 0) as [E0|E0]; [lia|].
    assert (n / d < U) by nia. lia.
Qed.

(** A quotient of at most 1 is rounded to a float of at most 1. *)
Lemma round_quotient_le_1 c n :
  1 <= c <= n -> n < 2 ^ 900 ->
  exists m3 e3,
    round_quotient c n = S754_finite false m3 e3 /\
    2 ^ 52 <= Zpos m3 < 2 ^ 53 /\ -960 <= e3 <= -51 /\
    Zpos m3 <= 2 ^ (- e3).
Proof.
  intros [Hc Hcn] Hn.
  assert (Hc0 : 0 < c) by lia. assert (Hn0 : 0 < n) by lia.
  pose proof (Zdigits2_pos c Hc0) as Hdc1.
  pose proof (Zdigits2_bounds n Hn0) as [_ Hnhi].
  pose proof (Zdigits2_le c (Zdigits2 n) Hc0 ltac:(lia)) as Hdcn.
  pose proof (Zdigits2_le n 900 Hn0 Hn) as Hdn.
  set (s := 53 - Zdigits2 c + Zdigits2 n).
  assert (Hs : 53 <= s <= 952) by (unfold s; lia).
  destruct (round_quotient_spec c n Hc0 Hn0 ltac:(fold s; lia))
    as (m3 & e3 & E & Hv & He & Hm & Hk).
  fold s in Hv, He, Hk.
  set (k := Zdigits2 (c * 2 ^ s / n) - 53) in *.
  exists m3, e3. split; [exact E|]. split; [exact Hm|]. split; [lia|].
  set (T := 2 ^ (s - k)).
  assert (HT : 0 < T) by (apply Z.pow_pos_nonneg; lia).
  assert (H2s : 0 < 2 ^ s) by (apply Z.pow_pos_nonneg; lia).
  assert (H2k : 0 < 2 ^ k) by (apply Z.pow_pos_nonneg; lia).
  assert (EDT : T * (2 ^ k * n) = n * 2 ^ s).
  { unfold T. replace (2 ^ s) with (2 ^ (s - k) * 2 ^ k).
    - ring.
    - rewrite <- Z.pow_add_r by lia. f_equal. lia. }
  assert (Hm2 : rne (c * 2 ^ s) (2 ^ k * n) <= T).
  { apply rne_le_bound; try nia. }
  rewrite <- Hv in Hm2.
  destruct (Z.eq_dec e3 (k - s)) as [->|Hne].
  - replace (k - s - (k - s)) with 0 in Hm2 by lia.
    rewrite Z.pow_0_r, Z.mul_1_r in Hm2.
    replace (- (k - s)) with (s - k) by lia. exact Hm2.
  - assert (e3 = k - s + 1) by lia. subst e3.
    replace (k - s + 1 - (k - s)) with 1 in Hm2 by lia.
    change (2 ^ 1) with 2 in Hm2.
    unfold T in Hm2. replace (s - k) with (1 + (- (k - s + 1))) in Hm2 by lia.
    rewrite Z.pow_add_r in Hm2 by lia. change (2 ^ 1) with 2 in Hm2. lia.
Qed.

(** A float of at most 1, times 100, truncates into [0, 100]. *)
Lemma times_100_bounds m3 e3 :
  2 ^ 52 <= Zpos m3 < 2 ^ 53 -> -960 <= e3 <= -51 ->
  Zpos m3 <= 2 ^ (- e3) ->
  exists p, int_of_float (fmul (S754_finite false m3 e3) f100) = Ret p /\
            0 <= p <= 100.
Proof.
  intros Hm He Hle.
  change f100 with (S754_finite false 7036874417766400 (-46)).
  unfold fmul, SFmul. simpl xorb. rewrite Pos2Z.inj_mul.
  set (P := Zpos m3 * 7036874417766400).
  assert (HP : 2 ^ 104 <= P < 2 ^ 106).
  { unfold P. change (2 ^ 104) with (2 ^ 52 * 2 ^ 52).
    change (2 ^ 106) with (2 ^ 53 * 2 ^ 53).
    change (2 ^ 52) with 4503599627370496 in *.
    change (2 ^ 53) with 9007199254740992 in *. nia. }
  assert (HP0 : 0 < P) by (change (2 ^ 104) with (Zpos (2 ^ 104)) in HP; lia).
  pose proof (Zdigits2_ge P 105 ltac:(lia) ltac:(change (105 - 1) with 104; lia))
    as Hd1.
  pose proof (Zdigits2_le P 106 HP0 ltac:(lia)) as Hd2.
  pose proof (binary_round_aux_spec false P 1 (e3 + -46) ltac:(lia) ltac:(lia))
    as S.
  rewrite Z.div_1_r, Z.mod_1_r in S.
  specialize (S ltac:(lia) ltac:(lia)). cbv zeta in S.
  change (locate 0 1) with loc_Exact in S. rewrite Z.mul_1_r in S.
  set (k := Zdigits2 P - 53) in *.
  destruct S as (m & e & E & Hv & Hee & Hmm).
  replace (e <=? emax - prec) with true in E
    by (symmetry; apply Z.leb_le; unfold emax, prec; lia).
  rewrite E. simpl int_of_float.
  exists (Z.shiftl (Zpos m) e). split; [reflexivity|].
  rewrite Z.shiftl_div_pow2 by lia.
  assert (H2e : 0 < 2 ^ (- e)) by (apply Z.pow_pos_nonneg; lia).
  split; [apply Z.div_pos; lia|].
  (* the rounded mantissa is at most 100 * 2^(-e1) *)
  set (e1 := e3 + -46 + k) in *.
  assert (H2k : 0 < 2 ^ k) by (apply Z.pow_pos_nonneg; lia).
  assert (EU : 100 * 2 ^ (- e1) * 2 ^ k = 2 ^ (- e3) * 7036874417766400).
  { change 7036874417766400 with (100 * 2 ^ 46).
    replace (- e3) with (- e1 + k - 46) by (unfold e1; lia).
    rewrite !Z.pow_sub_r, !Z.pow_add_r by lia.
    replace (100 * 2 ^ (- e1) * 2 ^ k) with (100 * (2 ^ (- e1) * 2 ^ k)) by ring.
    rewrite <- Z.pow_add_r by lia.
    change (2 ^ 46) with 70368744177664.
    assert (D : (2 ^ (- e1 + k)) mod 70368744177664 = 0).
    { replace (- e1 + k) with (46 + (- e1 + k - 46)) by lia.
      rewrite Z.pow_add_r by lia. change (2 ^ 46) with 70368744177664.
      rewrite Z.mul_comm. apply Z.mod_mul. lia. }
    pose proof (Z.div_mod (2 ^ (- e1 + k)) 70368744177664 ltac:(lia)). lia. }
  assert (Hm2 : rne P (2 ^ k) <= 100 * 2 ^ (- e1)).
  { apply rne_le_bound; lia. }
  rewrite <- Hv in Hm2.
  apply Z.div_le_upper_bound; [assumption|].
  destruct (Z.eq_dec e e1) as [->|Hne].
  - replace (e1 - e1) with 0 in Hm2 by lia.
    rewrite Z.pow_0_r in Hm2. lia.
  - assert (e = e1 + 1) by lia. subst e.
    replace (e1 + 1 - e1) with 1 in Hm2 by lia. change (2 ^ 1) with 2 in Hm2.
    replace (- e1) with (1 + - (e1 + 1)) in Hm2 by lia.
    rewrite Z.pow_add_r in Hm2 by lia. change (2 ^ 1) with 2 in Hm2. lia.
Qed.

(** [int((current / total) * 100)] returns, with a value from 0 to 100. *)
Lemma clean_percent_bounds c n :
  1 <= c <= n -> n < 2 ^ 900 ->
  exists p, Cleaner.percent c n = Ret p /\ 0 <= p <= 100.
Proof.
  intros Hc Hn. unfold Cleaner.percent.
  replace (0 <? n) with true by (symmetry; apply Z.ltb_lt; lia).
  destruct (round_quotient_le_1 c n Hc Hn) as (m3 & e3 & E & Hm & He & Hle).
  unfold int_truediv.
  replace (n =? 0) with false by (symmetry; apply Z.eqb_neq; lia).
  rewrite E. unfold bind.
  now apply times_100_bounds.
Qed.

(** A quotient of 1 is the float 1. *)
Lemma round_quotient_self n :
  0 < n < 2 ^ 900 ->
  round_quotient n n = S754_finite false 4503599627370496 (-52).
Proof.
  intros [Hn Hn900].
  pose proof (Zdigits2_le n 900 Hn Hn900) as Hdn.
  pose proof (Zdigits2_pos n Hn) as Hdn1.
  destruct (round_quotient_spec n n Hn Hn ltac:(lia))
    as (m3 & e3 & E & Hv & He & Hm & Hk).
  replace (53 - Zdigits2 n + Zdigits2 n) with 53 in * by lia.
  replace (n * 2 ^ 53 / n) with (2 ^ 53) in *
    by (rewrite Z.mul_comm, Z.div_mul by lia; reflexivity).
  change (Zdigits2 (2 ^ 53) - 53) with 1 in *.
  change (2 ^ 1) with 2 in Hv.
  assert (Er : rne (n * 2 ^ 53) (2 * n) = 2 ^ 52).
  { replace (n * 2 ^ 53) with (2 ^ 52 * (2 * n))
      by (change (2 ^ 53) with (2 ^ 52 * 2); ring).
    rewrite rne_exact by (try lia; apply Z.mod_mul; lia).
    apply Z.div_mul. lia. }
  rewrite Er in Hv.
  assert (e3 = -52).
  { destruct (Z.eq_dec e3 (-52)) as [|Hne]; [assumption|].
    assert (e3 = -51) by lia. subst e3.
    change (2 ^ (-51 - (1 - 53))) with 2 in Hv. lia. }
  subst e3. change (2 ^ (-52 - (1 - 53))) with 1 in Hv.
  rewrite E. f_equal.
  apply Pos2Z.inj. rewrite <- (Z.mul_1_r (Zpos m3)), Hv. reflexivity.
Qed.

(** The call for the last task reports 100 percent. *)
Lemma clean_percent_last n :
  0 < n < 2 ^ 900 -> Cleaner.percent n n = Ret 100.
Proof.
  intros Hn. unfold Cleaner.percent, int_truediv.
  replace (0 <? n) with true by (symmetry; apply Z.ltb_lt; lia).
  replace (n =? 0) with false by (symmetry; apply Z.eqb_neq; lia).
  rewrite round_quotient_self by assumption.
  reflexivity.
Qed.

End FloatFacts.

(** ** The bounded lists of the largest files and directories *)
Module LargestLists.
Import Analyzer.

Lemma insert_by_size_In x y l :
  In y (insert_by_size x l) -> y = x \/ In y l.
Proof.
  induction l as [|z l IH]; simpl.
  - intros [->|[]]. now left.
  - destruct (snd z <=? snd x).
    + intros [->|Hin]; [now left | now right].
    + intros [->|Hin]; [right; now left|].
      destruct (IH Hin) as [->|Hl]; [now left | right; now right].
Qed.

Lemma insert_by_size_sorted x l :
  sorted_desc l -> sorted_desc (insert_by_size x l).
Proof.
  unfold sorted_desc.
  induction 1 as [|z l Hs IH Hall]; simpl.
  - constructor; constructor.
  - destruct (snd z <=? snd x) eqn:E.
    + apply Z.leb_le in E.
      constructor; [now constructor|].
      constructor; [exact E|].
      rewrite List.Forall_forall in Hall |- *.
      intros y Hy. specialize (Hall y Hy).
      unfold by_size_desc in *. lia.
    + apply Z.leb_gt in E.
      constructor; [exact IH|].
      rewrite List.Forall_forall in Hall |- *.
      intros y Hy. destruct (insert_by_size_In _ _ _ Hy) as [->|Hl].
      * unfold by_size_desc. lia.
      * now apply Hall.
Qed.

Lemma insert_by_size_length x l :
  length (insert_by_size x l) = S (length l).
Proof.
  induction l as [|z l IH]; simpl; [reflexivity|].
  destruct (snd z <=? snd x); simpl; congruence.
Qed.

Lemma sort_by_size_desc_sorted l : sorted_desc (sort_by_size_desc l).
Proof.
  induction l as [|x l IH]; simpl.
  - constructor.
  - now apply insert_by_size_sorted.
Qed.

Lemma firstn_In (y : string * Z) n l : In y (firstn n l) -> In y l.
Proof.
  revert n. induction l as [|x l IH]; intros [|n]; simpl; try tauto.
  intros [->|Hy]; [now left | right; eauto].
Qed.

Lemma firstn_sorted n l : sorted_desc l -> sorted_desc (firstn n l).
Proof.
  unfold sorted_desc. intros Hs. revert n.
  induction Hs as [|x l Hs IH Hall]; intros [|n]; simpl;
    try constructor.
  - apply IH.
  - rewrite List.Forall_forall in Hall |- *.
    intros y Hy. apply Hall. eapply firstn_In; eauto.
Qed.

(** One update leaves a list sorted and within [max_count], whatever the
    list was before. *)
Lemma update_largest_sorted lst p s k :
  sorted_desc (update_largest lst p s k).
Proof.
  unfold update_largest.
  destruct (k <? length _)%nat.
  - apply firstn_sorted, sort_by_size_desc_sorted.
  - apply sort_by_size_desc_sorted.
Qed.

Lemma update_largest_length lst p s k :
  (length (update_largest lst p s k) <= k)%nat.
Proof.
  unfold update_largest.
  destruct (k <? length _)%nat eqn:E.
  - rewrite length_firstn. lia.
  - apply Nat.ltb_ge in E. exact E.
Qed.

Section WithOsPath.
Context `{OsPath}.

Lemma new_bounded_sorted root : bounded_sorted (new_AnalyzeResult root).
Proof.
  unfold bounded_sorted, sorted_desc; simpl.
  repeat split; try lia; constructor.
Qed.

Lemma add_file_bounded_sorted r p s :
  bounded_sorted r -> bounded_sorted (add_file r p s).
Proof.
  intros (Hf & Hfs & Hd & Hds).
  unfold bounded_sorted, add_file, _update_largest_files; simpl.
  repeat split; auto using update_largest_length, update_largest_sorted.
Qed.

Lemma add_dir_bounded_sorted r p s :
  bounded_sorted r -> bounded_sorted (add_dir r p s).
Proof.
  intros (Hf & Hfs & Hd & Hds).
  unfold bounded_sorted, add_dir, _update_largest_dirs; simpl.
  repeat split; auto using update_largest_length, update_largest_sorted.
Qed.

Lemma apply_updates_bounded_sorted us r :
  bounded_sorted r -> bounded_sorted (apply_updates r us).
Proof.
  unfold apply_updates. revert r.
  induction us as [|u us IH]; intros r Hr; simpl; [exact Hr|].
  apply IH. destruct u; simpl.
  - now apply add_file_bounded_sorted.
  - now apply add_dir_bounded_sorted.
Qed.

(** C8. Starting from a fresh [AnalyzeResult], after any sequence of
    [add_file] and [add_dir] calls the list of the largest files and the
    list of the largest directories each hold at most 20 entries and are
    sorted by size, largest first. *)
Theorem largest_lists_bounded_and_sorted :
  forall (root : option DiskItem) (us : list update),
    let r := apply_updates (new_AnalyzeResult root) us in
    (length (largest_files r) <= 20)%nat /\
    StronglySorted (fun a b => snd b <= snd a) (largest_files r) /\
    (length (largest_dirs r) <= 20)%nat /\
    StronglySorted (fun a b => snd b <= snd a) (largest_dirs r).
Proof.
  intros root us r.
  exact (apply_updates_bounded_sorted us _ (new_bounded_sorted root)).
Qed.

End WithOsPath.
End LargestLists.

(** ** The depth bound of the analysis walk *)
Module DepthBound.
Import Analyzer.

(** Induction over a directory tree, with the hypothesis for every entry of
    a directory. *)
Lemma fs_entry_ind' (P : fs_entry -> Prop)
      (Hfile : forall n s, P (FsFile n s))
      (Hdir : forall n r es, Forall P es -> P (FsDir n r es))
      (Hother : forall n, P (FsOther n))
      (Hfault : forall n, P (FsFault n))
  : forall e, P e.
Proof.
  fix go 1. intros [n s|n r es|n|n].
  - apply Hfile.
  - apply Hdir. induction es as [|x es IH].
    + apply List.Forall_nil.
    + apply List.Forall_cons; [apply go | exact IH].
  - apply Hother.
  - apply Hfault.
Qed.

Lemma leaf_cut_at k it :
  children it = [] -> (is_dir it = true -> size it = 0) -> cut_at k it.
Proof.
  intros Hc Hs. destruct k; simpl.
  - split; assumption.
  - rewrite Hc. constructor.
Qed.

Section WithOsPath.
Context `{OsPath}.
Variable abort_requested : nat -> bool.

Lemma extends_by_refl k p : extends_by k p p.
Proof. exists []. split; [now rewrite app_nil_r | constructor]. Qed.

Lemma extends_by_trans k p q r :
  extends_by k p q -> extends_by k q r -> extends_by k p r.
Proof.
  intros (n1 & E1 & F1) (n2 & E2 & F2). exists (n1 ++ n2). split.
  - rewrite E2, E1. now rewrite app_assoc.
  - apply Forall_app. split; assumption.
Qed.

Lemma scandir_loop_nil visit p ds s :
  scandir_loop abort_requested visit [] p ds s = (Exhausted, p, ds, s).
Proof. reflexivity. Qed.

Lemma scandir_loop_cons visit item items p ds s :
  scandir_loop abort_requested visit (item :: items) p ds s =
  let '(a, s) := read_aborted abort_requested s in
  if a then (Returned, p, ds, s)
  else let '(p, ds, s) := visit item p ds s in
       scandir_loop abort_requested visit items p ds s.
Proof. reflexivity. Qed.

Lemma scandir_loop_extends k visit items :
  Forall (fun item => forall p ds s p' ds' s',
              visit item p ds s = (p', ds', s') -> extends_by k p p') items ->
  forall p ds s ex p' ds' s',
    scandir_loop abort_requested visit items p ds s = (ex, p', ds', s') ->
    extends_by k p p'.
Proof.
  induction 1 as [|item items Hv _ IH]; intros p ds s ex p' ds' s' E.
  - rewrite scandir_loop_nil in E.
    injection E as <- <- <- <-. apply extends_by_refl.
  - rewrite scandir_loop_cons in E.
    destruct (read_aborted abort_requested s) as [a s1].
    destruct a.
    + injection E as <- <- <- <-. apply extends_by_refl.
    + destruct (visit item p ds s1) as [[p1 ds1] s2] eqn:Ev.
      eapply extends_by_trans; [eapply Hv; eauto | eapply IH; eauto].
Qed.

(** A call of [_analyze_directory] at depth [d] on a fresh directory item
    leaves it cut [m + 1 - d] levels down. *)
Lemma analyze_directory_with_cut m visit readable items dir parent d s p' s' :
  children parent = [] -> size parent = 0 ->
  (d <= m ->
   Forall (fun item => forall p ds s p' ds' s',
               visit item p ds s = (p', ds', s') ->
               extends_by (Z.to_nat (m - d)) p p') items) ->
  analyze_directory_with abort_requested visit readable items dir parent d
                         (Some m) s = (p', s') ->
  cut_at (Z.to_nat (m + 1 - d)) p'.
Proof.
  intros Hc Hs Hv E. unfold analyze_directory_with in E.
  destruct (read_aborted abort_requested s) as [a s1].
  destruct a; [injection E as <- <-; now apply leaf_cut_at|].
  unfold beyond in E. destruct (m <? d) eqn:Hd.
  { injection E as <- <-. now apply leaf_cut_at. }
  apply Z.ltb_ge in Hd.
  destruct (negb readable); [injection E as <- <-; now apply leaf_cut_at|].
  destruct (scandir_loop abort_requested visit items parent 0 s1)
    as [[[ex p1] ds1] s2] eqn:El.
  destruct (scandir_loop_extends _ _ _ (Hv Hd) _ _ _ _ _ _ _ El)
    as (new & Ech & Hnew).
  rewrite Hc in Ech. simpl in Ech.
  replace (Z.to_nat (m + 1 - d)) with (S (Z.to_nat (m - d))) by lia.
  destruct ex; injection E as <- <-; simpl; now rewrite Ech.
Qed.

Lemma analyze_item_extends m item :
  forall dir d p ds s p' ds' s',
    d <= m ->
    analyze_item abort_requested dir d (Some m) item p ds s = (p', ds', s') ->
    extends_by (Z.to_nat (m - d)) p p'.
Proof.
  induction item as [n sz|n r es IH|n|n] using fs_entry_ind';
    intros dir d p ds s p' ds' s' Hd E; simpl in E.
  - destruct (_update_progress _ _) as [s1 r1].
    injection E as <- <- <-.
    exists [new_DiskItem (path_join dir n) (Some n) false sz]. split.
    + reflexivity.
    + constructor; [|constructor].
      apply leaf_cut_at; simpl; [reflexivity | discriminate].
  - destruct (analyze_directory_with _ _ _ _ _ _ _ _ _) as [di s1] eqn:Ed.
    injection E as <- <- <-.
    exists [di]. split; [reflexivity|].
    constructor; [|constructor].
    replace (Z.to_nat (m - d)) with (Z.to_nat (m + 1 - (d + 1))) by lia.
    eapply analyze_directory_with_cut; [| |intros Hd'|exact Ed];
      [reflexivity | reflexivity |].
    eapply List.Forall_impl; [|exact IH].
    intros item Hitem p0 ds0 s0 p0' ds0' s0' E0.
    eapply Hitem; eauto.
  - injection E as <- <- <-. apply extends_by_refl.
  - injection E as <- <- <-. apply extends_by_refl.
Qed.

Lemma _analyze_directory_cut m readable items dir parent s p' s' :
  children parent = [] -> size parent = 0 ->
  _analyze_directory abort_requested readable items dir parent 0 (Some m) s
    = (p', s') ->
  cut_at (Z.to_nat (m + 1)) p'.
Proof.
  intros Hc Hs E. unfold _analyze_directory in E.
  replace (m + 1) with (m + 1 - 0) by lia.
  eapply analyze_directory_with_cut; [exact Hc | exact Hs | | exact E].
  intros Hd. apply Forall_forall. intros item _ p ds s0 p0 ds0 s1 E0.
  eapply analyze_item_extends; eauto.
Qed.

Lemma _analyze_thread_cut m fs path self :
  match root_item (the_result
          (fst (_analyze_thread abort_requested fs path (Some m) self))) with
  | Some root => cut_at (Z.to_nat (m + 1)) root
  | None => True
  end.
Proof.
  unfold _analyze_thread.
  destruct fs as [|sz|readable items].
  - destruct (analyze_complete_callback _); simpl; exact I.
  - destruct (analyze_complete_callback _); simpl;
      apply leaf_cut_at; simpl; try reflexivity; discriminate.
  - destruct (_analyze_directory _ _ _ _ _ _ _ _) as [root s1] eqn:E.
    apply _analyze_directory_cut in E; [|reflexivity|reflexivity].
    destruct (analyze_complete_callback _); simpl; exact E.
Qed.

End WithOsPath.

(** C1, as the code has it. For every analyze run with a maximum depth [m],
    aborted or not: no [DiskItem] lies more than [m + 1] levels below the
    root, and a directory [m + 1] levels below the root is a node without
    children whose size is 0 (the walk adds a subdirectory to its parent
    before it compares the depth with the bound). In the tree
    [root/sub1/sub2/file.txt] analysed with a maximum depth of 1,
    [file.txt] is no node, [sub2] is a node without children and of size 0,
    and [sub1] has size 0. *)
Theorem analyze_depth_bound :
  (forall (P : OsPath) (abort_requested : nat -> bool) (fs : fs_root)
          (path : string) (m : Z) (self : Analyzer),
      match root_item (the_result
              (fst (_analyze_thread abort_requested fs path (Some m) self)))
      with
      | Some root => cut_at (Z.to_nat (m + 1)) root
      | None => True
      end)
  /\ root_item (the_result Scenarios.analysis_c)
     = Some {| path := "root"; name := "root"; is_dir := true; size := 0;
               children :=
                 [{| path := "root/sub1"; name := "sub1"; is_dir := true;
                     size := 0;
                     children :=
                       [{| path := "root/sub1/sub2"; name := "sub2";
                           is_dir := true; size := 0;
                           children := [] |}] |}] |}.
Proof.
  split.
  - intros. apply _analyze_thread_cut.
  - reflexivity.
Qed.

(** C1, as the specification has it, fails: in scenario C the directory
    [sub2], two levels below the root and beyond the bound of 1, is a
    [DiskItem] of the resulting tree. *)
Lemma sub2_appears_beyond_the_bound :
  exists root,
    root_item (the_result Scenarios.analysis_c) = Some root /\
    existsb (fun it => String.eqb (name it) "sub2") (nodes root) = true.
Proof. eexists. split; reflexivity. Qed.

End DepthBound.

(** ** The target list and the global filter *)
Module ScannerProps.
Import Scanner.

Lemma py_del_in_range {A : Type} (l : list A) (i : Z) :
  0 <= i < Z.of_nat (length l) ->
  py_del l i = Ret (firstn (Z.to_nat i) l ++ skipn (S (Z.to_nat i)) l).
Proof.
  intros Hi. unfold py_del.
  replace (i <? 0) with false by (symmetry; apply Z.ltb_ge; lia).
  replace (0 <=? i) with true by (symmetry; apply Z.leb_le; lia).
  replace (i <? Z.of_nat (length l)) with true
    by (symmetry; apply Z.ltb_lt; lia).
  simpl. now rewrite delete_take_drop.
Qed.

(** C9. [remove_target] with an index below 0 or not below the number of
    targets returns normally and leaves the scanner as it was; with an index
    in range it removes the target at that position and nothing else: the
    targets before it and after it stay, in their order. *)
Theorem remove_target_by_index :
  forall (self : Scanner) (i : Z),
    (i < 0 \/ Z.of_nat (length (targets self)) <= i ->
     remove_target self i = Ret self) /\
    (0 <= i < Z.of_nat (length (targets self)) ->
     remove_target self i =
     Ret (with_targets self
            (firstn (Z.to_nat i) (targets self)
             ++ skipn (S (Z.to_nat i)) (targets self))) /\
     S (length (firstn (Z.to_nat i) (targets self)
                ++ skipn (S (Z.to_nat i)) (targets self)))
     = length (targets self)).
Proof.
  intros self i. split.
  - intros Hout. unfold remove_target.
    destruct (0 <=? i) eqn:E1; [|reflexivity].
    destruct (i <? Z.of_nat (length (targets self))) eqn:E2; [|reflexivity].
    apply Z.leb_le in E1. apply Z.ltb_lt in E2. lia.
  - intros Hin. split.
    + unfold remove_target.
      replace (0 <=? i) with true by (symmetry; apply Z.leb_le; lia).
      replace (i <? Z.of_nat (length (targets self))) with true
        by (symmetry; apply Z.ltb_lt; lia).
      simpl. now rewrite py_del_in_range.
    + rewrite length_app, length_firstn, length_skipn. lia.
Qed.

Lemma remove_target_by_index_witness :
  remove_target Scenarios.three_targets 7 = Ret Scenarios.three_targets /\
  remove_target Scenarios.three_targets (-1) = Ret Scenarios.three_targets /\
  remove_target Scenarios.three_targets 1 =
  Ret (with_targets Scenarios.three_targets
         [new_ScanTarget "temp" "/tmp" None true true;
          new_ScanTarget "cache" "/home/u/.cache" None false true]).
Proof.
  split; [|split].
  - apply (proj1 (remove_target_by_index Scenarios.three_targets 7)).
    right. simpl. lia.
  - apply (proj1 (remove_target_by_index Scenarios.three_targets (-1))).
    left. lia.
  - apply (proj1 (proj2 (remove_target_by_index Scenarios.three_targets 1)
                        ltac:(simpl; lia))).
Defined.

Section WithOsPath.
Context `{OsPath}.

(** C10. A [max_size] of 0 is read as no upper bound and a [min_age_days]
    of 0 as no age bound: the filter decides every file as the filter with
    that field unset does, and a filter with no lower bound, no extension
    lists and both fields 0 accepts every file. *)
Theorem zero_bound_is_no_bound :
  forall (f : ScanFilter) (now : Z) (file_path : string)
         (file_size mod_time : Z),
    (max_size f = Some 0 ->
     match_file f now file_path file_size mod_time =
     match_file (with_max_size f None) now file_path file_size mod_time) /\
    (min_age_days f = Some 0 ->
     match_file f now file_path file_size mod_time =
     match_file (with_min_age_days f None) now file_path file_size mod_time) /\
    (min_size f <= 0 -> max_size f = Some 0 -> min_age_days f = Some 0 ->
     extensions f = [] -> exclude_exts f = [] ->
     match_file f now file_path file_size mod_time = true).
Proof.
  intros f now file_path file_size mod_time. split; [|split].
  - intros E. unfold match_file. simpl. rewrite E. reflexivity.
  - intros E. unfold match_file. simpl. rewrite E. reflexivity.
  - intros Hmin Emax Eage Eext Eexc. unfold match_file.
    rewrite Emax, Eage, Eext, Eexc. simpl.
    replace (0 <? min_size f) with false
      by (symmetry; apply Z.ltb_ge; lia).
    reflexivity.
Qed.

End WithOsPath.

Lemma zero_bound_is_no_bound_witness :
  let f := Scenarios.zero_filter in
  let m := match_file (H := PosixPath.posix) in
  m f 1700000000000000 "/tmp/big.iso" 5000000000 1699999999000000
  = m (with_max_size f None)
      1700000000000000 "/tmp/big.iso" 5000000000 1699999999000000 /\
  m f 1700000000000000 "/tmp/big.iso" 5000000000 1699999999000000
  = m (with_min_age_days f None)
      1700000000000000 "/tmp/big.iso" 5000000000 1699999999000000 /\
  m f 1700000000000000 "/tmp/big.iso" 5000000000 1699999999000000 = true.
Proof.
  pose proof (zero_bound_is_no_bound
                (H := PosixPath.posix) Scenarios.zero_filter
                1700000000000000 "/tmp/big.iso" 5000000000 1699999999000000)
    as (Hsize & Hage & Hall).
  split; [|split].
  - apply Hsize. reflexivity.
  - apply Hage. reflexivity.
  - apply Hall; simpl; solve [lia | reflexivity].
Defined.

End ScannerProps.

(** ** Size strings *)
Module SizeProps.
Import SizeUtils.

(** C3 at one pebibyte. [bytes_to_human_readable] reaches the unit ["PB"] of
    its own list, but the table of [human_readable_to_bytes] stops at ["TB"]:
    the unit is not recognised, the number is taken as a count of bytes, and
    2^50 bytes come back as 1. *)
Theorem petabyte_round_trip :
  bytes_to_human_readable (2 ^ 50) 2 = Ret "1.00 PB PB" /\
  human_readable_to_bytes "1.00 PB PB" = Ret 1 /\
  round_trip (2 ^ 50) 2 = Ret 1.
Proof. repeat split; vm_compute; reflexivity. Qed.

(** Below the petabyte the two functions do agree within the rounding of two
    decimals, here on a few sizes. *)
Example round_trip_samples :
  round_trip 0 2 = Ret 0 /\
  round_trip 1023 2 = Ret 1023 /\
  round_trip 1536 2 = Ret 1536 /\
  round_trip 123456789 2 = Ret 123459338 /\
  round_trip (2 ^ 49) 2 = Ret (2 ^ 49).
Proof. repeat split; vm_compute; reflexivity. Qed.

End SizeProps.

(** ** Starting and finishing the background threads *)
Module ThreadProps.
Import Scenarios.

(** [scan] and [clean] tell their caller whether the thread was started. *)
Lemma scan_signals_started (self : Scanner.Scanner) :
  Scanner.scan self =
  if Scanner.running self then (PyBool false, self, false)
  else (PyBool true,
        Scanner.with_running (Scanner.with_abort_flag self false) true, true).
Proof. reflexivity. Qed.

Lemma clean_signals_started (self : Cleaner.Cleaner) m :
  Cleaner.clean self m =
  if Cleaner.running self then (PyBool false, self, None)
  else (PyBool true,
        Cleaner.with_running (Cleaner.with_abort_flag self false) true,
        Some (default (Cleaner.method self) m)).
Proof. reflexivity. Qed.

(** C4 on [analyze_disk]. Whether it refuses or starts the thread, the call
    returns [None]: on a fresh analyzer the thread is started, on an analyzer
    that is analysing none is, and the caller is told the same. *)
Theorem analyze_disk_returns_none :
  (forall normalize_path self path max_depth pc cc,
      fst (fst (Analyzer.analyze_disk normalize_path self path max_depth pc cc))
      = PyNone) /\
  (let '(r, _, started) :=
     Analyzer.analyze_disk (fun p => p)
       Analyzer.new_Analyzer "/tmp" (Some 3) None None in
   r = PyNone /\ started = Some ("/tmp", Some 3)) /\
  (let '(r, _, started) :=
     Analyzer.analyze_disk (fun p => p)
       (Analyzer.with_is_analyzing Analyzer.new_Analyzer true)
       "/tmp" (Some 3) None None in
   r = PyNone /\ started = None).
Proof.
  split; [|split].
  - intros. unfold Analyzer.analyze_disk.
    destruct (Analyzer.is_analyzing self); reflexivity.
  - split; reflexivity.
  - split; reflexivity.
Qed.

(** The analyze thread, for comparison: the completion runs under [finally],
    and an exception of the progress callback is caught in the walk, so a
    raising callback changes nothing but the outcome of its own call. *)
Lemma analyze_thread_completes_despite_callback :
  let self :=
    snd (fst (Analyzer.analyze_disk (fun p => p) Analyzer.new_Analyzer
                "root" None
                (Some (fun _ _ _ => Raise (CallbackError "boom")))
                (Some quiet))) in
  let '(self', outcome) :=
    Analyzer._analyze_thread (H := PosixPath.posix) never tree_c "root" None
                             self in
  outcome = Ret tt /\
  Analyzer.is_analyzing self' = false /\
  exists r,
    Analyzer.events self'
    = [Analyzer.Progress "root/sub1/sub2/file.txt" 1 0; Analyzer.Complete r].
Proof. vm_compute. repeat split. eexists. reflexivity. Qed.

(** C2 on the scan and the clean thread. A progress callback that raises ends
    the thread at the call: the completion callback is not called, and the
    run flag stays set. *)
Theorem raising_progress_callback_strands_the_run :
  (let '(self, outcome) :=
     Scanner._scan_thread Scenarios.never Scenarios.empty_walk
       (Scenarios.scanner_of 1) None
       (Some Scenarios.failing3) (Some Scenarios.quiet) in
   outcome = Raise (CallbackError "boom") /\
   Scanner.running self = true /\
   Scanner.events self = [Scanner.Progress 0 1 50]) /\
  (let '(self, _, outcome) :=
     Cleaner._clean_thread Scenarios.never Scenarios.cleaner_started
       Scenarios.fs_abc Scenarios.tasks_abc Cleaner.PERMANENT
       (Some Scenarios.failing3) (Some Scenarios.quiet) in
   outcome = Raise (CallbackError "boom") /\
   Cleaner.running self = true /\
   Cleaner.events self = [Cleaner.Progress 1 3 33]).
Proof. split; vm_compute; repeat split; reflexivity. Qed.

End ThreadProps.

(** ** The progress contracts *)
Module ScanProgress.
Import Scanner.

Section Run.
Variable abort_requested : nat -> bool.
Variable _scan_target : nat -> ScanTarget -> option ScanFilter -> ScanResult.
Variable filter_obj : option ScanFilter.
Variable cb : Z -> Z -> Z -> res unit.
Hypothesis never_aborted : forall k, abort_requested k = false.
Hypothesis cb_returns : forall c t p, cb c t p = Ret tt.

(** The loop, when nothing stops it. *)
Lemma scan_loop_events total ts :
  forall k self,
    abort_flag self = false ->
    0 <= k -> 0 < total < 2 ^ 53 ->
    (k + Z.of_nat (length ts)) * 200 < 2 ^ 53 ->
    exists self',
      scan_loop abort_requested _scan_target filter_obj (Some cb) total ts k
                self = (self', Ret tt) /\
      events self' = events self ++ scan_events total ts k /\
      results self' =
        results self ++ scan_results _scan_target filter_obj ts k /\
      abort_flag self' = false /\ running self' = running self /\
      targets self' = targets self.
Proof.
  induction ts as [|t ts IH]; intros k self Hab Hk Htot Hlen.
  - exists self. simpl. rewrite !app_nil_r. repeat split; assumption.
  - cbn [length] in Hlen. rewrite Nat2Z.inj_succ in Hlen.
    cbn [scan_loop]. unfold read_abort_flag.
    rewrite Hab, never_aborted. cbn [orb].
    rewrite FloatFacts.percent_before_floor by lia.
    unfold call_progress. rewrite cb_returns.
    rewrite FloatFacts.percent_after_floor by lia.
    rewrite cb_returns.
    replace (k + 1 - 1) with k by lia.
    match goal with
    | |- context [scan_loop _ _ _ _ _ ts (k + 1) ?s] =>
        destruct (IH (k + 1) s) as (self' & E & Hev & Hres & Hab' & Hrun & Htg);
        [reflexivity | lia | lia | lia |]
    end.
    exists self'. split; [exact E|].
    cbn [events results with_event with_results abort_flag running targets]
      in Hev, Hres, Hab', Hrun, Htg.
    repeat split; try assumption.
    + rewrite Hev. cbn [scan_events]. rewrite <- !app_assoc. reflexivity.
    + rewrite Hres. cbn [scan_results]. rewrite <- !app_assoc. reflexivity.
Qed.

End Run.

(** C5, as the code has it. In a scan over [n] enabled targets that is not
    aborted and whose progress callback returns, the callback fires once
    before and once after each target's walk, and nowhere else. Before the
    walk of target [k] (counted from 1) it reports the index [k - 1] with the
    percent [int((k - 0.5) * 100 / n)], the half-way mark of that target,
    which is the integer quotient of [(2k - 1) * 50] by [n]; after the walk it
    reports the index [k] with the percent [int(k * 100 / n)], the integer
    quotient of [k * 100] by [n]. Both are cut, not rounded. *)
Theorem scan_progress_contract :
  forall (abort_requested : nat -> bool)
         (_scan_target : nat -> ScanTarget -> option ScanFilter -> ScanResult)
         (self : Scanner) (filter_obj : option ScanFilter)
         (cb : Z -> Z -> Z -> res unit)
         (complete_callback : option (list ScanResult -> res unit)),
    abort_flag self = false ->
    (forall k, abort_requested k = false) ->
    (forall c t p, cb c t p = Ret tt) ->
    Z.of_nat (length (List.filter enabled (targets self))) * 200 < 2 ^ 53 ->
    events (fst (_scan_thread abort_requested _scan_target self filter_obj
                              (Some cb) complete_callback))
    = events self
      ++ scan_events (Z.of_nat (length (List.filter enabled (targets self))))
                     (List.filter enabled (targets self)) 0
      ++ match complete_callback with
         | Some _ =>
             [Complete (scan_results _scan_target filter_obj
                          (List.filter enabled (targets self)) 0)]
         | None => []
         end.
Proof.
  intros abort_requested _scan_target self filter_obj cb complete_callback
         Hab Hnever Hcb Hlen.
  unfold _scan_thread.
  cbn [targets with_results].
  remember (List.filter enabled (targets self)) as ts eqn:Ets. clear Ets.
  destruct ts as [|t ts'].
  - cbn [scan_loop length scan_events scan_results].
    destruct complete_callback;
      cbn [fst events with_event with_running with_results app results];
      rewrite ?app_nil_r; reflexivity.
  - remember (t :: ts') as ts eqn:Ets.
    assert (Hn : 0 < Z.of_nat (length ts)).
    { rewrite Ets. cbn [length]. lia. }
    clear Ets.
    destruct (scan_loop_events abort_requested _scan_target filter_obj cb
                Hnever Hcb (Z.of_nat (length ts)) ts 0 (with_results self []))
      as (self' & E & Hev & Hres & _ & _ & _);
      [exact Hab | lia | lia | lia |].
    rewrite E. cbn [events results with_results] in Hev, Hres.
    destruct complete_callback as [f|];
      cbn [fst events results with_event with_running]; rewrite Hev.
    + rewrite Hres. cbn [app]. rewrite <- app_assoc. reflexivity.
    + now rewrite app_nil_r.
Qed.

Lemma scan_progress_contract_witness :
  events (fst (_scan_thread Scenarios.never Scenarios.empty_walk
                            (Scenarios.scanner_of 3) None
                            (Some Scenarios.quiet3) (Some Scenarios.quiet)))
  = [Progress 0 3 16; Walk (new_ScanTarget "t" "/tmp" None false true);
     Progress 1 3 33;
     Progress 1 3 50; Walk (new_ScanTarget "t" "/tmp" None false true);
     Progress 2 3 66;
     Progress 2 3 83; Walk (new_ScanTarget "t" "/tmp" None false true);
     Progress 3 3 100;
     Complete (scan_results Scenarios.empty_walk None
                 (List.filter enabled (targets (Scenarios.scanner_of 3))) 0)].
Proof.
  apply (scan_progress_contract Scenarios.never Scenarios.empty_walk
           (Scenarios.scanner_of 3) None Scenarios.quiet3
           (Some Scenarios.quiet)).
  - reflexivity.
  - reflexivity.
  - reflexivity.
  - vm_compute. reflexivity.
Defined.

(** C5, as the specification has it, fails: with one target the call before
    the walk reports index 0 with 50 percent, where [round(0 * 100 / 1)] is 0;
    with three targets the call after the second walk reports 66 percent,
    where [round(2 * 100 / 3)] is 67. *)
Lemma scan_percent_is_not_the_rounded_one :
  (In (Progress 0 1 50)
      (events (fst (_scan_thread Scenarios.never Scenarios.empty_walk
                      (Scenarios.scanner_of 1) None
                      (Some Scenarios.quiet3) None))) /\
   Scenarios.round_percent 0 1 = 0) /\
  (In (Progress 2 3 66)
      (events (fst (_scan_thread Scenarios.never Scenarios.empty_walk
                      (Scenarios.scanner_of 3) None
                      (Some Scenarios.quiet3) None))) /\
   Scenarios.round_percent 2 3 = 67).
Proof.
  split; split; try reflexivity.
  - vm_compute. left. reflexivity.
  - vm_compute. do 5 right. left. reflexivity.
Qed.

End ScanProgress.

Module CleanProps.
Import Cleaner.

Section WithOs.
Context {FS : Type} `{Os FS}.

Section Run.
Variable abort_requested : nat -> bool.
Variable method : CleanMethod.
Variable cb : Z -> Z -> Z -> res unit.
Hypothesis never_aborted : forall k, abort_requested k = false.
Hypothesis cb_returns : forall c t p, cb c t p = Ret tt.

(** The loop, when nothing stops it: every task is cleaned, in order. *)
Lemma clean_loop_runs_through total tasks :
  forall i results self fs,
    abort_flag self = false ->
    0 <= i -> i + Z.of_nat (length tasks) <= total -> total < 2 ^ 900 ->
    exists self',
      clean_loop abort_requested method (Some cb) total tasks i results
                 self fs
      = (self', fst (clean_each method tasks fs),
         Ret (results ++ snd (clean_each method tasks fs))) /\
      events self' = events self ++ clean_events method total tasks i fs /\
      running self' = running self.
Proof.
  induction tasks as [|task rest IH]; intros i results self fs Hab Hi Hlen Htot.
  - exists self. cbn. rewrite !app_nil_r. repeat split.
  - cbn [length] in Hlen. rewrite Nat2Z.inj_succ in Hlen.
    cbn [clean_loop clean_each clean_events]. unfold read_abort_flag.
    rewrite Hab, never_aborted. cbn [orb].
    destruct (FloatFacts.clean_percent_bounds (i + 1) total ltac:(lia) Htot)
      as (p & Ep & _).
    unfold percent_value. rewrite Ep, cb_returns.
    destruct (_clean_file task method fs) as [fs1 result] eqn:Ef.
    match goal with
    | |- context [clean_loop _ _ _ _ rest (i + 1) ?rs ?s fs1] =>
        destruct (IH (i + 1) rs s fs1) as (self' & E & Hev & Hrun);
        [reflexivity | lia | lia | lia |]
    end.
    exists self'. rewrite E.
    destruct (clean_each method rest fs1) as [fs2 results'].
    cbn [fst snd events running with_event] in *.
    rewrite Hev, <- !app_assoc. repeat split; assumption.
Qed.

End Run.

(** The same for the results alone, with or without a progress callback. *)
Lemma clean_loop_results abort_requested method pc total tasks :
  (forall k, abort_requested k = false) ->
  (forall f c t p, pc = Some f -> f c t p = Ret tt) ->
  forall i results self fs,
    abort_flag self = false ->
    0 <= i -> i + Z.of_nat (length tasks) <= total -> total < 2 ^ 900 ->
    exists self' evs,
      clean_loop abort_requested method pc total tasks i results self fs
      = (self', fst (clean_each method tasks fs),
         Ret (results ++ snd (clean_each method tasks fs))) /\
      events self' = events self ++ evs /\
      running self' = running self.
Proof.
  intros never_aborted pc_returns.
  induction tasks as [|task rest IH]; intros i results self fs Hab Hi Hlen Htot.
  - exists self, []. cbn. rewrite !app_nil_r. repeat split.
  - cbn [length] in Hlen. rewrite Nat2Z.inj_succ in Hlen.
    cbn [clean_loop clean_each]. unfold read_abort_flag.
    rewrite Hab, never_aborted. cbn [orb].
    destruct (FloatFacts.clean_percent_bounds (i + 1) total ltac:(lia) Htot)
      as (p & Ep & _).
    rewrite Ep.
    destruct (_clean_file task method fs) as [fs1 result] eqn:Ef.
    destruct pc as [f|].
    + rewrite (pc_returns f _ _ _ eq_refl).
      match goal with
      | |- context [clean_loop _ _ _ _ rest (i + 1) ?rs ?s fs1] =>
          destruct (IH (i + 1) rs s fs1) as (self' & evs & E & Hev & Hrun);
          [reflexivity | lia | lia | lia |]
      end.
      eexists self', _. rewrite E.
      destruct (clean_each method rest fs1) as [fs2 results'].
      cbn [fst snd events running with_event] in *.
      rewrite Hev, <- !app_assoc. repeat split; assumption.
    + match goal with
      | |- context [clean_loop _ _ _ _ rest (i + 1) ?rs ?s fs1] =>
          destruct (IH (i + 1) rs s fs1) as (self' & evs & E & Hev & Hrun);
          [reflexivity | lia | lia | lia |]
      end.
      eexists self', _. rewrite E.
      destruct (clean_each method rest fs1) as [fs2 results'].
      cbn [fst snd events running with_event] in *.
      rewrite Hev, <- !app_assoc. repeat split; assumption.
Qed.

(** What [_clean_file] answers, by the case the task is in. *)
Lemma _clean_file_outcome task method (fs : FS) :
  (os_path_exists fs (file_path task) = false ->
   _clean_file task method fs
   = (fs, new_CleanResult fs task false (Some file_not_found))) /\
  (forall fs' msg,
      os_path_exists fs (file_path task) = true ->
      clean_operation method (file_path task) fs = (fs', OsRaise msg) ->
      _clean_file task method fs
      = (fs', new_CleanResult fs' task false (Some msg))) /\
  (forall fs',
      os_path_exists fs (file_path task) = true ->
      clean_operation method (file_path task) fs = (fs', OsOk) ->
      _clean_file task method fs = (fs', new_CleanResult fs' task true None)).
Proof.
  unfold _clean_file. repeat split.
  - intros ->. reflexivity.
  - intros fs' msg -> ->. reflexivity.
  - intros fs' -> ->. reflexivity.
Qed.

Lemma clean_each_length method tasks :
  forall fs : FS, length (snd (clean_each method tasks fs)) = length tasks.
Proof.
  induction tasks as [|task rest IH]; intros fs; [reflexivity|].
  cbn [clean_each]. destruct (_clean_file task method fs) as [fs1 r].
  specialize (IH fs1). destruct (clean_each method rest fs1) as [fs2 rs].
  cbn [snd length] in *. congruence.
Qed.

(** C6, as the code has it. In a clean over [total] tasks that is not aborted
    and whose progress callback returns, the callback fires once for each
    task, before that task's file is cleaned, with the 1-based index of the
    task. The percent is [int((current / total) * 100)]: the floating-point
    quotient times 100, cut to an integer, a value from 0 to 100, and 100 in
    the call for the last task. With no tasks the callback does not fire. *)
Theorem clean_progress_contract :
  forall (abort_requested : nat -> bool) (self : Cleaner) (fs : FS)
         (tasks : list CleanTask) (method : CleanMethod)
         (cb : Z -> Z -> Z -> res unit)
         (complete_callback : option (list CleanResult -> res unit)),
    abort_flag self = false ->
    (forall k, abort_requested k = false) ->
    (forall c t p, cb c t p = Ret tt) ->
    Z.of_nat (length tasks) < 2 ^ 900 ->
    events (fst (fst (_clean_thread abort_requested self fs tasks method
                                    (Some cb) complete_callback)))
    = events self
      ++ clean_events method (Z.of_nat (length tasks)) tasks 0 fs
      ++ match complete_callback with
         | Some _ => [Complete (snd (clean_each method tasks fs))]
         | None => []
         end
    /\ (forall current,
          1 <= current <= Z.of_nat (length tasks) ->
          percent current (Z.of_nat (length tasks))
          = Ret (percent_value current (Z.of_nat (length tasks))) /\
          0 <= percent_value current (Z.of_nat (length tasks)) <= 100)
    /\ (tasks <> [] ->
        percent_value (Z.of_nat (length tasks)) (Z.of_nat (length tasks))
        = 100).
Proof.
  intros abort_requested self fs tasks method cb complete_callback
         Hab Hnever Hcb Hlen.
  split; [|split].
  - unfold _clean_thread.
    destruct (clean_loop_runs_through abort_requested method cb Hnever Hcb
                (Z.of_nat (length tasks)) tasks 0 [] self fs)
      as (self' & E & Hev & _); [exact Hab | lia | lia | exact Hlen |].
    rewrite E. cbn [app].
    destruct complete_callback as [f|];
      cbn [fst events with_event with_running]; rewrite Hev.
    + now rewrite <- app_assoc.
    + now rewrite app_nil_r.
  - intros current Hc.
    destruct (FloatFacts.clean_percent_bounds current _ Hc Hlen)
      as (p & Ep & Hp).
    unfold percent_value. rewrite Ep. split; [reflexivity | exact Hp].
  - intros Hne. unfold percent_value.
    rewrite FloatFacts.clean_percent_last; [reflexivity|].
    destruct tasks; [contradiction|]. cbn [length] in *. lia.
Qed.

(** A clean that nothing stops hands the completion callback one result for
    every task. *)
Lemma clean_thread_runs_through
      (abort_requested : nat -> bool) (self : Cleaner) (fs : FS)
      (tasks : list CleanTask) (method : CleanMethod)
      (progress_callback : option (Z -> Z -> Z -> res unit))
      (complete_callback : list CleanResult -> res unit) :
  abort_flag self = false ->
  (forall k, abort_requested k = false) ->
  (forall f c t p, progress_callback = Some f -> f c t p = Ret tt) ->
  Z.of_nat (length tasks) < 2 ^ 900 ->
  let '(self', fs', outcome) :=
    _clean_thread abort_requested self fs tasks method
                  progress_callback (Some complete_callback) in
  outcome = complete_callback (snd (clean_each method tasks fs)) /\
  fs' = fst (clean_each method tasks fs) /\
  length (snd (clean_each method tasks fs)) = length tasks /\
  running self' = false /\
  exists evs,
    events self'
    = events self ++ evs ++ [Complete (snd (clean_each method tasks fs))].
Proof.
  intros Hab Hnever Hcb Hlen.
  unfold _clean_thread.
  destruct (clean_loop_results abort_requested method progress_callback
              (Z.of_nat (length tasks)) tasks Hnever Hcb 0 [] self fs)
    as (self' & evs & E & Hev & _); [exact Hab | lia | lia | exact Hlen |].
  rewrite E. cbn [app fst snd events running with_event with_running].
  repeat split.
  - apply clean_each_length.
  - exists evs. rewrite Hev. now rewrite <- app_assoc.
Qed.

End WithOs.

Import Scenarios.

(** C7. [_clean_file] answers a task whose path does not exist with a failure
    saying that the file does not exist, a task whose operation raises with a
    failure carrying the message of the exception, and any other task with a
    success. A clean that is not aborted and whose progress callback returns
    hands the completion callback one result for every task, in order,
    whatever the results are: each is what [_clean_file] answers on the file
    system the tasks before it have left. Cleaning three tasks with PERMANENT
    when the file of the second was removed beforehand gives a success, a
    failure for the missing file, and a success. *)
Theorem clean_isolates_failures :
  (forall (FS : Type) (O : Os FS)
          (task : CleanTask) (method : CleanMethod) (fs : FS),
      (os_path_exists fs (file_path task) = false ->
       _clean_file task method fs
       = (fs, new_CleanResult fs task false (Some file_not_found))) /\
      (forall fs' msg,
          os_path_exists fs (file_path task) = true ->
          clean_operation method (file_path task) fs = (fs', OsRaise msg) ->
          _clean_file task method fs
          = (fs', new_CleanResult fs' task false (Some msg))) /\
      (forall fs',
          os_path_exists fs (file_path task) = true ->
          clean_operation method (file_path task) fs = (fs', OsOk) ->
          _clean_file task method fs
          = (fs', new_CleanResult fs' task true None))) /\
  (forall (FS : Type) (O : Os FS)
          (abort_requested : nat -> bool) (self : Cleaner) (fs : FS)
          (tasks : list CleanTask) (method : CleanMethod)
          (progress_callback : option (Z -> Z -> Z -> res unit))
          (complete_callback : list CleanResult -> res unit),
      abort_flag self = false ->
      (forall k, abort_requested k = false) ->
      (forall f c t p, progress_callback = Some f -> f c t p = Ret tt) ->
      Z.of_nat (length tasks) < 2 ^ 900 ->
      let '(self', fs', outcome) :=
        _clean_thread abort_requested self fs tasks method
                      progress_callback (Some complete_callback) in
      outcome = complete_callback (snd (clean_each method tasks fs)) /\
      fs' = fst (clean_each method tasks fs) /\
      length (snd (clean_each method tasks fs)) = length tasks /\
      running self' = false /\
      exists evs,
        events self'
        = events self ++ evs
          ++ [Complete (snd (clean_each method tasks fs))]) /\
  map (fun r => (success r, error r))
      (snd (clean_each PERMANENT tasks_abc fs_ac))
  = [(true, None); (false, Some file_not_found); (true, None)].
Proof.
  split; [|split].
  - intros FS O task method fs. apply _clean_file_outcome.
  - intros FS O. apply clean_thread_runs_through.
  - vm_compute. reflexivity.
Qed.

(** Scenario B run through the thread, and the three cases of [_clean_file]
    on single tasks. *)
Lemma clean_isolates_failures_witness :
  (let '(self', fs', outcome) :=
     _clean_thread never cleaner_started fs_ac tasks_abc PERMANENT
                   None (Some quiet) in
   outcome = Ret tt /\
   length (snd (clean_each PERMANENT tasks_abc fs_ac)) = 3%nat /\
   running self' = false /\
   exists evs,
     events self'
     = events cleaner_started ++ evs
       ++ [Complete (snd (clean_each PERMANENT tasks_abc fs_ac))]) /\
  _clean_file (new_CleanTask fs_abc "/t/b" None) PERMANENT fs_ac
  = (fs_ac, new_CleanResult fs_ac (new_CleanTask fs_abc "/t/b" None) false
              (Some file_not_found)) /\
  _clean_file (new_CleanTask fs_abc "/t/c" None) PERMANENT fs_c_locked
  = (fs_c_locked,
     new_CleanResult fs_c_locked (new_CleanTask fs_abc "/t/c" None) false
       (Some "[Errno 13] Permission denied: '/t/c'")) /\
  _clean_file (new_CleanTask fs_abc "/t/a" None) PERMANENT fs_abc
  = (sf_without "/t/a" fs_abc,
     new_CleanResult (sf_without "/t/a" fs_abc)
       (new_CleanTask fs_abc "/t/a" None) true None).
Proof.
  pose proof clean_isolates_failures as (Hfile & Hbatch & _).
  specialize (Hfile simple_fs simple_os).
  specialize (Hbatch simple_fs simple_os).
  split; [|split; [|split]].
  - pose proof (Hbatch never cleaner_started fs_ac tasks_abc PERMANENT
                  None quiet eq_refl (fun _ => eq_refl)
                  (fun f c t p (E : None = Some f) =>
                     match E in _ = o return
                           match o with
                           | Some _ => f c t p = Ret tt
                           | None => True
                           end
                     with eq_refl => I end)
                  ltac:(vm_compute; reflexivity)) as W.
    destruct (_clean_thread _ _ _ _ _ _ _) as [[self' fs'] outcome].
    destruct W as (Hout & _ & Hlen & Hrun & Hev).
    split; [exact Hout|]. split; [exact Hlen|].
    split; [exact Hrun | exact Hev].
  - apply (proj1 (Hfile (new_CleanTask fs_abc "/t/b" None) PERMANENT fs_ac)).
    reflexivity.
  - apply (proj1 (proj2 (Hfile (new_CleanTask fs_abc "/t/c" None) PERMANENT
                           fs_c_locked))); reflexivity.
  - apply (proj2 (proj2 (Hfile (new_CleanTask fs_abc "/t/a" None) PERMANENT
                           fs_abc))); reflexivity.
Defined.

Lemma clean_progress_contract_witness :
  events (fst (fst (_clean_thread never cleaner_started fs_ac tasks_abc
                      PERMANENT (Some quiet3) None)))
  = events cleaner_started
    ++ clean_events PERMANENT 3 tasks_abc 0 fs_ac ++ [] /\
  (percent 2 3 = Ret (percent_value 2 3) /\ 0 <= percent_value 2 3 <= 100) /\
  percent_value 3 3 = 100.
Proof.
  pose proof (clean_progress_contract (FS := simple_fs)
                never cleaner_started fs_ac tasks_abc PERMANENT quiet3 None
                eq_refl (fun _ => eq_refl) (fun _ _ _ => eq_refl)
                ltac:(vm_compute; reflexivity)) as (Hev & Hpct & Hlast).
  split; [exact Hev|]. split.
  - apply (Hpct 2). vm_compute. split; discriminate.
  - apply Hlast. discriminate.
Defined.

(** C6, as the specification has it, fails: cleaning three tasks, the
    callback fires before the first task is cleaned, and for the second task
    it reports 66 percent, where [round(2 * 100 / 3)] is 67. *)
Lemma clean_progress_is_early_and_cut :
  let evs :=
    events (fst (fst (_clean_thread never cleaner_started fs_abc tasks_abc
                        PERMANENT (Some quiet3) None))) in
  nth_error evs 0 = Some (Progress 1 3 33) /\
  (exists t r, nth_error evs 1 = Some (Cleaned t r)) /\
  nth_error evs 2 = Some (Progress 2 3 66) /\
  round_percent 2 3 = 67.
Proof.
  vm_compute. repeat split. eexists _, _. reflexivity.
Qed.

End CleanProps.

(** ** Sizes as text: what the two formatters print *)
Module FormatFacts.
Import PyFloat PyStr FloatFacts SizeUtils.
Import SizeShapes.

Lemma f1024_fl : f1024 = fl 1 10.
Proof. reflexivity. Qed.

(** A power of two against a canonical float: the exponents decide. *)
Lemma compare_pow2_fl A t j :
  0 < A < 2 ^ 53 ->
  SFcompare (fl 1 j) (fl A t)
  = Some (if j <? t + Zdigits2 A - 1 then Lt
          else if t + Zdigits2 A - 1 <? j then Gt
          else if A * 2 ^ (53 - Zdigits2 A) =? 2 ^ 52 then Eq else Lt).
Proof.
  intros HA.
  destruct (fl_mantissa A HA) as [Em Ed].
  assert (B : 2 ^ 52 <= A * 2 ^ (53 - Zdigits2 A) < 2 ^ 53).
  { assert (P : 0 < A * 2 ^ (53 - Zdigits2 A))
      by (rewrite <- Em; apply Pos2Z.is_pos).
    pose proof (Zdigits2_bounds _ P) as B. rewrite Ed in B. exact B. }
  unfold fl. change (Zdigits2 1) with 1. change (1 * 2 ^ (53 - 1)) with (2 ^ 52).
  cbn [SFcompare]. f_equal.
  destruct (Z.compare_spec (j + 1 - 53) (t + Zdigits2 A - 53)) as [E|E|E].
  - replace (j <? t + Zdigits2 A - 1) with false by (symmetry; apply Z.ltb_ge; lia).
    replace (t + Zdigits2 A - 1 <? j) with false by (symmetry; apply Z.ltb_ge; lia).
    change (Pos.compare_cont Eq ?a ?b) with (Pos.compare a b).
    rewrite Pos2Z.inj_compare, Em.
    change (Zpos (Z.to_pos (2 ^ 52))) with (2 ^ 52).
    destruct (Z.eqb_spec (A * 2 ^ (53 - Zdigits2 A)) (2 ^ 52)) as [->|Hne].
    + apply Z.compare_refl.
    + apply Z.compare_lt_iff. lia.
  - replace (j <? t + Zdigits2 A - 1) with true by (symmetry; apply Z.ltb_lt; lia).
    reflexivity.
  - replace (j <? t + Zdigits2 A - 1) with false by (symmetry; apply Z.ltb_ge; lia).
    replace (t + Zdigits2 A - 1 <? j) with true by (symmetry; apply Z.ltb_lt; lia).
    reflexivity.
Qed.

(** [1024.0 <= x] and [x < 1024.0] for the float of [A * 2^t]. *)
Lemma fle_pow2_fl A t j :
  0 < A < 2 ^ 53 -> fle (fl 1 j) (fl A t) = (j <=? t + Zdigits2 A - 1).
Proof.
  intros HA. unfold fle, SFleb. rewrite compare_pow2_fl by assumption.
  destruct (Z.ltb_spec j (t + Zdigits2 A - 1)).
  - symmetry. apply Z.leb_le. lia.
  - destruct (Z.ltb_spec (t + Zdigits2 A - 1) j).
    + symmetry. apply Z.leb_gt. lia.
    + destruct (_ =? _); symmetry; apply Z.leb_le; lia.
Qed.

Lemma flt_fl_pow2 A t j :
  0 < A < 2 ^ 53 ->
  SFltb (fl A t) (fl 1 j) = (t + Zdigits2 A - 1 <? j).
Proof.
  intros HA.
  destruct (fl_mantissa A HA) as [Em Ed].
  assert (B : 2 ^ 52 <= A * 2 ^ (53 - Zdigits2 A) < 2 ^ 53).
  { assert (P : 0 < A * 2 ^ (53 - Zdigits2 A))
      by (rewrite <- Em; apply Pos2Z.is_pos).
    pose proof (Zdigits2_bounds _ P) as B. rewrite Ed in B. exact B. }
  unfold SFltb, fl. change (Zdigits2 1) with 1.
  change (1 * 2 ^ (53 - 1)) with (2 ^ 52).
  cbn [SFcompare].
  destruct (Z.compare_spec (t + Zdigits2 A - 53) (j + 1 - 53)) as [E|E|E].
  - replace (t + Zdigits2 A - 1 <? j) with false by (symmetry; apply Z.ltb_ge; lia).
    change (Pos.compare_cont Eq ?a ?b) with (Pos.compare a b).
    rewrite Pos2Z.inj_compare, Em.
    change (Zpos (Z.to_pos (2 ^ 52))) with (2 ^ 52).
    destruct (Z.compare_spec (A * 2 ^ (53 - Zdigits2 A)) (2 ^ 52)); try reflexivity.
    lia.
  - symmetry. apply Z.ltb_lt. lia.
  - symmetry. apply Z.ltb_ge. lia.
Qed.

(** Dividing by a power of two lowers the exponent. *)
Lemma fdiv_fl_pow2 A s j :
  0 < A < 2 ^ 53 -> -900 <= s - j <= 900 ->
  fdiv (fl A s) (fl 1 j) = fl A (s - j).
Proof.
  intros [HA HA53] Hsj.
  pose proof (Zdigits2_pos A HA) as HdA1.
  pose proof (Zdigits2_le A 53 HA HA53) as HdA.
  destruct (fl_mantissa A ltac:(lia)) as [EmA EdA].
  set (M := A * 2 ^ (53 - Zdigits2 A)) in *.
  assert (HM : 0 < M) by (rewrite <- EmA; apply Pos2Z.is_pos).
  remember (fl A (s - j)) as R eqn:ER.
  unfold fdiv, SFdiv, fl, SFdiv_core_binary. simpl xorb.
  fold M. change (Zdigits2 1) with 1.
  change (1 * 2 ^ (53 - 1)) with (2 ^ 52).
  change (Zpos (Z.to_pos (2 ^ 52))) with (2 ^ 52).
  rewrite EmA, EdA. change (Zdigits2 (2 ^ 52)) with 53.
  replace (53 + (s + Zdigits2 A - 53) - (53 + (j + 1 - 53)))
    with (s + Zdigits2 A - 53 - (j + 1 - 53)) by lia.
  rewrite fexp_normal by lia.
  replace (Z.min (s + Zdigits2 A - 53 - (j + 1 - 53) - 53)
                 (s + Zdigits2 A - 53 - (j + 1 - 53)))
    with (s + Zdigits2 A - 53 - (j + 1 - 53) - 53) by lia.
  replace (s + Zdigits2 A - 53 - (j + 1 - 53)
           - (s + Zdigits2 A - 53 - (j + 1 - 53) - 53)) with 53 by lia.
  cbv iota. rewrite Z.shiftl_mul_pow2 by lia.
  assert (Eq : M * 2 ^ 53 / 2 ^ 52 = 2 * M).
  { change (2 ^ 53) with (2 * 2 ^ 52). rewrite Z.mul_assoc.
    rewrite Z.div_mul by (change (2 ^ 52) with 4503599627370496; lia). lia. }
  assert (Er : (M * 2 ^ 53) mod 2 ^ 52 = 0).
  { change (2 ^ 53) with (2 * 2 ^ 52). rewrite Z.mul_assoc.
    apply Z.mod_mul. change (2 ^ 52) with 4503599627370496; lia. }
  unfold Z.div, Z.modulo in Eq, Er.
  destruct (Z.div_eucl (M * 2 ^ 53) (2 ^ 52)) as [q r].
  subst q r.
  rewrite new_location_locate
    by (change (2 ^ 52) with 4503599627370496; lia).
  change (locate 0 (2 ^ 52)) with loc_Exact.
  assert (Hd2 : Zdigits2 (2 * M) = 54).
  { replace (2 * M) with (M * 2 ^ 1) by (change (2 ^ 1) with 2; lia).
    rewrite digits_mul_pow2 by lia. lia. }
  destruct (binary_round_aux_exact (2 * M)
              (s + Zdigits2 A - 53 - (j + 1 - 53) - 53)) as [E _];
    try (rewrite Hd2); try lia.
  { change (2 ^ (54 - 53)) with 2. rewrite Z.mul_comm. apply Z.mod_mul. lia. }
  rewrite E, Hd2. change (2 ^ (54 - 53)) with 2.
  rewrite (Z.mul_comm 2 M), Z.div_mul by lia.
  subst R. unfold fl. fold M. f_equal. lia.
Qed.

Lemma div_half_even_scale x d F :
  0 < d -> 0 < F -> div_half_even (x * F) (d * F) = div_half_even x d.
Proof.
  intros Hd HF. unfold div_half_even.
  rewrite Z.div_mul_cancel_r by lia.
  rewrite Z.mul_mod_distr_r by lia.
  replace (2 * (x mod d * F) ?= d * F) with (2 * (x mod d) ?= d).
  - reflexivity.
  - destruct (Z.compare_spec (2 * (x mod d)) d) as [E|E|E]; symmetry.
    + apply Z.compare_eq_iff. nia.
    + apply Z.compare_lt_iff. nia.
    + apply Z.compare_gt_iff. nia.
Qed.

Lemma div_half_even_1 x : div_half_even x 1 = x.
Proof.
  unfold div_half_even. rewrite Z.div_1_r, Z.mod_1_r. reflexivity.
Qed.

(** What [format_fixed] prints for the float of [A / 2^j]. *)
Lemma format_fixed_fl dp A j :
  0 < A < 2 ^ 53 -> 0 <= j ->
  format_fixed dp (fl A (- j))
  = fixed_text dp (div_half_even (A * 10 ^ Z.of_nat dp) (2 ^ j)).
Proof.
  intros [HA HA53] Hj.
  pose proof (Zdigits2_pos A HA) as HdA1.
  pose proof (Zdigits2_le A 53 HA HA53) as HdA.
  destruct (fl_mantissa A ltac:(lia)) as [EmA _].
  assert (H10 : 0 < 10 ^ Z.of_nat dp) by (apply Z.pow_pos_nonneg; lia).
  assert (HF : 0 < 2 ^ (53 - Zdigits2 A)) by (apply Z.pow_pos_nonneg; lia).
  assert (H2j : 0 < 2 ^ j) by (apply Z.pow_pos_nonneg; lia).
  unfold format_fixed, fl. rewrite EmA.
  assert (En : (if 0 <=? - j + Zdigits2 A - 53
                then A * 2 ^ (53 - Zdigits2 A) * 10 ^ Z.of_nat dp
                     * 2 ^ (- j + Zdigits2 A - 53)
                else div_half_even
                       (A * 2 ^ (53 - Zdigits2 A) * 10 ^ Z.of_nat dp)
                       (2 ^ (- (- j + Zdigits2 A - 53))))
               = div_half_even (A * 10 ^ Z.of_nat dp) (2 ^ j)).
  { destruct (Z.leb_spec 0 (- j + Zdigits2 A - 53)) as [H0|H0].
    - assert (j = 0) by lia. assert (Zdigits2 A = 53) by lia. subst j.
      replace (- 0 + Zdigits2 A - 53) with 0 by lia.
      replace (53 - Zdigits2 A) with 0 by lia.
      rewrite !Z.pow_0_r, div_half_even_1. ring.
    - replace (- (- j + Zdigits2 A - 53)) with (j + (53 - Zdigits2 A)) by lia.
      rewrite Z.pow_add_r by lia.
      replace (A * 2 ^ (53 - Zdigits2 A) * 10 ^ Z.of_nat dp)
        with (A * 10 ^ Z.of_nat dp * 2 ^ (53 - Zdigits2 A)) by ring.
      apply div_half_even_scale; lia. }
  rewrite En. unfold fixed_text. destruct dp; reflexivity.
Qed.

End FormatFacts.

(** ** Text: the [str] methods on concatenations, decimal digits read back *)
Module TextFacts.
Import PyFloat PyStr PyFloatParse FloatFacts FormatFacts.
Import SizeShapes.

Lemma chars_app a b : chars (a +:+ b) = chars a ++ chars b.
Proof.
  unfold chars. induction a as [|c a IH]; [reflexivity|].
  change (String c a +:+ b) with (String c (a +:+ b)).
  cbn [list_ascii_of_string app]. f_equal. exact IH.
Qed.

Lemma chars_str l : chars (str l) = l.
Proof. apply list_ascii_of_string_of_list_ascii. Qed.

Lemma str_chars s : str (chars s) = s.
Proof. apply string_of_list_ascii_of_string. Qed.

Lemma str_app l1 l2 : str (l1 ++ l2) = str l1 +:+ str l2.
Proof.
  unfold str. induction l1 as [|c l1 IH]; [reflexivity|].
  cbn [app string_of_list_ascii].
  change (String c ?a +:+ ?b) with (String c (a +:+ b)).
  f_equal. exact IH.
Qed.

Lemma chars_inj a b : chars a = chars b -> a = b.
Proof.
  intros E. rewrite <- (str_chars a), <- (str_chars b). now f_equal.
Qed.

Lemma length_chars s : length (chars s) = String.length s.
Proof. induction s as [|c s IH]; [reflexivity|]. cbn. now f_equal. Qed.

Lemma drop_while_all p l1 l2 :
  forallb p l1 = true -> drop_while p (l1 ++ l2) = drop_while p l2.
Proof.
  induction l1 as [|c l1 IH]; [reflexivity|].
  cbn [forallb app drop_while]. intros H.
  apply andb_true_iff in H as [-> H]. now apply IH.
Qed.

Lemma take_while_all p l1 l2 :
  forallb p l1 = true -> take_while p (l1 ++ l2) = l1 ++ take_while p l2.
Proof.
  induction l1 as [|c l1 IH]; [reflexivity|].
  cbn [forallb app take_while]. intros H.
  apply andb_true_iff in H as [-> H]. f_equal. now apply IH.
Qed.

Lemma drop_while_stops p l : stops_at p l -> drop_while p l = l.
Proof. destruct l as [|c l]; [reflexivity|]. cbn. now intros ->. Qed.

Lemma take_while_stops p l : stops_at p l -> take_while p l = [].
Proof. destruct l as [|c l]; [reflexivity|]. cbn. now intros ->. Qed.

(** Stripping at the right end stops at the last character that stays. *)
Lemma rstrip_by_keep p l c l' :
  p c = false -> rstrip_by p (l ++ c :: l') = l ++ c :: rstrip_by p l'.
Proof.
  intros Hc. unfold rstrip_by.
  rewrite rev_app_distr. cbn [rev]. rewrite <- app_assoc. cbn [app].
  induction (rev l') as [|x r IH].
  - cbn [app drop_while]. rewrite Hc.
    change (c :: rev l) with ([c] ++ rev l).
    rewrite rev_app_distr, rev_involutive. reflexivity.
  - cbn [app drop_while]. destruct (p x) eqn:Hx; [exact IH|].
    change (x :: r ++ c :: rev l) with ((x :: r) ++ [c] ++ rev l).
    rewrite !rev_app_distr, rev_involutive, <- app_assoc. reflexivity.
Qed.

Lemma rstrip_by_all p l : forallb p l = true -> rstrip_by p l = [].
Proof.
  intros H. unfold rstrip_by.
  assert (Hr : forallb p (rev l) = true).
  { rewrite forallb_forall in *. intros x Hx. apply H. now apply in_rev. }
  rewrite <- (app_nil_r (rev l)), drop_while_all by assumption. reflexivity.
Qed.

Lemma rstrip_by_last p l c :
  p c = false -> rstrip_by p (l ++ [c]) = l ++ [c].
Proof.
  intros Hc. rewrite rstrip_by_keep by assumption. reflexivity.
Qed.

(** *** Decimal digits *)

Lemma of_uint_acc_val d :
  forall acc, Zpos (Pos.of_uint_acc d acc) = uint_val d (Zpos acc).
Proof.
  induction d; intros acc; cbn [Pos.of_uint_acc uint_val];
    try reflexivity; rewrite IHd; f_equal; lia.
Qed.

Lemma of_uint_val d : Z.of_N (N.of_uint d) = uint_val d 0.
Proof.
  unfold N.of_uint.
  induction d; cbn [Pos.of_uint uint_val]; try reflexivity;
    try exact IHd;
    cbn [Z.of_N]; rewrite of_uint_acc_val; reflexivity.
Qed.

Lemma to_uint_val n : uint_val (N.to_uint n) 0 = Z.of_N n.
Proof. rewrite <- of_uint_val, Unsigned.of_to. reflexivity. Qed.

Lemma to_uint_normal n : unorm (N.to_uint n) = N.to_uint n.
Proof.
  rewrite <- (Unsigned.of_to n) at 2. symmetry. apply Unsigned.to_of.
Qed.

Lemma to_uint_nonnil n : N.to_uint n <> Nil.
Proof. rewrite <- to_uint_normal. apply unorm_nonnil. Qed.

Lemma uint_val_lower d :
  forall acc, 0 <= acc ->
    acc * 10 ^ Z.of_nat (nb_digits d) <= uint_val d acc.
Proof.
  induction d; intros acc Hacc; cbn [nb_digits uint_val];
    try (rewrite Z.pow_0_r; lia);
    rewrite Nat2Z.inj_succ, Z.pow_succ_r by lia;
    (etransitivity; [|apply IHd; lia]);
    pose proof (Z.pow_pos_nonneg 10 (Z.of_nat (nb_digits d)) ltac:(lia)
                                 ltac:(lia));
    nia.
Qed.

(** A number below [10^k] is written with at most [k] digits. *)
Lemma nb_digits_to_uint n k :
  (1 <= k)%nat -> Z.of_N n < 10 ^ Z.of_nat k ->
  (nb_digits (N.to_uint n) <= k)%nat.
Proof.
  intros Hk Hn.
  pose proof (to_uint_normal n) as Hnorm.
  pose proof (to_uint_val n) as Hval.
  destruct (N.to_uint n) as [|d|d|d|d|d|d|d|d|d|d] eqn:E;
    cbn [nb_digits uint_val] in *; try lia;
    try match type of Hval with
        | uint_val ?u (10 * 0 + ?v) = _ =>
            pose proof (uint_val_lower u v ltac:(lia)) as L;
            change (10 * 0 + v) with v in Hval;
            assert (Hlt : 10 ^ Z.of_nat (nb_digits u) < 10 ^ Z.of_nat k)
              by lia;
            apply Z.pow_lt_mono_r_iff in Hlt; lia
        end.
  (* a leading zero: the number is 0 *)
  unfold unorm in Hnorm. cbn [nzhead] in Hnorm.
  destruct (nzhead d) eqn:Ez; try discriminate.
  - injection Hnorm as <-. cbn. lia.
  - exfalso. apply (nzhead_nonzero d d). congruence.
Qed.

Lemma digits_of_uint n :
  digits_of n = NilEmpty.string_of_uint (N.to_uint (Z.to_N n)).
Proof.
  unfold digits_of, NilZero.string_of_uint.
  pose proof (to_uint_nonnil (Z.to_N n)).
  destruct (N.to_uint (Z.to_N n)); congruence.
Qed.

Lemma uint_chars_digits d :
  forallb is_digit (chars (NilEmpty.string_of_uint d)) = true.
Proof. induction d; cbn; try reflexivity; exact IHd. Qed.

Lemma uint_chars_length d :
  length (chars (NilEmpty.string_of_uint d)) = nb_digits d.
Proof. induction d; cbn; try reflexivity; now f_equal. Qed.

Lemma digit_chars_digits n : forallb is_digit (digit_chars n) = true.
Proof. unfold digit_chars. rewrite digits_of_uint. apply uint_chars_digits. Qed.

Lemma digit_chars_nonempty n : digit_chars n <> [].
Proof.
  unfold digit_chars. rewrite digits_of_uint.
  pose proof (to_uint_nonnil (Z.to_N n)).
  destruct (N.to_uint (Z.to_N n)); try congruence; discriminate.
Qed.

Lemma digit_chars_length n k :
  (1 <= k)%nat -> 0 <= n < 10 ^ Z.of_nat k -> (length (digit_chars n) <= k)%nat.
Proof.
  intros Hk Hn. unfold digit_chars.
  rewrite digits_of_uint, uint_chars_length.
  apply nb_digits_to_uint; [assumption|]. rewrite Z2N.id; lia.
Qed.

Lemma digitpart_tail_end l acc k :
  ends_digits l -> digitpart_tail l acc k = (acc, k, l).
Proof.
  destruct l as [|c l]; [reflexivity|]. cbn. intros [-> ->]. reflexivity.
Qed.

Lemma digitpart_tail_uint d :
  forall acc k rest,
    ends_digits rest ->
    digitpart_tail (chars (NilEmpty.string_of_uint d) ++ rest) acc k
    = (uint_val d acc, (k + nb_digits d)%nat, rest).
Proof.
  induction d; intros acc k rest Hrest;
    cbn [NilEmpty.string_of_uint chars list_ascii_of_string app
         nb_digits uint_val];
    try (rewrite Nat.add_0_r; now apply digitpart_tail_end);
    cbn [digitpart_tail]; cbn [is_digit code N_of_ascii N_of_digits];
    (change (is_digit ?c) with true at 1 || idtac);
    cbv match; rewrite IHd by assumption;
    rewrite Nat.add_succ_r; reflexivity.
Qed.

Lemma digitpart_tail_zeros m :
  forall k l,
    digitpart_tail (chars (zeros m) ++ l) 0 k = digitpart_tail l 0 (k + m)%nat.
Proof.
  induction m as [|m IH]; intros k l.
  - cbn. now rewrite Nat.add_0_r.
  - cbn [zeros chars list_ascii_of_string app digitpart_tail].
    change (is_digit "0") with true. cbv match. change (10 * 0 + digit_val "0") with 0.
    rewrite IH. f_equal. lia.
Qed.

Lemma digitpart_from_0 l :
  (exists c l', l = c :: l' /\ is_digit c = true) ->
  digitpart l = Some (digitpart_tail l 0 0%nat).
Proof.
  intros (c & l' & -> & Hc). cbn [digitpart digitpart_tail]. rewrite Hc.
  reflexivity.
Qed.

Lemma digit_chars_head n :
  exists c l', digit_chars n = c :: l' /\ is_digit c = true.
Proof.
  pose proof (digit_chars_digits n) as H.
  pose proof (digit_chars_nonempty n) as Hne.
  destruct (digit_chars n) as [|c l']; [contradiction|].
  exists c, l'. split; [reflexivity|].
  cbn in H. now apply andb_true_iff in H as [-> _].
Qed.

(** [float()] reads the digits of a number as that number. *)
Lemma digitpart_digits n rest :
  0 <= n -> ends_digits rest ->
  digitpart (digit_chars n ++ rest)
  = Some (n, length (digit_chars n), rest).
Proof.
  intros Hn Hrest.
  rewrite digitpart_from_0.
  - unfold digit_chars. rewrite digits_of_uint.
    rewrite digitpart_tail_uint by assumption.
    rewrite to_uint_val, Z2N.id, uint_chars_length by lia. reflexivity.
  - destruct (digit_chars_head n) as (c & l' & E & Hc).
    exists c, (l' ++ rest). rewrite E. split; [reflexivity | exact Hc].
Qed.

(** The same for digits padded with zeros to the width [k]. *)
Lemma digitpart_padded n k rest :
  (1 <= k)%nat -> 0 <= n < 10 ^ Z.of_nat k -> ends_digits rest ->
  digitpart (chars (pad_left k (digits_of n)) ++ rest) = Some (n, k, rest).
Proof.
  intros Hk Hn Hrest.
  pose proof (digit_chars_length n k Hk Hn) as Hlen.
  unfold pad_left. rewrite chars_app, <- app_assoc.
  fold (digit_chars n). rewrite <- length_chars. fold (digit_chars n).
  rewrite digitpart_from_0.
  - rewrite digitpart_tail_zeros.
    unfold digit_chars at 1. rewrite digits_of_uint.
    rewrite digitpart_tail_uint by assumption.
    rewrite to_uint_val, Z2N.id by lia.
    rewrite <- uint_chars_length, <- digits_of_uint. fold (digit_chars n).
    do 2 f_equal. f_equal. lia.
  - destruct (k - length (digit_chars n))%nat as [|m].
    + destruct (digit_chars_head n) as (c & l' & E & Hc).
      exists c, (l' ++ rest). rewrite E. split; [reflexivity | exact Hc].
    + eexists _, _. split; [reflexivity|reflexivity].
Qed.

End TextFacts.

(** ** Sizes as text: closed forms of the formatters *)
Module SizeText.
Import PyFloat PyStr PyFloatParse FloatFacts FormatFacts TextFacts SizeUtils.
Import SizeShapes.

Lemma int_of_float_fl A :
  0 < A < 2 ^ 53 -> int_of_float (fl A 0) = Ret A.
Proof.
  intros [HA HA53].
  pose proof (Zdigits2_pos A HA) as HdA1.
  pose proof (Zdigits2_le A 53 HA HA53) as HdA.
  destruct (fl_mantissa A ltac:(lia)) as [Em _].
  unfold fl, int_of_float. rewrite Em. f_equal.
  replace (0 + Zdigits2 A - 53) with (- (53 - Zdigits2 A)) by lia.
  rewrite Z.shiftl_opp_r, Z.shiftr_div_pow2 by lia.
  apply Z.div_mul. pose proof (Z.pow_pos_nonneg 2 (53 - Zdigits2 A)). lia.
Qed.

Lemma round_quotient_1 n : 0 < n < 2 ^ 53 -> round_quotient n 1 = fl n 0.
Proof.
  intros Hn.
  rewrite <- fdiv_fl by (try assumption; split; reflexivity).
  rewrite fdiv_fl_pow2 by (try assumption; lia). reflexivity.
Qed.

Lemma scale_fl A :
  0 < A < 2 ^ 53 ->
  forall fuel i,
    Z.of_nat i <= (Zdigits2 A - 1) / 10 ->
    scale fuel (fl A (-10 * Z.of_nat i)) i
    = (fl A (-10 * Z.of_nat
                     (Z.to_nat (Z.min (Z.of_nat (i + fuel))
                                      ((Zdigits2 A - 1) / 10)))),
       Z.to_nat (Z.min (Z.of_nat (i + fuel)) ((Zdigits2 A - 1) / 10))).
Proof.
  intros HA.
  pose proof (Zdigits2_pos A ltac:(lia)) as HdA1.
  pose proof (Zdigits2_le A 53 ltac:(lia) ltac:(lia)) as HdA.
  set (L := (Zdigits2 A - 1) / 10).
  assert (HL : 10 * L <= Zdigits2 A - 1 < 10 * L + 10).
  { unfold L. pose proof (Z.div_mod (Zdigits2 A - 1) 10 ltac:(lia)).
    pose proof (Z.mod_pos_bound (Zdigits2 A - 1) 10 ltac:(lia)). lia. }
  induction fuel as [|fuel IH]; intros i Hi.
  - cbn [scale]. rewrite Nat.add_0_r.
    replace (Z.min (Z.of_nat i) L) with (Z.of_nat i) by lia.
    rewrite Nat2Z.id. reflexivity.
  - cbn [scale]. rewrite f1024_fl, fle_pow2_fl by assumption.
    destruct (Z.leb_spec 10 (-10 * Z.of_nat i + Zdigits2 A - 1)) as [Hge|Hlt].
    + rewrite fdiv_fl_pow2 by (try assumption; lia).
      replace (-10 * Z.of_nat i - 10) with (-10 * Z.of_nat (S i)) by lia.
      rewrite IH by lia.
      replace (S i + fuel)%nat with (i + S fuel)%nat by lia. reflexivity.
    + replace (Z.min (Z.of_nat (i + S fuel)) L) with (Z.of_nat i) by lia.
      rewrite Nat2Z.id. reflexivity.
Qed.

Lemma unit_index_spec s i :
  0 < s < 2 ^ 53 -> 0 <= i <= 5 ->
  1024 ^ i <= s -> (i < 5 -> s < 1024 ^ (i + 1)) ->
  unit_index s = Z.to_nat i.
Proof.
  intros Hs Hi Hlo Hhi. unfold unit_index. f_equal.
  pose proof (Zdigits2_bounds s ltac:(lia)) as [Blo Bhi].
  pose proof (Zdigits2_pos s ltac:(lia)) as Hd1.
  pose proof (Zdigits2_le s 53 ltac:(lia) ltac:(lia)) as Hd53.
  replace (1024 ^ i) with (2 ^ (10 * i)) in Hlo
    by (change 1024 with (2 ^ 10); rewrite <- Z.pow_mul_r by lia; reflexivity).
  assert (Hdi : 10 * i <= Zdigits2 s - 1).
  { assert (2 ^ (10 * i) < 2 ^ Zdigits2 s) by lia.
    apply Z.pow_lt_mono_r_iff in H; lia. }
  assert (Hq : i <= (Zdigits2 s - 1) / 10)
    by (apply Z.div_le_lower_bound; lia).
  destruct (Z.eq_dec i 5) as [->|Hne].
  - lia.
  - assert (Hs' : s < 2 ^ (10 * (i + 1))).
    { specialize (Hhi ltac:(lia)).
      replace (1024 ^ (i + 1)) with (2 ^ (10 * (i + 1))) in Hhi
        by (change 1024 with (2 ^ 10); rewrite <- Z.pow_mul_r by lia;
            reflexivity).
      exact Hhi. }
    assert (Hdi' : Zdigits2 s - 1 < 10 * (i + 1)).
    { assert (2 ^ (Zdigits2 s - 1) < 2 ^ (10 * (i + 1))) by lia.
      apply Z.pow_lt_mono_r_iff in H; lia. }
    assert ((Zdigits2 s - 1) / 10 < i + 1)
      by (apply Z.div_lt_upper_bound; lia).
    lia.
Qed.

Lemma scaled_text s dp :
  0 < s < 2 ^ 53 ->
  let i := unit_index s in
  scale 5 (fl s 0) 0 = (fl s (-10 * Z.of_nat i), i) /\
  format_fixed dp (fl s (-10 * Z.of_nat i)) = size_number s (Z.of_nat i) dp.
Proof.
  intros Hs i.
  pose proof (Zdigits2_pos s ltac:(lia)) as Hd1.
  assert (H0 : 0 <= (Zdigits2 s - 1) / 10) by (apply Z.div_pos; lia).
  split.
  - pose proof (scale_fl s Hs 5 0%nat ltac:(cbn; lia)) as E.
    change (-10 * Z.of_nat 0) with 0 in E.
    change (0 + 5)%nat with 5%nat in E.
    rewrite E. unfold i, unit_index.
    replace (Z.min (Z.of_nat 5) ((Zdigits2 s - 1) / 10))
      with (Z.min 5 ((Zdigits2 s - 1) / 10)) by reflexivity.
    reflexivity.
  - replace (-10 * Z.of_nat i) with (- (10 * Z.of_nat i)) by lia.
    rewrite format_fixed_fl by lia.
    unfold size_number. do 2 f_equal.
    change 1024 with (2 ^ 10). rewrite <- Z.pow_mul_r by lia. reflexivity.
Qed.

Lemma append_assoc a b c : (a +:+ b) +:+ c = a +:+ b +:+ c.
Proof. apply chars_inj. rewrite !chars_app. now rewrite app_assoc. Qed.

Lemma digits_no_point l : forallb is_digit l = true -> existsb (Ascii.eqb ".") l = false.
Proof.
  induction l as [|c l IH]; [reflexivity|]. cbn [forallb existsb].
  intros H. apply andb_true_iff in H as [Hc H]. rewrite (IH H), orb_false_r.
  destruct (Ascii.eqb_spec "." c) as [<-|]; [discriminate Hc | reflexivity].
Qed.

(** Nothing is stripped from a text that ends in ["B"]. *)
Lemma rstrip_unit c text pre :
  Ascii.eqb c "B" = false ->
  rstrip c (text +:+ pre +:+ "B") = text +:+ pre +:+ "B".
Proof.
  intros Hc. unfold rstrip. rewrite !chars_app.
  change (chars "B") with ["B"%char].
  rewrite app_assoc, rstrip_by_last by assumption.
  rewrite <- app_assoc, !str_app, !str_chars. reflexivity.
Qed.

Lemma fixed_text_point dp n text :
  (1 <= dp)%nat -> contains_char "." (fixed_text dp n +:+ text) = true.
Proof.
  intros Hdp. destruct dp as [|dp]; [lia|].
  unfold contains_char, fixed_text. rewrite !chars_app, !existsb_app.
  change (chars ".") with ["."%char]. cbn [existsb].
  rewrite Ascii.eqb_refl. cbn [orb]. rewrite orb_true_r. reflexivity.
Qed.

Lemma float_of_int_pos s : 0 < s < 2 ^ 53 -> float_of_int s = Ret (fl s 0).
Proof. apply float_of_int_fl. Qed.

(** The text of a size from 1024 on. *)
Lemma large_size_text s dp i :
  0 < s < 2 ^ 53 -> 1 <= i <= 5 ->
  1024 ^ i <= s -> (i < 5 -> s < 1024 ^ (i + 1)) ->
  0 <= dp ->
  bytes_to_human_readable s dp =
  Ret (let number := size_number s i (Z.to_nat dp) in
       let unit := nth (Z.to_nat i) unit_names "" in
       if dp =? 0 then number +:+ " " +:+ unit
       else (number +:+ " " +:+ unit) +:+ " " +:+ unit).
Proof.
  intros Hs Hi Hlo Hhi Hdp.
  destruct (scaled_text s (Z.to_nat dp) Hs) as [Esc Efmt].
  rewrite (unit_index_spec s i) in Esc, Efmt by (try assumption; lia).
  rewrite Z2Nat.id in Esc, Efmt by lia.
  unfold bytes_to_human_readable.
  replace (s <? 0) with false by (symmetry; apply Z.ltb_ge; lia).
  replace (s =? 0) with false by (symmetry; apply Z.eqb_neq; lia).
  rewrite float_of_int_pos by assumption. unfold bind.
  change (length ["B"; "KB"; "MB"; "GB"; "TB"; "PB"] - 1)%nat with 5%nat.
  rewrite Esc.
  replace (dp <? 0) with false by (symmetry; apply Z.ltb_ge; lia).
  rewrite Efmt. cbv zeta.
  fold unit_names.
  set (number := size_number s i (Z.to_nat dp)).
  assert (Ei : i = 1 \/ i = 2 \/ i = 3 \/ i = 4 \/ i = 5) by lia.
  destruct (Z.eqb_spec dp 0) as [->|Hdp0].
  - (* no decimal point: the text is returned as it is *)
    assert (Hno : forall unit,
               existsb (Ascii.eqb ".") (chars unit) = false ->
               contains_char "." (number +:+ " " +:+ unit) = false).
    { intros unit Hu. unfold contains_char, number, size_number, fixed_text.
      change (Z.to_nat 0) with 0%nat. cbv iota.
      rewrite !chars_app, !existsb_app, Hu.
      fold (digit_chars (div_half_even (s * 10 ^ Z.of_nat 0) (1024 ^ i))).
      rewrite digits_no_point by apply digit_chars_digits. reflexivity. }
    destruct Ei as [->|[->|[->|[->| ->]]]];
      [change (Z.to_nat 1) with 1%nat | change (Z.to_nat 2) with 2%nat
      |change (Z.to_nat 3) with 3%nat | change (Z.to_nat 4) with 4%nat
      |change (Z.to_nat 5) with 5%nat];
      cbn [nth unit_names]; rewrite Hno by reflexivity; reflexivity.
  - assert (Hyes : forall unit,
               contains_char "." (number +:+ " " +:+ unit) = true).
    { intros unit. apply fixed_text_point. lia. }
    destruct Ei as [->|[->|[->|[->| ->]]]];
      [change (Z.to_nat 1) with 1%nat | change (Z.to_nat 2) with 2%nat
      |change (Z.to_nat 3) with 3%nat | change (Z.to_nat 4) with 4%nat
      |change (Z.to_nat 5) with 5%nat];
      cbn [nth unit_names]; rewrite Hyes.
    + change (number +:+ " " +:+ "KB") with (number +:+ " K" +:+ "B").
      rewrite !rstrip_unit by reflexivity. reflexivity.
    + change (number +:+ " " +:+ "MB") with (number +:+ " M" +:+ "B").
      rewrite !rstrip_unit by reflexivity. reflexivity.
    + change (number +:+ " " +:+ "GB") with (number +:+ " G" +:+ "B").
      rewrite !rstrip_unit by reflexivity. reflexivity.
    + change (number +:+ " " +:+ "TB") with (number +:+ " T" +:+ "B").
      rewrite !rstrip_unit by reflexivity. reflexivity.
    + change (number +:+ " " +:+ "PB") with (number +:+ " P" +:+ "B").
      rewrite !rstrip_unit by reflexivity. reflexivity.
Qed.

(** The text of a size below 1024. *)
Lemma small_size_text s dp :
  0 <= s < 1024 -> bytes_to_human_readable s dp = Ret (digits_of s +:+ " B").
Proof.
  intros Hs. unfold bytes_to_human_readable.
  replace (s <? 0) with false by (symmetry; apply Z.ltb_ge; lia).
  destruct (Z.eqb_spec s 0) as [->|Hne]; [reflexivity|].
  assert (Hs53 : 0 < s < 2 ^ 53).
  { change (2 ^ 53) with 9007199254740992. lia. }
  destruct (scaled_text s 0%nat Hs53) as [Esc _].
  rewrite (unit_index_spec s 0) in Esc
    by (try assumption; try lia; change (1024 ^ (0 + 1)) with 1024; lia).
  rewrite float_of_int_pos by assumption. unfold bind.
  change (length ["B"; "KB"; "MB"; "GB"; "TB"; "PB"] - 1)%nat with 5%nat.
  rewrite Esc. cbn [Z.to_nat nth].
  change (-10 * Z.of_nat 0) with 0.
  rewrite int_of_float_fl by assumption.
  unfold str_of_int.
  replace (s <? 0) with false by (symmetry; apply Z.ltb_ge; lia).
  reflexivity.
Qed.

End SizeText.

(** ** Sizes as text: what [human_readable_to_bytes] reads *)
Module SizeParse.
Import PyFloat PyStr PyFloatParse FloatFacts FormatFacts TextFacts SizeUtils.
Import SizeText.
Import SizeShapes.

Ltac ascii_cases c := destruct c as [[|] [|] [|] [|] [|] [|] [|] [|]].

Lemma is_num_facts c :
  is_num c = true ->
  is_space c = false /\ is_alpha c = false /\ upper_char c = c /\
  Ascii.eqb c "_" = false.
Proof. ascii_cases c; intros H; try discriminate H; repeat split. Qed.

Lemma is_digit_facts c :
  is_digit c = true ->
  is_num c = true /\ Ascii.eqb c "-" = false /\ Ascii.eqb c "+" = false /\
  Ascii.eqb c "I" = false /\ Ascii.eqb c "N" = false /\
  Ascii.eqb c "." = false.
Proof. ascii_cases c; intros H; try discriminate H; repeat split. Qed.

Lemma is_space_facts c :
  is_space c = true ->
  is_num c = false /\ is_alpha c = false /\ upper_char c = c.
Proof. ascii_cases c; intros H; try discriminate H; repeat split. Qed.

Lemma is_alpha_facts c :
  is_alpha c = true ->
  is_num c = false /\ is_space c = false /\ is_alpha (upper_char c) = true /\
  upper_char (upper_char c) = upper_char c.
Proof. ascii_cases c; intros H; try discriminate H; repeat split. Qed.

Lemma not_alpha_upper c : is_alpha c = false -> is_alpha (upper_char c) = false.
Proof. ascii_cases c; intros H; try discriminate H; reflexivity. Qed.

Lemma forallb_map_id (p : ascii -> bool) (f : ascii -> ascii) l :
  (forall c, p c = true -> f c = c) ->
  forallb p l = true -> map f l = l.
Proof.
  intros Hf. induction l as [|c l IH]; [reflexivity|]. cbn [forallb map].
  intros H. apply andb_true_iff in H as [Hc H]. now rewrite Hf, IH.
Qed.

Lemma forallb_imp (p q : ascii -> bool) l :
  (forall c, p c = true -> q c = true) ->
  forallb p l = true -> forallb q l = true.
Proof.
  intros Hpq. rewrite !forallb_forall. intros H x Hx. apply Hpq, H, Hx.
Qed.

Lemma take_drop_while p (l : list ascii) :
  take_while p l ++ drop_while p l = l.
Proof.
  induction l as [|c l IH]; [reflexivity|]. cbn [take_while drop_while].
  destruct (p c); [|reflexivity]. cbn [app]. now f_equal.
Qed.

(** What is left of a text after stripping starts as the text did. *)
Lemma rstrip_by_stops p q l :
  stops_at q l -> stops_at q (rstrip_by p l).
Proof.
  intros H.
  assert (E : l = rstrip_by p l ++ rev (take_while p (rev l))).
  { unfold rstrip_by. rewrite <- rev_app_distr, take_drop_while.
    now rewrite rev_involutive. }
  destruct (rstrip_by p l) as [|c r]; [exact I|].
  rewrite E in H. exact H.
Qed.

Lemma rstrip_by_none p l :
  forallb (fun c => negb (p c)) l = true -> rstrip_by p l = l.
Proof.
  intros H. unfold rstrip_by.
  destruct (rev l) as [|x r] eqn:E.
  - rewrite <- (rev_involutive l), E. reflexivity.
  - assert (Hx : p x = false).
    { rewrite forallb_forall in H. apply negb_true_iff, H.
      apply in_rev. rewrite E. now left. }
    cbn [drop_while]. rewrite Hx, <- E. apply rev_involutive.
Qed.

Lemma strip_none s :
  forallb (fun c => negb (is_space c)) (chars s) = true -> strip s = s.
Proof.
  intros H. unfold strip, lstrip_by.
  assert (E : drop_while is_space (chars s) = chars s).
  { destruct (chars s) as [|c l]; [reflexivity|]. cbn [forallb] in H.
    apply andb_true_iff in H as [Hc _]. apply negb_true_iff in Hc.
    cbn [drop_while]. now rewrite Hc. }
  rewrite E, rstrip_by_none by assumption. apply str_chars.
Qed.

Lemma num_no_space l :
  forallb is_num l = true -> forallb (fun c => negb (is_space c)) l = true.
Proof.
  apply forallb_imp. intros c Hc.
  destruct (is_num_facts c Hc) as (-> & _). reflexivity.
Qed.

Lemma digits_num l : forallb is_digit l = true -> forallb is_num l = true.
Proof.
  apply forallb_imp. intros c Hc. now destruct (is_digit_facts c Hc).
Qed.

(** *** [float()] on the texts the formatter writes *)

(** A text that starts with a digit is neither ["inf"] nor ["nan"]. *)
Lemma parse_float_number s c l :
  chars s = c :: l -> is_digit c = true ->
  forallb is_num (chars s) = true ->
  parse_float s =
  match number (chars s) with
  | Some (mant, k, r) =>
      match exponent r with
      | Some (e, []) => Ret (decimal false mant (e - Z.of_nat k))
      | _ => Raise ValueError
      end
  | None => Raise ValueError
  end.
Proof.
  intros E Hc Hnum. unfold parse_float.
  rewrite strip_none by (now apply num_no_space).
  rewrite E. unfold sign.
  destruct (is_digit_facts c Hc) as (Hn & -> & -> & HI & HN & _).
  destruct (is_num_facts c Hn) as (_ & _ & Hup & _).
  cbn [map str string_of_list_ascii]. rewrite Hup.
  cbn [String.eqb]. rewrite HI, HN. cbn [andb orb]. reflexivity.
Qed.

Lemma parse_float_digits n :
  0 <= n -> parse_float (digits_of n) = Ret (decimal false n 0).
Proof.
  intros Hn.
  destruct (digit_chars_head n) as (c & l & E & Hc).
  rewrite (parse_float_number _ c l E Hc)
    by (apply digits_num, digit_chars_digits).
  fold (digit_chars n). unfold number.
  rewrite <- (app_nil_r (digit_chars n)), digitpart_digits by (try lia; exact I).
  cbn [exponent]. rewrite Z.sub_0_r. reflexivity.
Qed.

Lemma parse_float_fixed dp n :
  (1 <= dp)%nat -> 0 <= n ->
  parse_float (fixed_text dp n) = Ret (round_quotient n (10 ^ Z.of_nat dp)).
Proof.
  intros Hdp Hn.
  assert (H10 : 0 < 10 ^ Z.of_nat dp) by (apply Z.pow_pos_nonneg; lia).
  destruct dp as [|k]; [lia|]. set (dp := S k) in *.
  assert (Echars : chars (fixed_text dp n)
                   = digit_chars (n / 10 ^ Z.of_nat dp)
                     ++ "."%char
                        :: chars (pad_left dp
                                    (digits_of (n mod 10 ^ Z.of_nat dp)))
                        ++ []).
  { unfold fixed_text, dp. rewrite !chars_app, app_nil_r. reflexivity. }
  destruct (digit_chars_head (n / 10 ^ Z.of_nat dp)) as (c & l & E & Hc).
  assert (Hq : 0 <= n / 10 ^ Z.of_nat dp) by (apply Z.div_pos; lia).
  pose proof (Z.mod_pos_bound n (10 ^ Z.of_nat dp) H10) as Hr.
  rewrite (parse_float_number _ c (l ++ "."%char
             :: chars (pad_left dp (digits_of (n mod 10 ^ Z.of_nat dp)))
             ++ [])).
  - rewrite Echars. unfold number.
    rewrite digitpart_digits by (try assumption; split; reflexivity).
    rewrite Ascii.eqb_refl.
    rewrite digitpart_padded by (try lia; exact I).
    cbn [exponent].
    unfold decimal.
    replace (0 <=? 0 - Z.of_nat dp) with false
      by (symmetry; apply Z.leb_gt; unfold dp; lia).
    replace (- (0 - Z.of_nat dp)) with (Z.of_nat dp) by lia.
    do 2 f_equal.
    pose proof (Z.div_mod n (10 ^ Z.of_nat dp) ltac:(lia)). lia.
  - rewrite Echars, E. reflexivity.
  - exact Hc.
  - rewrite Echars, forallb_app. cbn [forallb].
    rewrite (digits_num _ (digit_chars_digits _)). cbn [andb is_num].
    rewrite app_nil_r.
    apply digits_num. unfold pad_left. rewrite chars_app, forallb_app.
    fold (digit_chars (n mod 10 ^ Z.of_nat dp)).
    rewrite digit_chars_digits, andb_true_r.
    generalize (dp - String.length (digits_of (n mod 10 ^ Z.of_nat dp)))%nat.
    intros m. induction m as [|m IH]; [reflexivity|exact IH].
Qed.

(** *** The shape [number, spaces, letters, anything] *)

Lemma upper_idem l :
  forallb is_alpha l = true ->
  map upper_char (map upper_char l) = map upper_char l.
Proof.
  induction l as [|c l IH]; [reflexivity|]. cbn [forallb map].
  intros H. apply andb_true_iff in H as [Hc H].
  destruct (is_alpha_facts c Hc) as (_ & _ & _ & ->). now rewrite IH.
Qed.

Lemma upper_alpha l :
  forallb is_alpha l = true -> forallb is_alpha (map upper_char l) = true.
Proof.
  induction l as [|c l IH]; [reflexivity|]. cbn [forallb map].
  intros H. apply andb_true_iff in H as [Hc H].
  destruct (is_alpha_facts c Hc) as (_ & _ & -> & _). now rewrite IH.
Qed.

Lemma upper_stops l :
  stops_at is_alpha l -> stops_at is_alpha (map upper_char l).
Proof.
  destruct l as [|c l]; [trivial|]. cbn. apply not_alpha_upper.
Qed.

Lemma human_readable_shape number spaces unit rest :
  chars number <> [] -> forallb is_num (chars number) = true ->
  forallb is_space (chars spaces) = true ->
  chars unit <> [] -> forallb is_alpha (chars unit) = true ->
  stops_at is_alpha (chars rest) ->
  human_readable_to_bytes (number +:+ spaces +:+ unit +:+ rest)
  = read_size number unit.
Proof.
  intros Hne Hnum Hsp Hune Hal Hrest.
  set (D := chars number) in *. set (S := chars spaces) in *.
  set (U := chars unit) in *. set (R := chars rest) in *.
  assert (Hchars : chars (number +:+ spaces +:+ unit +:+ rest)
                   = D ++ S ++ U ++ R) by (now rewrite !chars_app).
  (* the first character of the number and the last of the unit stay *)
  destruct D as [|d D'] eqn:ED; [contradiction|].
  cbn [forallb] in Hnum. apply andb_true_iff in Hnum as [Hd HD'].
  destruct (is_num_facts d Hd) as (Hdsp & Hdal & Hdup & _).
  destruct (exists_last Hune) as (U0 & ulast & EU).
  assert (Hul : is_alpha ulast = true).
  { rewrite EU, forallb_app in Hal. cbn in Hal.
    apply andb_true_iff in Hal as [_ Hal]. now rewrite andb_true_r in Hal. }
  destruct (is_alpha_facts ulast Hul) as (_ & Hulsp & _ & _).
  set (R' := rstrip_by is_space R).
  assert (HR' : stops_at is_alpha R') by (now apply rstrip_by_stops).
  assert (Estrip : chars (strip (number +:+ spaces +:+ unit +:+ rest))
                   = (d :: D') ++ S ++ U ++ R').
  { unfold strip, lstrip_by. rewrite chars_str, Hchars.
    cbn [app drop_while]. rewrite Hdsp.
    rewrite EU.
    replace (d :: D' ++ S ++ (U0 ++ [ulast]) ++ R)
      with ((d :: D' ++ S ++ U0) ++ ulast :: R)
      by (cbn [app]; rewrite <- !app_assoc; reflexivity).
    rewrite rstrip_by_keep by assumption. fold R'.
    cbn [app]; rewrite <- !app_assoc; reflexivity. }
  assert (Eupper : chars (upper (strip (number +:+ spaces +:+ unit +:+ rest)))
                   = (d :: D') ++ S ++ map upper_char U ++ map upper_char R').
  { unfold upper. rewrite chars_str, Estrip, !map_app.
    cbn [map]. rewrite Hdup.
    rewrite (forallb_map_id is_num upper_char D')
      by (try assumption; intros c Hc; now destruct (is_num_facts c Hc)).
    rewrite (forallb_map_id is_space upper_char S)
      by (try assumption; intros c Hc; now destruct (is_space_facts c Hc)).
    reflexivity. }
  unfold human_readable_to_bytes, read_size.
  set (text := upper (strip (number +:+ spaces +:+ unit +:+ rest))) in *.
  replace (String.eqb text "") with false.
  2:{ symmetry. apply String.eqb_neq. intros ->. discriminate Eupper. }
  (* the regular expression finds the number and the letters *)
  assert (Hstop1 : stops_at (fun c => is_digit c || Ascii.eqb c ".")
                            (S ++ map upper_char U ++ map upper_char R')).
  { destruct S as [|x S'].
    - rewrite EU, map_app. cbn [app].
      destruct U0 as [|y U0'].
      + cbn. destruct (is_alpha_facts ulast Hul) as (_ & _ & Ha & _).
        destruct (is_alpha_facts _ Ha) as (Hn & _). exact Hn.
      + cbn. rewrite EU in Hal. cbn in Hal.
        apply andb_true_iff in Hal as [Hy _].
        destruct (is_alpha_facts y Hy) as (_ & _ & Ha & _).
        destruct (is_alpha_facts _ Ha) as (Hn & _). exact Hn.
    - cbn. cbn in Hsp. apply andb_true_iff in Hsp as [Hx _].
      destruct (is_space_facts x Hx) as (Hn & _). exact Hn. }
  assert (Hstop2 : stops_at is_space (map upper_char U ++ map upper_char R')).
  { rewrite EU, map_app.
    destruct U0 as [|y U0'].
    - cbn. destruct (is_alpha_facts ulast Hul) as (_ & _ & Ha & _).
      destruct (is_alpha_facts _ Ha) as (_ & Hn & _). exact Hn.
    - cbn. rewrite EU in Hal. cbn in Hal.
      apply andb_true_iff in Hal as [Hy _].
      destruct (is_alpha_facts y Hy) as (_ & _ & Ha & _).
      destruct (is_alpha_facts _ Ha) as (_ & Hn & _). exact Hn. }
  assert (Hmatch : re_match text = Some (number, str (map upper_char U))).
  { unfold re_match. rewrite Eupper.
    set (num := fun c => is_digit c || Ascii.eqb c ".") in *.
    rewrite (take_while_all num), (drop_while_all num)
      by (cbn [forallb]; apply andb_true_iff; split; [exact Hd | exact HD']).
    rewrite (take_while_stops num), (drop_while_stops num) by exact Hstop1.
    rewrite app_nil_r.
    rewrite (drop_while_all is_space) by exact Hsp.
    rewrite (drop_while_stops is_space) by exact Hstop2.
    rewrite (take_while_all is_alpha) by (now apply upper_alpha).
    rewrite (take_while_stops is_alpha) by (now apply upper_stops).
    rewrite app_nil_r.
    destruct (map upper_char U) as [|u1 U1] eqn:EmU.
    { rewrite EU, map_app in EmU. destruct (map upper_char U0); discriminate. }
    rewrite <- ED. unfold D. rewrite str_chars. reflexivity. }
  rewrite Hmatch.
  replace (upper (str (map upper_char U))) with (upper unit).
  - reflexivity.
  - unfold upper. rewrite chars_str, upper_idem by assumption. reflexivity.
Qed.

Lemma units_values u v : lookup_unit u units = Some v -> 0 < v <= 2 ^ 40.
Proof.
  unfold units, lookup_unit.
  repeat match goal with
         | |- (if String.eqb ?k u then _ else _) = _ -> _ =>
             destruct (String.eqb k u);
             [intros [= <-]; vm_compute; split; [reflexivity|discriminate]|]
         end.
  discriminate.
Qed.

(** A whole number of a unit. *)
Lemma read_size_whole n unit :
  0 <= n ->
  n * default 1 (lookup_unit (upper unit) units) < 2 ^ 53 ->
  read_size (digits_of n) unit
  = Ret (n * default 1 (lookup_unit (upper unit) units)).
Proof.
  intros Hn Hbound.
  unfold read_size. rewrite parse_float_digits by assumption.
  unfold bind, decimal. change (0 <=? 0) with true. cbv iota.
  change (10 ^ 0) with 1. rewrite Z.mul_1_r.
  destruct (lookup_unit (upper unit) units) as [v|] eqn:Ev;
    cbn [default from_option] in *.
  - change (id v) with v in *.
    pose proof (units_values _ _ Ev) as Hv.
    assert (Hv53 : v < 2 ^ 53).
    { change (2 ^ 53) with (2 ^ 40 * 8192). lia. }
    rewrite float_of_int_fl by lia.
    destruct (Z.eq_dec n 0) as [->|Hn0]; [reflexivity|].
    assert (n * 1 <= n * v) by (apply Z.mul_le_mono_nonneg_l; lia).
    assert (0 < n * v) by (apply Z.mul_pos_pos; lia).
    rewrite round_quotient_1 by lia.
    rewrite fmul_fl by lia. change (0 + 0) with 0.
    rewrite int_of_float_fl by lia. reflexivity.
  - rewrite Z.mul_1_r in *.
    destruct (Z.eq_dec n 0) as [->|Hn0]; [reflexivity|].
    rewrite round_quotient_1 by lia.
    rewrite int_of_float_fl by lia. reflexivity.
Qed.

Lemma fixed_text_num dp n :
  chars (fixed_text dp n) <> [] /\ forallb is_num (chars (fixed_text dp n)) = true.
Proof.
  unfold fixed_text. destruct dp as [|k].
  - split; [apply digit_chars_nonempty|].
    apply digits_num, digit_chars_digits.
  - rewrite !chars_app. split.
    + pose proof (digit_chars_nonempty (n / 10 ^ Z.of_nat (S k))) as H.
      unfold digit_chars in H.
      destruct (chars (digits_of (n / 10 ^ Z.of_nat (S k)))); [contradiction|].
      discriminate.
    + rewrite !forallb_app.
      fold (digit_chars (n / 10 ^ Z.of_nat (S k))).
      rewrite (digits_num _ (digit_chars_digits _)).
      change (forallb is_num (chars ".")) with true. cbn [andb].
      apply digits_num. unfold pad_left. rewrite chars_app, forallb_app.
      fold (digit_chars (n mod 10 ^ Z.of_nat (S k))).
      rewrite digit_chars_digits, andb_true_r.
      generalize (S k - String.length
                           (digits_of (n mod 10 ^ Z.of_nat (S k))))%nat.
      intros m. induction m as [|m IH]; [reflexivity|exact IH].
Qed.

End SizeParse.

(** ** Sizes as text: there and back *)
Module RoundTrip.
Import PyFloat PyStr PyFloatParse FloatFacts FormatFacts TextFacts SizeUtils.
Import SizeText SizeParse.
Import SizeShapes.

(** Rounding to the nearest integer is off by half at most. *)
Lemma div_half_even_bounds x d :
  0 < d -> - d <= 2 * d * div_half_even x d - 2 * x <= d.
Proof.
  intros Hd. unfold div_half_even.
  pose proof (Z.div_mod x d ltac:(lia)) as E.
  pose proof (Z.mod_pos_bound x d Hd) as B.
  destruct (Z.compare_spec (2 * (x mod d)) d) as [C|C|C];
    [destruct (Z.even (x / d))| |]; nia.
Qed.

Lemma rne_bounds n d :
  0 < d -> - d <= 2 * d * rne n d - 2 * n <= d.
Proof.
  intros Hd.
  pose proof (Z.div_mod n d ltac:(lia)) as E.
  pose proof (Z.mod_pos_bound n d Hd) as B.
  destruct (rne_cases n d Hd) as [[-> H]|[-> H]]; nia.
Qed.

(** The arithmetic of the round trip: [N] is the printed number, [q] the
    mantissa read back, [R] the bytes it is cut to. *)
Lemma trip_bound s N P B q K T R :
  0 < P -> 0 < B -> 0 < K -> 1 <= T ->
  - B <= 2 * B * N - 2 * (s * P) <= B ->
  - (K * P) <= 2 * (K * P) * q - 2 * (N * (T * K * B)) <= K * P ->
  R * T <= q < (R + 1) * T ->
  - (B + 3 * P) < 2 * P * (R - s) <= B + P.
Proof.
  intros HP HB HK HT [Hn1 Hn2] [Hq1 Hq2] [HR1 HR2].
  assert (Hq1' : - P <= 2 * P * q - 2 * (N * (T * B))).
  { assert (K * (- P) <= K * (2 * P * q - 2 * (N * (T * B)))) by nia.
    apply Z.mul_le_mono_pos_l in H; assumption. }
  assert (Hq2' : 2 * P * q - 2 * (N * (T * B)) <= P).
  { assert (K * (2 * P * q - 2 * (N * (T * B))) <= K * P) by nia.
    apply Z.mul_le_mono_pos_l in H; assumption. }
  assert (Hn1' : - (B * T) <= 2 * (N * (T * B)) - 2 * (s * P * T)) by nia.
  assert (Hn2' : 2 * (N * (T * B)) - 2 * (s * P * T) <= B * T) by nia.
  split.
  - (* (R + 1) T > q *)
    assert (H1 : 2 * P * q < 2 * P * ((R + 1) * T)) by nia.
    assert (H2 : T * (2 * P * (s - R - 1)) < T * (B + P)) by nia.
    apply Z.mul_lt_mono_pos_l in H2; lia.
  - assert (H1 : 2 * P * (R * T) <= 2 * P * q) by nia.
    assert (H2 : T * (2 * P * (R - s)) <= T * (B + P)) by nia.
    apply Z.mul_le_mono_pos_l in H2; lia.
Qed.

(** Multiplying by a power of two raises the exponent. *)
Lemma fmul_pow2 m e j :
  2 ^ 52 <= Zpos m < 2 ^ 53 -> 0 <= j -> -1000 <= e -> e + j <= 900 ->
  fmul (S754_finite false m e) (fl 1 j) = S754_finite false m (e + j).
Proof.
  intros Hm Hj He Hej.
  unfold fmul, SFmul, fl. simpl xorb.
  change (Zdigits2 1) with 1. change (1 * 2 ^ (53 - 1)) with (2 ^ 52).
  rewrite Pos2Z.inj_mul.
  change (Zpos (Z.to_pos (2 ^ 52))) with (2 ^ 52).
  assert (Hd : Zdigits2 (Zpos m * 2 ^ 52) = 105).
  { rewrite digits_mul_pow2 by lia.
    rewrite (Zdigits2_unique (Zpos m) 53) by (try lia; exact Hm). reflexivity. }
  destruct (binary_round_aux_exact (Zpos m * 2 ^ 52) (e + (j + 1 - 53)))
    as [E _]; rewrite ?Hd; try lia.
  { change (105 - 53) with 52. apply Z.mod_mul.
    change (2 ^ 52) with 4503599627370496. lia. }
  rewrite E, Hd. change (105 - 53) with 52.
  rewrite Z.div_mul by (change (2 ^ 52) with 4503599627370496; lia).
  rewrite Pos2Z.id. f_equal. lia.
Qed.

(** The bytes read back from a printed number [N / P] of the unit [1024^i],
    against the size [s] the number was rounded from. *)
Lemma read_back N P i s :
  0 < P -> Zdigits2 P <= 500 -> 1 <= N <= 1024 * P -> 1 <= i <= 4 ->
  - 1024 ^ i <= 2 * 1024 ^ i * N - 2 * (s * P) <= 1024 ^ i ->
  exists R,
    int_of_float (fmul (round_quotient N P) (fl 1 (10 * i))) = Ret R /\
    - (1024 ^ i + 3 * P) < 2 * P * (R - s) <= 1024 ^ i + P.
Proof.
  intros HP HdP HN Hi HNs.
  pose proof (Zdigits2_pos P HP) as HdP1.
  pose proof (Zdigits2_pos N ltac:(lia)) as HdN1.
  pose proof (Zdigits2_bounds P HP) as [_ HPhi].
  assert (HdN : Zdigits2 N <= Zdigits2 P + 10).
  { apply Zdigits2_le; [lia|]. rewrite Z.pow_add_r by lia.
    change (2 ^ 10) with 1024. lia. }
  set (sg := 53 - Zdigits2 N + Zdigits2 P).
  assert (Hsg : 43 <= sg <= 552) by (unfold sg; lia).
  destruct (round_quotient_spec N P ltac:(lia) HP ltac:(fold sg; lia))
    as (m3 & e3 & E & Hv & He & Hm & Hk).
  fold sg in Hv, He, Hk.
  set (k := Zdigits2 (N * 2 ^ sg / P) - 53) in *.
  assert (H2s : 0 < 2 ^ sg) by (apply Z.pow_pos_nonneg; lia).
  assert (H2k : 0 < 2 ^ k) by (apply Z.pow_pos_nonneg; lia).
  (* the scaled quotient is below 2^(sg + 10) *)
  assert (Hqpos : 0 < N * 2 ^ sg / P).
  { apply Z.div_str_pos. split; [lia|].
    pose proof (scaled_quotient_bounds N P ltac:(lia) HP ltac:(fold sg; lia))
      as [Hlo _]. fold sg in Hlo.
    assert (0 < N * 2 ^ sg / P) by lia.
    destruct (Z.lt_ge_cases (N * 2 ^ sg) P) as [Hlt|]; [|assumption].
    rewrite Z.div_small in H by nia. lia. }
  assert (Hsk : 42 <= sg - k).
  { pose proof (Zdigits2_bounds _ Hqpos) as [Hlo _].
    replace (Zdigits2 (N * 2 ^ sg / P) - 1) with (52 + k) in Hlo
      by (unfold k; lia).
    assert (Hup : N * 2 ^ sg / P <= 2 ^ (sg + 10)).
    { apply Z.div_le_upper_bound; [lia|].
      rewrite Z.pow_add_r by lia. change (2 ^ 10) with 1024. nia. }
    assert (Hpow : 2 ^ (52 + k) <= 2 ^ (sg + 10)) by lia.
    apply Z.pow_le_mono_r_iff in Hpow; lia. }
  set (Ex := sg - k - 10 * i).
  assert (HEx : 2 <= Ex) by (unfold Ex; lia).
  set (T := 2 ^ Ex).
  assert (HT : 1 <= T).
  { unfold T. pose proof (Z.pow_pos_nonneg 2 Ex ltac:(lia) ltac:(lia)). lia. }
  set (B := 1024 ^ i) in *.
  assert (EB : B = 2 ^ (10 * i)).
  { unfold B. change 1024 with (2 ^ 10). rewrite <- Z.pow_mul_r by lia.
    reflexivity. }
  assert (HB : 0 < B) by (rewrite EB; apply Z.pow_pos_nonneg; lia).
  assert (Esg : 2 ^ sg = T * 2 ^ k * B).
  { unfold T. rewrite EB, <- !Z.pow_add_r by lia. f_equal. unfold Ex. lia. }
  set (q := rne (N * 2 ^ sg) (2 ^ k * P)) in *.
  rewrite E.
  rewrite fmul_pow2 by (try lia; exact Hm).
  cbn [int_of_float].
  exists (Z.shiftl (Zpos m3) (e3 + 10 * i)). split; [reflexivity|].
  (* the result is the mantissa [q] cut by [T] *)
  assert (ER : Z.shiftl (Zpos m3) (e3 + 10 * i) = q / T).
  { destruct (Z.eq_dec e3 (k - sg)) as [->|Hne].
    - replace (k - sg - (k - sg)) with 0 in Hv by lia.
      rewrite Z.pow_0_r, Z.mul_1_r in Hv. rewrite Hv.
      rewrite Z.shiftl_div_pow2 by (unfold Ex in HEx; lia).
      unfold T. do 2 f_equal. unfold Ex. lia.
    - assert (e3 = k - sg + 1) by lia. subst e3.
      replace (k - sg + 1 - (k - sg)) with 1 in Hv by lia.
      change (2 ^ 1) with 2 in Hv.
      rewrite Z.shiftl_div_pow2 by (unfold Ex in HEx; lia).
      rewrite <- Hv. unfold T.
      replace Ex with (1 + (Ex - 1)) by lia.
      rewrite Z.pow_add_r by lia. change (2 ^ 1) with 2.
      rewrite (Z.mul_comm (Zpos m3) 2).
      pose proof (Z.pow_pos_nonneg 2 (Ex - 1) ltac:(lia) ltac:(lia)).
      rewrite Z.div_mul_cancel_l by lia.
      do 2 f_equal. unfold Ex. lia. }
  rewrite ER.
  apply (trip_bound s N P B q (2 ^ k) T (q / T)); try assumption.
  - pose proof (rne_bounds (N * 2 ^ sg) (2 ^ k * P) ltac:(nia)) as Hq.
    fold q in Hq. rewrite Esg in Hq. exact Hq.
  - split.
    + rewrite Z.mul_comm. apply Z.mul_div_le. lia.
    + rewrite Z.mul_comm. apply Z.mul_succ_div_gt. lia.
Qed.

End RoundTrip.

(** ** Sizes as text: the properties *)
Module SizeTextProps.
Import PyFloat PyStr PyFloatParse FloatFacts FormatFacts TextFacts SizeUtils.
Import SizeText SizeParse RoundTrip.
Import SizeShapes.

(** X1. What [bytes_to_human_readable] prints for a size below 2^53. A size
    below 1024 is printed as its digits and [" B"], whatever the number of
    decimal places. A size of [i >= 1] whole factors 1024 is printed as the
    size divided by [1024^i], rounded to the decimal places (ties to even),
    with all its decimal places: no trailing zero is removed, since the text
    that is stripped ends in the unit. With no decimal places the unit
    follows once; with one or more it follows twice. *)
Theorem human_readable_text :
  (forall s dp, 0 <= s < 1024 ->
     bytes_to_human_readable s dp = Ret (digits_of s +:+ " B")) /\
  (forall s dp i,
     0 < s < 2 ^ 53 -> 1 <= i <= 5 ->
     1024 ^ i <= s -> (i < 5 -> s < 1024 ^ (i + 1)) -> 0 <= dp ->
     bytes_to_human_readable s dp =
     Ret (let number :=
            fixed_text (Z.to_nat dp)
              (div_half_even (s * 10 ^ Z.of_nat (Z.to_nat dp)) (1024 ^ i)) in
          let unit := nth (Z.to_nat i) ["B"; "KB"; "MB"; "GB"; "TB"; "PB"] "" in
          if dp =? 0 then number +:+ " " +:+ unit
          else (number +:+ " " +:+ unit) +:+ " " +:+ unit)).
Proof.
  split.
  - apply small_size_text.
  - intros s dp i Hs Hi Hlo Hhi Hdp.
    apply (large_size_text s dp i Hs Hi Hlo Hhi Hdp).
Qed.

Lemma human_readable_text_witness :
  bytes_to_human_readable 1023 2 = Ret "1023 B" /\
  bytes_to_human_readable 1536 2 = Ret "1.50 KB KB" /\
  bytes_to_human_readable 1536 0 = Ret "2 KB" /\
  bytes_to_human_readable 1048575 1 = Ret "1024.0 KB KB".
Proof.
  destruct human_readable_text as [Hsmall Hlarge].
  split; [|split; [|split]].
  - rewrite Hsmall by lia. reflexivity.
  - rewrite (Hlarge 1536 2 1) by (vm_compute; intuition congruence).
    reflexivity.
  - rewrite (Hlarge 1536 0 1) by (vm_compute; intuition congruence).
    reflexivity.
  - rewrite (Hlarge 1048575 1 1) by (vm_compute; intuition congruence).
    reflexivity.
Defined.

(** X2. Sizes below 1024 come back exactly: the text of a size from 0 to
    1023 is read as that size, for any number of decimal places. The text
    for a negative size is read as 0. *)
Theorem round_trip_below_1024 :
  forall s dp,
    s < 1024 -> round_trip s dp = Ret (Z.max 0 s).
Proof.
  intros s dp Hs. unfold round_trip.
  destruct (Z.ltb_spec s 0) as [Hneg|Hpos].
  - unfold bytes_to_human_readable.
    replace (s <? 0) with true by (symmetry; apply Z.ltb_lt; lia).
    rewrite Z.max_l by lia. reflexivity.
  - rewrite small_size_text by lia. unfold bind.
    change (digits_of s +:+ " B") with (digits_of s +:+ " " +:+ "B" +:+ "").
    rewrite human_readable_shape;
      [| apply digit_chars_nonempty | apply digits_num, digit_chars_digits
       | reflexivity | discriminate | reflexivity | exact I].
    rewrite read_size_whole.
    + change (default 1 (lookup_unit (upper "B") units)) with 1.
      rewrite Z.mul_1_r, Z.max_r by lia. reflexivity.
    + lia.
    + change (default 1 (lookup_unit (upper "B") units)) with 1.
      change (2 ^ 53) with 9007199254740992. lia.
Qed.

Lemma round_trip_below_1024_witness :
  round_trip 1023 2 = Ret 1023 /\ round_trip (-5) 2 = Ret 0.
Proof.
  split.
  - rewrite round_trip_below_1024 by lia. reflexivity.
  - rewrite round_trip_below_1024 by lia. reflexivity.
Defined.

Lemma pow10_digits dp : 0 <= dp <= 100 -> Zdigits2 (10 ^ dp) <= 500.
Proof.
  intros Hdp.
  assert (H10 : 0 < 10 ^ dp) by (apply Z.pow_pos_nonneg; lia).
  apply Zdigits2_le; [assumption|].
  apply Z.lt_le_trans with (2 ^ (4 * dp + 1)).
  - rewrite Z.pow_add_r, Z.pow_mul_r by lia. change (2 ^ 4) with 16.
    change (2 ^ 1) with 2.
    assert (10 ^ dp <= 16 ^ dp) by (apply Z.pow_le_mono_l; lia). lia.
  - apply Z.pow_le_mono_r; lia.
Qed.

(** X3. Sizes from 1 KiB up to, not including, 1 PiB come back within the
    tolerance of the printed decimal places: with [dp >= 1] decimal places
    and the unit [1024^i], what is read back differs from the size by less
    than half a step of the last decimal place, [1024^i / (2 * 10^dp)]
    bytes, plus one and a half bytes for the cut to an integer. *)
Theorem round_trip_within_tolerance :
  forall s dp i,
    1 <= i <= 4 -> 1024 ^ i <= s < 1024 ^ (i + 1) -> 1 <= dp <= 100 ->
    exists r,
      round_trip s dp = Ret r /\
      - (1024 ^ i + 3 * 10 ^ dp) < 2 * 10 ^ dp * (r - s) <= 1024 ^ i + 10 ^ dp.
Proof.
  intros s dp i Hi Hs Hdp.
  assert (HB : 0 < 1024 ^ i) by (apply Z.pow_pos_nonneg; lia).
  assert (Hs53 : 0 < s < 2 ^ 53).
  { split; [lia|]. apply Z.lt_le_trans with (1024 ^ (i + 1)); [lia|].
    change 1024 with (2 ^ 10). rewrite <- Z.pow_mul_r by lia.
    apply Z.pow_le_mono_r; lia. }
  assert (HP : 0 < 10 ^ dp) by (apply Z.pow_pos_nonneg; lia).
  set (P := 10 ^ dp) in *. set (B := 1024 ^ i) in *.
  set (N := div_half_even (s * P) B).
  pose proof (div_half_even_bounds (s * P) B HB) as HN. fold N in HN.
  assert (HsB : s < 1024 * B).
  { unfold B. replace (1024 * 1024 ^ i) with (1024 ^ (i + 1)); [lia|].
    rewrite Z.pow_add_r by lia. change (1024 ^ 1) with 1024. lia. }
  assert (HN1 : 1 <= N <= 1024 * P) by nia.
  destruct (read_back N P i s HP (pow10_digits dp ltac:(lia)) HN1 Hi HN)
    as (R & ER & Hbound).
  exists R. split; [|exact Hbound].
  unfold round_trip.
  rewrite (large_size_text s dp i) by (try assumption; lia).
  replace (dp =? 0) with false by (symmetry; apply Z.eqb_neq; lia).
  unfold bind. cbv zeta.
  assert (Hnum : size_number s i (Z.to_nat dp) = fixed_text (Z.to_nat dp) N).
  { unfold size_number, N, P, B. rewrite Z2Nat.id by lia. reflexivity. }
  rewrite Hnum.
  destruct (fixed_text_num (Z.to_nat dp) N) as [Hne Hall].
  assert (Hparse : parse_float (fixed_text (Z.to_nat dp) N)
                   = Ret (round_quotient N P)).
  { rewrite parse_float_fixed by lia. unfold P. rewrite Z2Nat.id by lia.
    reflexivity. }
  assert (Ei : i = 1 \/ i = 2 \/ i = 3 \/ i = 4) by lia.
  destruct Ei as [->|[->|[->| ->]]].
  - change (nth (Z.to_nat 1) unit_names "") with "KB".
    rewrite append_assoc.
    change ((" " +:+ "KB") +:+ " " +:+ "KB") with (" " +:+ "KB" +:+ " KB").
    rewrite human_readable_shape by (try assumption; try reflexivity; discriminate).
    unfold read_size. rewrite Hparse. unfold bind.
    change (lookup_unit (upper "KB") units) with (Some 1024).
    cbv beta iota.
    change (float_of_int 1024) with (Ret (fl 1 (10 * 1))).
    cbv beta iota. rewrite ER. reflexivity.
  - change (nth (Z.to_nat 2) unit_names "") with "MB".
    rewrite append_assoc.
    change ((" " +:+ "MB") +:+ " " +:+ "MB") with (" " +:+ "MB" +:+ " MB").
    rewrite human_readable_shape by (try assumption; try reflexivity; discriminate).
    unfold read_size. rewrite Hparse. unfold bind.
    change (lookup_unit (upper "MB") units) with (Some (1024 * 1024)).
    cbv beta iota.
    change (float_of_int (1024 * 1024)) with (Ret (fl 1 (10 * 2))).
    cbv beta iota. rewrite ER. reflexivity.
  - change (nth (Z.to_nat 3) unit_names "") with "GB".
    rewrite append_assoc.
    change ((" " +:+ "GB") +:+ " " +:+ "GB") with (" " +:+ "GB" +:+ " GB").
    rewrite human_readable_shape by (try assumption; try reflexivity; discriminate).
    unfold read_size. rewrite Hparse. unfold bind.
    change (lookup_unit (upper "GB") units) with (Some (1024 * 1024 * 1024)).
    cbv beta iota.
    change (float_of_int (1024 * 1024 * 1024)) with (Ret (fl 1 (10 * 3))).
    cbv beta iota. rewrite ER. reflexivity.
  - change (nth (Z.to_nat 4) unit_names "") with "TB".
    rewrite append_assoc.
    change ((" " +:+ "TB") +:+ " " +:+ "TB") with (" " +:+ "TB" +:+ " TB").
    rewrite human_readable_shape by (try assumption; try reflexivity; discriminate).
    unfold read_size. rewrite Hparse. unfold bind.
    change (lookup_unit (upper "TB") units)
      with (Some (1024 * 1024 * 1024 * 1024)).
    cbv beta iota.
    change (float_of_int (1024 * 1024 * 1024 * 1024))
      with (Ret (fl 1 (10 * 4))).
    cbv beta iota. rewrite ER. reflexivity.
Qed.

Lemma round_trip_within_tolerance_witness :
  exists r,
    round_trip 123456789 2 = Ret r /\
    - (1024 ^ 2 + 3 * 10 ^ 2) < 2 * 10 ^ 2 * (r - 123456789)
    <= 1024 ^ 2 + 10 ^ 2.
Proof.
  apply (round_trip_within_tolerance 123456789 2 2);
    vm_compute; intuition congruence.
Defined.



End SizeTextProps.

(** ** [SystemUtils.format_size] and the other functions of [SizeUtils] *)
Module SizeToolsProps.
Import PyFloat PyStr PyFloatParse FloatFacts FormatFacts TextFacts SizeUtils.
Import SizeText SizeParse RoundTrip SizeTools SystemUtils.
Import SizeShapes.

(** The loop of [format_size] on the float of [A / 1024^i], [i] units being
    passed already. *)
Lemma format_size_loop_fl A :
  0 < A < 2 ^ 53 ->
  forall names i,
    Z.of_nat i <= (Zdigits2 A - 1) / 10 ->
    format_size_loop names (fl A (-10 * Z.of_nat i))
    = let u := Z.to_nat (Z.min (Z.of_nat (i + length names))
                               ((Zdigits2 A - 1) / 10)) in
      format_fixed 2 (fl A (-10 * Z.of_nat u))
      +:+ " " +:+ nth (u - i) (names ++ ["PB"]) "".
Proof.
  intros HA.
  pose proof (Zdigits2_pos A ltac:(lia)) as HdA1.
  pose proof (Zdigits2_le A 53 ltac:(lia) ltac:(lia)) as HdA.
  set (L := (Zdigits2 A - 1) / 10).
  assert (HL : 10 * L <= Zdigits2 A - 1 < 10 * L + 10).
  { unfold L. pose proof (Z.div_mod (Zdigits2 A - 1) 10 ltac:(lia)).
    pose proof (Z.mod_pos_bound (Zdigits2 A - 1) 10 ltac:(lia)). lia. }
  induction names as [|name names IH]; intros i Hi; cbv zeta.
  - cbn [format_size_loop length app]. rewrite Nat.add_0_r.
    replace (Z.min (Z.of_nat i) L) with (Z.of_nat i) by lia.
    rewrite Nat2Z.id, Nat.sub_diag. reflexivity.
  - cbn [format_size_loop length]. unfold flt.
    rewrite f1024_fl, flt_fl_pow2 by assumption.
    destruct (Z.ltb_spec (-10 * Z.of_nat i + Zdigits2 A - 1) 10) as [Hlt|Hge].
    + replace (Z.min (Z.of_nat (i + S (length names))) L) with (Z.of_nat i)
        by lia.
      rewrite Nat2Z.id, Nat.sub_diag. reflexivity.
    + rewrite fdiv_fl_pow2 by (try assumption; lia).
      replace (-10 * Z.of_nat i - 10) with (-10 * Z.of_nat (S i)) by lia.
      rewrite IH by lia. cbv zeta.
      replace (S i + length names)%nat with (i + S (length names))%nat by lia.
      set (u := Z.to_nat (Z.min (Z.of_nat (i + S (length names))) L)).
      assert (Hu : (S i <= u)%nat) by (unfold u; lia).
      replace (u - i)%nat with (S (u - S i)) by lia.
      reflexivity.
Qed.

(** X5. What [format_size] prints for a size below 2^53: the size divided by
    [1024^i], [i] being the number of whole factors 1024 in it (five at
    most), rounded to two decimal places, ties to even, then a space and the
    unit. The rounding can reach 1024: 1048575 bytes are ["1024.00 KB"]. *)
Theorem format_size_text :
  format_size 0 = Ret "0.00 B" /\
  forall s i,
    0 < s < 2 ^ 53 -> 0 <= i <= 5 ->
    1024 ^ i <= s -> (i < 5 -> s < 1024 ^ (i + 1)) ->
    format_size s =
    Ret (fixed_text 2 (div_half_even (s * 100) (1024 ^ i))
         +:+ " " +:+ nth (Z.to_nat i) ["B"; "KB"; "MB"; "GB"; "TB"; "PB"] "").
Proof.
  split; [reflexivity|].
  intros s i Hs Hi Hlo Hhi.
  pose proof (Zdigits2_pos s ltac:(lia)) as Hd1.
  assert (H0 : 0 <= (Zdigits2 s - 1) / 10) by (apply Z.div_pos; lia).
  unfold format_size. rewrite float_of_int_fl by assumption. unfold bind.
  pose proof (format_size_loop_fl s Hs ["B"; "KB"; "MB"; "GB"; "TB"] 0%nat
                ltac:(cbn; lia)) as E.
  change (-10 * Z.of_nat 0) with 0 in E. rewrite E. cbv zeta.
  change (0 + length ["B"; "KB"; "MB"; "GB"; "TB"])%nat with 5%nat.
  change (Z.of_nat 5) with 5.
  fold (unit_index s). rewrite (unit_index_spec s i) by assumption.
  rewrite Nat.sub_0_r, Z2Nat.id by lia.
  replace (-10 * i) with (- (10 * i)) by lia.
  rewrite format_fixed_fl by lia.
  change (10 ^ Z.of_nat 2) with 100.
  replace (2 ^ (10 * i)) with (1024 ^ i)
    by (change 1024 with (2 ^ 10); rewrite <- Z.pow_mul_r by lia; reflexivity).
  reflexivity.
Qed.

Lemma format_size_text_witness :
  format_size 1536 = Ret "1.50 KB" /\
  format_size 1048575 = Ret "1024.00 KB" /\
  format_size 1125899906842624 = Ret "1.00 PB".
Proof.
  destruct format_size_text as [_ H].
  split; [|split].
  - rewrite (H 1536 1) by (vm_compute; intuition congruence). reflexivity.
  - rewrite (H 1048575 1) by (vm_compute; intuition congruence). reflexivity.
  - rewrite (H 1125899906842624 5) by (vm_compute; intuition congruence).
    reflexivity.
Defined.

(** *** [add_sizes], [get_size_category], [format_percentage] *)

Lemma fold_left_add l : forall a, fold_left Z.add l a = a + fold_left Z.add l 0.
Proof.
  induction l as [|x l IH]; intros a; cbn [fold_left]; [lia|].
  rewrite (IH (a + x)), (IH (0 + x)). lia.
Qed.

Lemma add_sizes_cons x l :
  add_sizes (x :: l) = (if 0 <=? x then x else 0) + add_sizes l.
Proof.
  unfold add_sizes. cbn [List.filter].
  destruct (0 <=? x).
  - cbn [fold_left]. rewrite fold_left_add.
    destruct (List.filter _ l); cbn [fold_left]; lia.
  - destruct (List.filter _ l); reflexivity.
Qed.

Lemma add_sizes_nonneg l : 0 <= add_sizes l.
Proof.
  induction l as [|x l IH]; [reflexivity|]. rewrite add_sizes_cons.
  destruct (Z.leb_spec 0 x); lia.
Qed.

(** X6. [add_sizes] is the sum of the entries that are not negative: it is
    never negative, it is additive over concatenation, a negative entry
    counts for nothing, and no valid entry exceeds the sum. *)
Theorem add_sizes_sums_the_valid :
  forall l1 l2 x,
    0 <= add_sizes l1 /\
    add_sizes (l1 ++ l2) = add_sizes l1 + add_sizes l2 /\
    (x < 0 -> add_sizes (l1 ++ x :: l2) = add_sizes (l1 ++ l2)) /\
    (0 <= x -> In x l1 -> x <= add_sizes l1).
Proof.
  intros l1 l2 x.
  assert (Happ : forall a b, add_sizes (a ++ b) = add_sizes a + add_sizes b).
  { intros a b. induction a as [|y a IH]; [reflexivity|].
    cbn [app]. rewrite !add_sizes_cons, IH. lia. }
  split; [apply add_sizes_nonneg|]. split; [apply Happ|]. split.
  - intros Hx. rewrite !Happ, add_sizes_cons.
    replace (0 <=? x) with false by (symmetry; apply Z.leb_gt; lia). lia.
  - intros Hx Hin. induction l1 as [|y l IH]; [contradiction|].
    rewrite add_sizes_cons. pose proof (add_sizes_nonneg l).
    destruct Hin as [->|Hin].
    + replace (0 <=? x) with true by (symmetry; apply Z.leb_le; lia). lia.
    + specialize (IH Hin). destruct (Z.leb_spec 0 y); lia.
Qed.

Lemma add_sizes_sums_the_valid_witness :
  add_sizes [3; -7; 4] = add_sizes [3; 4] /\ 4 <= add_sizes [3; -7; 4].
Proof.
  destruct (add_sizes_sums_the_valid [3] [4] (-7)) as (_ & _ & Hneg & _).
  destruct (add_sizes_sums_the_valid [3; -7; 4] [] 4) as (_ & _ & _ & Hle).
  split.
  - apply Hneg. lia.
  - apply Hle; [lia|]. right. right. left. reflexivity.
Defined.

(** X7. The size categories are ranges: sizes between two sizes of one
    category are of that category. The ranges are: negative, zero, below
    10 KiB, below 1 MiB, below 100 MiB, below 1 GiB, and from 1 GiB on. *)
Theorem size_categories_are_ranges :
  forall a s b,
    a <= s <= b ->
    get_size_category a = get_size_category b ->
    get_size_category s = get_size_category a.
Proof.
  intros a s b Hs. unfold get_size_category, KB, MB, GB.
  destruct (Z.ltb_spec a 0); destruct (Z.eqb_spec a 0);
    destruct (Z.ltb_spec a (10 * 1024));
    destruct (Z.ltb_spec a (1 * (1024 * 1024)));
    destruct (Z.ltb_spec a (100 * (1024 * 1024)));
    destruct (Z.ltb_spec a (1 * (1024 * 1024 * 1024)));
    try lia;
    destruct (Z.ltb_spec b 0); destruct (Z.eqb_spec b 0);
    destruct (Z.ltb_spec b (10 * 1024));
    destruct (Z.ltb_spec b (1 * (1024 * 1024)));
    destruct (Z.ltb_spec b (100 * (1024 * 1024)));
    destruct (Z.ltb_spec b (1 * (1024 * 1024 * 1024)));
    try lia; try discriminate;
    intros _;
    destruct (Z.ltb_spec s 0); destruct (Z.eqb_spec s 0);
    destruct (Z.ltb_spec s (10 * 1024));
    destruct (Z.ltb_spec s (1 * (1024 * 1024)));
    destruct (Z.ltb_spec s (100 * (1024 * 1024)));
    destruct (Z.ltb_spec s (1 * (1024 * 1024 * 1024)));
    try lia; reflexivity.
Qed.

Lemma size_categories_are_ranges_witness :
  get_size_category 5000 = get_size_category 1.
Proof.
  apply (size_categories_are_ranges 1 5000 10239); [lia | reflexivity].
Defined.

(** X8. [format_percentage] answers ["0%"] when the total is not positive or
    the part is negative, without dividing. With one decimal place, a part
    equal to the total gives ["100%"] and a part of 0 gives ["0%"], the
    [".0"] being cut off. *)
Theorem format_percentage_ends :
  (forall part total dp,
      total <= 0 \/ part < 0 -> format_percentage part total dp = Ret "0%") /\
  (forall total,
      0 < total < 2 ^ 900 ->
      format_percentage total total 1 = Ret "100%" /\
      format_percentage 0 total 1 = Ret "0%").
Proof.
  split.
  - intros part total dp H. unfold format_percentage.
    destruct (Z.leb_spec total 0); [reflexivity|].
    destruct (Z.ltb_spec part 0); [reflexivity|]. lia.
  - intros total Ht. unfold format_percentage.
    replace (total <=? 0) with false by (symmetry; apply Z.leb_gt; lia).
    replace (total <? 0) with false by (symmetry; apply Z.ltb_ge; lia).
    cbn [orb]. change (0 <? 0) with false. unfold int_truediv.
    replace (total =? 0) with false by (symmetry; apply Z.eqb_neq; lia).
    split.
    + rewrite round_quotient_self by assumption. reflexivity.
    + destruct total as [|p|p]; try lia. reflexivity.
Qed.

Lemma format_percentage_ends_witness :
  format_percentage 5 0 1 = Ret "0%" /\
  format_percentage 7 7 1 = Ret "100%" /\
  format_percentage 0 7 1 = Ret "0%".
Proof.
  destruct format_percentage_ends as [Hguard Hends].
  split; [|split].
  - apply Hguard. left. lia.
  - apply (Hends 7). vm_compute. intuition congruence.
  - apply (Hends 7). vm_compute. intuition congruence.
Defined.

End SizeToolsProps.

(** ** Size ranges as text *)
Module SizeRangeProps.
Import PyFloat PyStr PyFloatParse FloatFacts FormatFacts TextFacts SizeUtils.
Import SizeText SizeParse RoundTrip SizeTools.
Import SizeShapes.

Lemma size_char_no_dash c :
  is_size_char c = true -> negb (Ascii.eqb "-" c) = true.
Proof. ascii_cases c; intros H; try discriminate H; reflexivity. Qed.

Lemma num_size_char l :
  forallb is_num l = true -> forallb is_size_char l = true.
Proof.
  apply forallb_imp. intros c Hc. unfold is_size_char. now rewrite Hc.
Qed.

Lemma size_text_of number tail pre :
  chars number <> [] -> forallb is_num (chars number) = true ->
  (exists c l, chars number = c :: l /\ is_digit c = true) ->
  chars tail = pre ++ ["B"%char] -> forallb is_size_char (chars tail) = true ->
  size_text (number +:+ tail).
Proof.
  intros Hne Hnum (c & l & E & Hc) Htail Hsz.
  exists c, (l ++ pre). repeat split.
  - rewrite chars_app, E, Htail. cbn [app]. now rewrite app_assoc.
  - exact Hc.
  - rewrite chars_app, forallb_app, Hsz, andb_true_r. now apply num_size_char.
Qed.

Lemma fixed_text_head dp n :
  exists c l, chars (fixed_text dp n) = c :: l /\ is_digit c = true.
Proof.
  unfold fixed_text. destruct dp as [|k].
  - apply digit_chars_head.
  - destruct (digit_chars_head (n / 10 ^ Z.of_nat (S k))) as (c & l & E & Hc).
    rewrite chars_app. unfold digit_chars in E. rewrite E.
    eexists _, _. split; [reflexivity | exact Hc].
Qed.

(** The text of every size below 2^53, to two decimal places, is such a
    text. *)
Lemma human_readable_size_text s :
  0 <= s < 2 ^ 53 ->
  exists t, bytes_to_human_readable s 2 = Ret t /\ size_text t.
Proof.
  intros Hs.
  destruct (Z.lt_ge_cases s 1024) as [Hsmall|Hlarge].
  - exists (digits_of s +:+ " B"). split; [apply small_size_text; lia|].
    apply (size_text_of _ _ [" "%char]).
    + apply digit_chars_nonempty.
    + apply digits_num, digit_chars_digits.
    + apply digit_chars_head.
    + reflexivity.
    + reflexivity.
  - pose proof (Zdigits2_pos s ltac:(lia)) as Hd1.
    pose proof (Zdigits2_le s 53 ltac:(lia) ltac:(lia)) as Hd53.
    pose proof (Zdigits2_bounds s ltac:(lia)) as [Blo Bhi].
    assert (Hd11 : 11 <= Zdigits2 s).
    { apply Zdigits2_ge; [lia|]. change (2 ^ (11 - 1)) with 1024. lia. }
    set (i := Z.min 5 ((Zdigits2 s - 1) / 10)).
    assert (HL : 10 * ((Zdigits2 s - 1) / 10) <= Zdigits2 s - 1
                 < 10 * ((Zdigits2 s - 1) / 10) + 10).
    { pose proof (Z.div_mod (Zdigits2 s - 1) 10 ltac:(lia)).
      pose proof (Z.mod_pos_bound (Zdigits2 s - 1) 10 ltac:(lia)). lia. }
    assert (Hi : 1 <= i <= 5) by (unfold i; lia).
    assert (Hlo : 1024 ^ i <= s).
    { change 1024 with (2 ^ 10). rewrite <- Z.pow_mul_r by lia.
      apply Z.le_trans with (2 ^ (Zdigits2 s - 1)); [|assumption].
      apply Z.pow_le_mono_r; unfold i; lia. }
    assert (Hhi : i < 5 -> s < 1024 ^ (i + 1)).
    { intros Hlt. change 1024 with (2 ^ 10). rewrite <- Z.pow_mul_r by lia.
      apply Z.lt_le_trans with (2 ^ Zdigits2 s); [assumption|].
      apply Z.pow_le_mono_r; unfold i in *; lia. }
    rewrite (large_size_text s 2 i) by (try assumption; lia).
    change (2 =? 0) with false. cbv zeta iota.
    eexists. split; [reflexivity|].
    rewrite append_assoc.
    destruct (fixed_text_num 2 (div_half_even (s * 10 ^ Z.of_nat 2) (1024 ^ i)))
      as [Hne Hnum].
    assert (Ei : i = 1 \/ i = 2 \/ i = 3 \/ i = 4 \/ i = 5) by lia.
    unfold size_number. change (Z.to_nat 2) with 2%nat.
    destruct Ei as [->|[->|[->|[->| ->]]]].
    + eapply (size_text_of _ _ (chars " KB K"));
        [exact Hne | exact Hnum | apply fixed_text_head
        | reflexivity | reflexivity].
    + eapply (size_text_of _ _ (chars " MB M"));
        [exact Hne | exact Hnum | apply fixed_text_head
        | reflexivity | reflexivity].
    + eapply (size_text_of _ _ (chars " GB G"));
        [exact Hne | exact Hnum | apply fixed_text_head
        | reflexivity | reflexivity].
    + eapply (size_text_of _ _ (chars " TB T"));
        [exact Hne | exact Hnum | apply fixed_text_head
        | reflexivity | reflexivity].
    + eapply (size_text_of _ _ (chars " PB P"));
        [exact Hne | exact Hnum | apply fixed_text_head
        | reflexivity | reflexivity].
Qed.

(** Nothing is stripped from a text whose ends are not white space. *)
Lemma strip_ends s c l l' x :
  chars s = c :: l -> chars s = l' ++ [x] ->
  is_space c = false -> is_space x = false -> strip s = s.
Proof.
  intros E1 E2 Hc Hx. unfold strip, lstrip_by.
  rewrite E1. cbn [drop_while]. rewrite Hc, <- E1, E2.
  rewrite rstrip_by_last by assumption. rewrite <- E2. apply str_chars.
Qed.

Lemma space_strip_left s c l :
  chars s = c :: l -> is_space c = false ->
  strip (" " +:+ s) = strip s.
Proof.
  intros E Hc. unfold strip, lstrip_by. rewrite chars_app.
  change (chars " ") with [" "%char]. cbn [app drop_while].
  change (is_space " ") with true. cbv iota. reflexivity.
Qed.

Lemma space_strip_right s l x :
  chars s = l ++ [x] -> is_space x = false ->
  strip (s +:+ " ") = strip s.
Proof.
  intros E Hx. unfold strip, lstrip_by. rewrite chars_app.
  change (chars " ") with [" "%char]. rewrite E.
  destruct l as [|c l].
  - cbn [app drop_while]. rewrite Hx. unfold rstrip_by. cbn [rev app drop_while].
    change (is_space " ") with true. cbv iota. reflexivity.
  - cbn [app drop_while].
    destruct (is_space c) eqn:Hc.
    + (* the white space at the left end is dropped on both sides alike *)
      clear E.
      assert (G : forall k, drop_while is_space ((k ++ [x]) ++ [" "%char])
                            = drop_while is_space (k ++ [x]) ++ [" "%char]).
      { induction k as [|y k IH]; cbn [app drop_while].
        - now rewrite Hx.
        - destruct (is_space y); [exact IH | reflexivity]. }
      rewrite G.
      assert (Hd : exists k, drop_while is_space (l ++ [x]) = k ++ [x]).
      { clear G. induction l as [|y l IH]; cbn [app drop_while].
        - rewrite Hx. now exists [].
        - destruct (is_space y); [exact IH|]. now exists (y :: l). }
      destruct Hd as (k & ->).
      rewrite <- app_assoc. cbn [app].
      rewrite rstrip_by_keep by assumption.
      rewrite rstrip_by_last by assumption.
      unfold rstrip_by. cbn [rev app drop_while].
      change (is_space " ") with true. cbv iota. reflexivity.
    + change (c :: (l ++ [x]) ++ [" "%char])
        with ((c :: l) ++ x :: [" "%char])
        || (rewrite <- app_assoc; cbn [app]).
      change (c :: l ++ x :: [" "%char]) with ((c :: l) ++ x :: [" "%char]).
      rewrite rstrip_by_keep by assumption.
      change (c :: l ++ [x]) with ((c :: l) ++ [x]).
      rewrite rstrip_by_last by assumption.
      unfold rstrip_by. cbn [rev app drop_while].
      change (is_space " ") with true. cbv iota. reflexivity.
Qed.

Lemma size_text_facts t :
  size_text t ->
  strip t = t /\ strip (" " +:+ t) = t /\ strip (t +:+ " ") = t /\
  forallb (fun x => negb (Ascii.eqb "-" x)) (chars t) = true /\
  contains_char "-" t = false /\
  String.eqb t "" = false /\
  startswith_char ">" t = false /\ startswith_char "<" t = false.
Proof.
  intros (c & body & E & Hc & Hall).
  destruct (is_digit_facts c Hc) as (Hn & _).
  destruct (is_num_facts c Hn) as (Hsp & _).
  assert (Hstrip : strip t = t).
  { apply (strip_ends t c (body ++ ["B"%char]) (c :: body) "B");
      try assumption; reflexivity. }
  assert (Hnd : forallb (fun x => negb (Ascii.eqb "-" x)) (chars t) = true).
  { revert Hall. apply forallb_imp. apply size_char_no_dash. }
  repeat split.
  - exact Hstrip.
  - rewrite (space_strip_left t c (body ++ ["B"%char])) by assumption.
    exact Hstrip.
  - rewrite (space_strip_right t (c :: body) "B") by (try assumption; reflexivity).
    exact Hstrip.
  - exact Hnd.
  - unfold contains_char. clear E.
    induction (chars t) as [|x l IH]; [reflexivity|].
    cbn [forallb existsb] in *. apply andb_true_iff in Hnd as [Hx Hl].
    apply andb_true_iff in Hall as [_ Hall].
    apply negb_true_iff in Hx. rewrite Hx. cbn [orb]. now apply IH.
  - apply String.eqb_neq. intros ->. discriminate E.
  - destruct t as [|x t]; [reflexivity|]. cbn in E. injection E as -> _.
    cbn [startswith_char]. revert Hc. clear. ascii_cases c; intros H; try discriminate H; reflexivity.
  - destruct t as [|x t]; [reflexivity|]. cbn in E. injection E as -> _.
    cbn [startswith_char]. revert Hc. clear. ascii_cases c; intros H; try discriminate H; reflexivity.
Qed.

(** X9. A size range that is printed and parsed comes back as the two sizes,
    each printed and read: [parse_size_filter] on the text of
    [format_size_range a b] gives what the round trip of [a] and the round
    trip of [b] give, also when the two ends are equal and the text holds
    one size only. *)
Theorem size_range_reads_back :
  forall a b ra rb,
    0 <= a < 2 ^ 53 -> 0 <= b < 2 ^ 53 ->
    round_trip a 2 = Ret ra -> round_trip b 2 = Ret rb ->
    (text <- format_size_range a b ;; parse_size_filter text)
    = Ret (ra, Bytes rb).
Proof.
  intros a b ra rb Ha Hb Hra Hrb.
  destruct (human_readable_size_text a Ha) as (ta & Eta & Hta).
  destruct (human_readable_size_text b Hb) as (tb & Etb & Htb).
  unfold round_trip in Hra, Hrb. rewrite Eta in Hra. rewrite Etb in Hrb.
  unfold bind in Hra, Hrb.
  destruct (size_text_facts ta Hta)
    as (Sa & Sla & Sra & Nda & Ca & Nea & Gta & Lta).
  destruct (size_text_facts tb Htb)
    as (Sb & Slb & Srb & Ndb & Cb & Neb & Gtb & Ltb).
  unfold format_size_range.
  replace (a <? 0) with false by (symmetry; apply Z.ltb_ge; lia).
  replace (b <? 0) with false by (symmetry; apply Z.ltb_ge; lia).
  cbn [orb].
  destruct (Z.eqb_spec a b) as [->|Hne].
  - (* one size *)
    rewrite Eta in Etb. injection Etb as <-.
    rewrite Eta. unfold bind, parse_size_filter.
    rewrite Nea, Sa, Ca, Gta, Lta, Hra. cbn [bind].
    rewrite Hra in Hrb. injection Hrb as <-. reflexivity.
  - rewrite Eta, Etb. unfold bind, parse_size_filter.
    destruct Hta as (c & body & Ea & Hc & _).
    destruct Htb as (c' & body' & Eb & Hc' & _).
    destruct (is_digit_facts c Hc) as (Hn & _).
    destruct (is_num_facts c Hn) as (Hsp & _).
    assert (Etext : chars (ta +:+ " - " +:+ tb)
                    = chars ta ++ " "%char :: "-"%char :: " "%char :: chars tb).
    { rewrite !chars_app. reflexivity. }
    assert (Hstrip : strip (ta +:+ " - " +:+ tb) = ta +:+ " - " +:+ tb).
    { apply (strip_ends _ c
               (body ++ "B"%char :: " "%char :: "-"%char :: " "%char
                     :: chars tb)
               (chars ta ++ " "%char :: "-"%char :: " "%char :: c' :: body')
               "B").
      - rewrite Etext, Ea. cbn [app]. now rewrite <- app_assoc.
      - rewrite Etext, Eb. rewrite <- app_assoc. reflexivity.
      - exact Hsp.
      - reflexivity. }
    replace (String.eqb (ta +:+ " - " +:+ tb) "") with false.
    2:{ symmetry. apply String.eqb_neq. intros E0.
        apply (f_equal chars) in E0. rewrite Etext, Ea in E0. discriminate E0. }
    rewrite Hstrip.
    replace (contains_char "-" (ta +:+ " - " +:+ tb)) with true.
    2:{ unfold contains_char. rewrite Etext, existsb_app. cbn [existsb].
        rewrite Ascii.eqb_refl. cbn [orb]. now rewrite !orb_true_r. }
    unfold split_once. rewrite Etext.
    set (nd := fun x => negb (Ascii.eqb "-" x)) in *.
    rewrite (take_while_all nd), (drop_while_all nd) by exact Nda.
    cbn [take_while drop_while]. change (nd " "%char) with true.
    change (nd "-"%char) with false. cbv iota. cbn [tl fst snd].
    replace (str (chars ta ++ [" "%char])) with (ta +:+ " ")
      by (rewrite str_app, str_chars; reflexivity).
    replace (str (" "%char :: chars tb)) with (" " +:+ tb)
      by (change (" "%char :: chars tb) with ([" "%char] ++ chars tb);
          rewrite str_app, str_chars; reflexivity).
    rewrite Sra, Slb, Hra. cbn [bind]. rewrite Hrb. reflexivity.
Qed.

Lemma size_range_reads_back_witness :
  (text <- format_size_range 512 1536 ;; parse_size_filter text)
  = Ret (512, Bytes 1536) /\
  (text <- format_size_range 7 7 ;; parse_size_filter text)
  = Ret (7, Bytes 7).
Proof.
  split.
  - apply (size_range_reads_back 512 1536 512 1536);
      vm_compute; intuition congruence.
  - apply (size_range_reads_back 7 7 7 7);
      vm_compute; intuition congruence.
Defined.

End SizeRangeProps.

(** ** Wildcard patterns *)
Module GlobProps.
Import PyStr PyRe ScannerWalk TextFacts SizeParse.
Import SizeShapes Glob.

Lemma chars_replace old new s :
  chars (replace old new s)
  = flat_map (fun c => if Ascii.eqb c old then chars new else [c]) (chars s).
Proof. unfold replace. apply chars_str. Qed.

Lemma replaced_thrice l :
  flat_map (fun c => if Ascii.eqb c "?" then chars "." else [c])
    (flat_map (fun c => if Ascii.eqb c "*" then chars ".*" else [c])
       (flat_map (fun c => if Ascii.eqb c "." then chars "\." else [c]) l))
  = flat_map expression_of l.
Proof.
  induction l as [|c l IH]; [reflexivity|].
  cbn [flat_map]. rewrite !flat_map_app, IH. f_equal.
  unfold expression_of.
  destruct (Ascii.eqb_spec c ".") as [->|H1]; [reflexivity|].
  cbn [flat_map app].
  destruct (Ascii.eqb_spec c "*") as [->|H2]; [reflexivity|].
  cbn [flat_map app].
  destruct (Ascii.eqb_spec c "?") as [->|H3]; reflexivity.
Qed.

Lemma expression_no_star_first l :
  match flat_map expression_of l with
  | d :: _ => Ascii.eqb d "*" = false \/ is_glob_char d = false
  | [] => True
  end.
Proof.
  destruct l as [|c l]; [exact I|]. cbn [flat_map]. unfold expression_of.
  destruct (Ascii.eqb_spec c ".") as [->|H1]; [left; reflexivity|].
  destruct (Ascii.eqb_spec c "*") as [->|H2]; [left; reflexivity|].
  destruct (Ascii.eqb_spec c "?") as [->|H3]; [left; reflexivity|].
  cbn [app]. left. now apply Ascii.eqb_neq.
Qed.

Lemma tokens_expression l :
  forallb is_glob_char l = true ->
  tokens (flat_map expression_of l) = Some (map token_of l).
Proof.
  induction l as [|c l IH]; [reflexivity|]. cbn [forallb]. intros Hl.
  apply andb_true_iff in Hl as [Hc Hl]. specialize (IH Hl).
  pose proof (expression_no_star_first l) as Hfirst.
  cbn [flat_map map]. unfold expression_of at 1, token_of at 1.
  destruct (Ascii.eqb_spec c ".") as [->|H1].
  { change (chars "\.") with ["\"%char; "."%char]. cbn [app tokens].
    change (Ascii.eqb "\" "\") with true. change (Ascii.eqb "." ".") with true.
    cbv iota. now rewrite IH. }
  destruct (Ascii.eqb_spec c "*") as [->|H2].
  { change (chars ".*") with ["."%char; "*"%char]. cbn [app tokens].
    change (Ascii.eqb "." "\") with false. change (Ascii.eqb "." ".") with true.
    change (Ascii.eqb "*" "*") with true.
    cbv iota. now rewrite IH. }
  destruct (Ascii.eqb_spec c "?") as [->|H3].
  { change (chars ".") with ["."%char]. cbn [app].
    destruct (flat_map expression_of l) as [|d r] eqn:E.
    - cbn [tokens]. change (Ascii.eqb "." "\") with false.
      change (Ascii.eqb "." ".") with true. cbv iota.
      cbn [tokens] in IH. injection IH as <-. reflexivity.
    - cbn [tokens]. change (Ascii.eqb "." "\") with false.
      change (Ascii.eqb "." ".") with true. cbv iota.
      destruct Hfirst as [Hd|Hd].
      + rewrite Hd. fold tokens. cbn [tokens] in IH |- *.
        now rewrite IH.
      + destruct (Ascii.eqb_spec d "*") as [->|_]; [discriminate Hd|].
        fold tokens. cbn [tokens] in IH |- *. now rewrite IH. }
  cbn [app tokens].
  assert (Hlit : is_literal c = true).
  { unfold is_glob_char in Hc.
    apply Ascii.eqb_neq in H2, H3. rewrite H2, H3, !orb_false_r in Hc.
    exact Hc. }
  unfold is_literal in Hlit. apply andb_true_iff in Hlit as [Hascii Hsp].
  apply Ascii.eqb_neq in H1. rewrite H1, orb_false_r in Hsp.
  apply negb_true_iff in Hsp.
  assert (Hbs : Ascii.eqb c "\" = false).
  { destruct (Ascii.eqb_spec c "\") as [->|]; [discriminate Hsp|reflexivity]. }
  rewrite Hbs, H1, Hsp, Hascii. cbn [negb orb]. now rewrite IH.
Qed.

(** What [_match_pattern] computes on the patterns and names of the model. *)
Lemma match_pattern_tokens filename pattern :
  forallb is_ascii (chars filename) = true ->
  forallb is_glob_char (chars pattern) = true ->
  _match_pattern filename pattern
  = Some (match_here (map token_of (chars pattern)) (chars filename)).
Proof.
  intros Hf Hp. unfold _match_pattern, re_match_ignorecase.
  rewrite Hf, !chars_app. change (chars "^") with ["^"%char].
  change (chars "$") with ["$"%char].
  cbn [app]. change (Ascii.eqb "^" "^") with true. cbv iota.
  rewrite rev_app_distr. cbn [rev app].
  change (Ascii.eqb "$" "$") with true. cbv iota.
  rewrite rev_involutive, !chars_replace, replaced_thrice.
  now rewrite tokens_expression.
Qed.

Lemma literal_token c : is_literal c = true -> token_of c = Char c.
Proof.
  unfold is_literal, token_of. intros Hc.
  destruct (Ascii.eqb_spec c ".") as [E1|E1]; [now rewrite E1|].
  destruct (Ascii.eqb_spec c "*") as [E2|E2]; [now rewrite E2 in Hc|].
  destruct (Ascii.eqb_spec c "?") as [E3|E3]; [now rewrite E3 in Hc|].
  reflexivity.
Qed.

Lemma literal_tokens l :
  forallb is_literal l = true -> map token_of l = map Char l.
Proof.
  induction l as [|c l IH]; [reflexivity|]. cbn [forallb map]. intros Hl.
  apply andb_true_iff in Hl as [Hc Hl]. now rewrite literal_token, IH.
Qed.

Lemma literal_glob l :
  forallb is_literal l = true -> forallb is_glob_char l = true.
Proof.
  apply forallb_imp. intros c Hc. unfold is_glob_char. now rewrite Hc.
Qed.

Lemma name_ascii l :
  forallb is_name_char l = true -> forallb is_ascii l = true.
Proof.
  apply forallb_imp. intros c Hc. unfold is_name_char in Hc.
  now apply andb_true_iff in Hc as [? _].
Qed.

Lemma name_no_newline l :
  forallb is_name_char l = true ->
  forallb (fun x => negb (Ascii.eqb x newline)) l = true.
Proof.
  apply forallb_imp. intros c Hc. unfold is_name_char in Hc.
  now apply andb_true_iff in Hc as [_ ?].
Qed.

(** Literal characters match the text that is the same up to case. *)
Lemma match_literal l s :
  forallb (fun x => negb (Ascii.eqb x newline)) s = true ->
  match_here (map Char l) s = true <-> map lower_char s = map lower_char l.
Proof.
  revert s. induction l as [|c l IH]; intros s Hs.
  - cbn [map match_here]. destruct s as [|x [|y s]]; cbn [at_end map].
    + tauto.
    + cbn [forallb] in Hs. rewrite andb_true_r in Hs.
      apply negb_true_iff in Hs. rewrite Hs. split; discriminate.
    + split; discriminate.
  - cbn [map match_here]. destruct s as [|x s]; cbn [map].
    + split; discriminate.
    + cbn [forallb] in Hs. apply andb_true_iff in Hs as [_ Hs].
      rewrite andb_true_iff, (IH s Hs). unfold same_letter.
      split.
      * intros [Hx ->]. apply Ascii.eqb_eq in Hx. now rewrite Hx.
      * intros E. injection E as -> ->. split; [apply Ascii.eqb_refl|reflexivity].
Qed.

Lemma match_literal_then l p s :
  match_here (map Char l ++ p) s = true <->
  exists a b, s = a ++ b /\ map lower_char a = map lower_char l /\
              match_here p b = true.
Proof.
  revert s. induction l as [|c l IH]; intros s.
  - cbn [map app]. split.
    + intros Hm. now exists [], s.
    + intros (a & b & -> & Ha & Hm). destruct a; [exact Hm|discriminate Ha].
  - cbn [map app match_here]. destruct s as [|x s].
    + split; [discriminate|].
      intros (a & b & E & Ha & _). destruct a; [discriminate Ha|discriminate E].
    + rewrite andb_true_iff, IH. unfold same_letter. split.
      * intros (Hx & a & b & -> & Ha & Hm). apply Ascii.eqb_eq in Hx.
        exists (x :: a), b. cbn [app map]. now rewrite Ha, Hx.
      * intros (a & b & E & Ha & Hm). destruct a as [|y a]; [discriminate Ha|].
        cbn [app map] in E, Ha. injection E as <- ->. injection Ha as Hy Ha.
        split; [now apply Ascii.eqb_eq|]. now exists a, b.
Qed.

(** [.*] takes any stretch of the text without a line break. *)
Lemma match_star p s :
  forallb (fun x => negb (Ascii.eqb x newline)) s = true ->
  match_here (AnyStar :: p) s = true <->
  exists a b, s = a ++ b /\ match_here p b = true.
Proof.
  cbn [match_here]. induction s as [|x s IH]; intros Hs.
  - rewrite orb_false_r. split.
    + intros Hm. now exists [], [].
    + intros (a & b & E & Hm). symmetry in E.
      apply app_eq_nil in E as [_ ->]. exact Hm.
  - cbn [forallb] in Hs. apply andb_true_iff in Hs as [Hx Hs].
    rewrite Hx, andb_true_l, orb_true_iff, (IH Hs). split.
    + intros [Hm|(a & b & -> & Hm)].
      * now exists [], (x :: s).
      * now exists (x :: a), b.
    + intros ([|y a] & b & E & Hm); cbn [app] in E.
      * left. now rewrite E.
      * right. injection E as <- ->. now exists a, b.
Qed.

Lemma lower_chars s : chars (lower s) = map lower_char (chars s).
Proof. unfold lower. apply chars_str. Qed.

(** X10. A pattern without wildcards matches the names that are the same
    up to the case of the letters, and no others. *)
Theorem pattern_without_wildcard :
  forall name pattern,
    forallb is_name_char (chars name) = true ->
    forallb is_literal (chars pattern) = true ->
    _match_pattern name pattern = Some (bool_decide (lower name = lower pattern)).
Proof.
  intros name pattern Hn Hp.
  rewrite match_pattern_tokens
    by (try apply name_ascii; try apply literal_glob; assumption).
  rewrite literal_tokens by assumption. f_equal.
  pose proof (match_literal (chars pattern) (chars name)
                (name_no_newline _ Hn)) as Hm.
  destruct (match_here _ _).
  - symmetry. apply bool_decide_eq_true. apply chars_inj.
    rewrite !lower_chars. now apply Hm.
  - symmetry. apply bool_decide_eq_false. intros E.
    apply (f_equal chars) in E. rewrite !lower_chars in E.
    apply Hm in E. discriminate E.
Qed.

Lemma pattern_without_wildcard_witness :
  _match_pattern "Thumbs.DB" "thumbs.db" = Some true /\
  _match_pattern "thumbsxdb" "thumbs.db" = Some false.
Proof.
  split.
  - rewrite (pattern_without_wildcard "Thumbs.DB" "thumbs.db");
      reflexivity.
  - rewrite (pattern_without_wildcard "thumbsxdb" "thumbs.db");
      reflexivity.
Defined.

(** X11. A pattern with one [*] matches the names that begin with what
    stands before the star and go on to end with what stands after it, up to
    the case of the letters, and no others: [*.tmp] the names that end in
    [.tmp], [~*] those that begin with [~], [*] all of them. *)
Theorem pattern_with_one_star :
  forall name before after,
    forallb is_name_char (chars name) = true ->
    forallb is_literal (chars before) = true ->
    forallb is_literal (chars after) = true ->
    exists b,
      _match_pattern name (before +:+ "*" +:+ after) = Some b /\
      (b = true <->
       exists middle, lower name = lower before +:+ middle +:+ lower after).
Proof.
  intros name before after Hn Hb Ha.
  pose proof (name_no_newline _ Hn) as Hnl.
  rewrite match_pattern_tokens; cycle 1.
  { now apply name_ascii. }
  { rewrite !chars_app, !forallb_app.
    rewrite (literal_glob _ Hb), (literal_glob _ Ha). reflexivity. }
  eexists. split; [reflexivity|].
  rewrite !chars_app, !map_app.
  rewrite (literal_tokens _ Hb), (literal_tokens _ Ha).
  change (map token_of (chars "*")) with [AnyStar]. cbn [app].
  rewrite match_literal_then. split.
  - intros (a & b & E & Hpre & Hm).
    assert (Hbnl : forallb (fun x => negb (Ascii.eqb x newline)) b = true).
    { rewrite E, forallb_app in Hnl. now apply andb_true_iff in Hnl as [_ ?]. }
    apply (match_star _ _ Hbnl) in Hm as (m & c & -> & Hm).
    assert (Hcnl : forallb (fun x => negb (Ascii.eqb x newline)) c = true).
    { rewrite forallb_app in Hbnl. now apply andb_true_iff in Hbnl as [_ ?]. }
    apply (match_literal _ _ Hcnl) in Hm.
    exists (str (map lower_char m)). apply chars_inj.
    rewrite !chars_app, !lower_chars, chars_str, E, !map_app.
    now rewrite Hpre, Hm.
  - intros (middle & E). apply (f_equal chars) in E.
    rewrite !chars_app, !lower_chars in E.
    (* cut the name where the pattern puts the star *)
    set (n1 := length (map lower_char (chars before))).
    set (n2 := length (chars middle)).
    exists (firstn n1 (chars name)), (skipn n1 (chars name)).
    split; [now rewrite firstn_skipn|]. split.
    + rewrite <- firstn_map, E. apply take_app_length.
    + assert (Hsk : forallb (fun x => negb (Ascii.eqb x newline))
                            (skipn n1 (chars name)) = true).
      { rewrite <- (firstn_skipn n1 (chars name)), forallb_app in Hnl.
        now apply andb_true_iff in Hnl as [_ ?]. }
      apply (match_star _ _ Hsk).
      exists (firstn n2 (skipn n1 (chars name))),
             (skipn n2 (skipn n1 (chars name))).
      split; [now rewrite firstn_skipn|].
      assert (Hsk2 : forallb (fun x => negb (Ascii.eqb x newline))
                             (skipn n2 (skipn n1 (chars name))) = true).
      { rewrite <- (firstn_skipn n2 (skipn n1 (chars name))), forallb_app
          in Hsk. now apply andb_true_iff in Hsk as [_ ?]. }
      apply (match_literal _ _ Hsk2).
      rewrite <- !skipn_map, E.
      unfold n1. rewrite drop_app_length.
      unfold n2. now rewrite drop_app_length.
Qed.

Lemma pattern_with_one_star_witness :
  exists b,
    _match_pattern "Setup.TMP" ("" +:+ "*" +:+ ".tmp") = Some b /\
    (b = true <->
     exists middle, lower "Setup.TMP" = lower "" +:+ middle +:+ lower ".tmp").
Proof.
  apply (pattern_with_one_star "Setup.TMP" "" ".tmp"); reflexivity.
Defined.

End GlobProps.

(** ** The walk of one scan target *)
Module ScanWalkProps.
Import PyStr Scanner ScannerWalk ScanReport.

(** Induction over the entries of a tree, with the entries of a listing. *)
Lemma fs_entry_listing_ind (P : fs_entry -> Prop)
      (Hfile : forall name stat, P (FsFile name stat))
      (Hnone : forall name, P (FsDir name None))
      (Hdir : forall name items, Forall P items -> P (FsDir name (Some items)))
      (Hother : forall name, P (FsOther name)) :
  forall item, P item.
Proof.
  fix IH 1. intros [name stat|name [items|]|name].
  - apply Hfile.
  - apply Hdir. induction items as [|item items IHitems].
    + constructor.
    + constructor; [apply IH | exact IHitems].
  - apply Hnone.
  - apply Hother.
Qed.

(** *** The counters of a result *)

Lemma counted_insert (m : gmap string (Z * Z)) k v :
  counted (<[k := v]> m) = fst v + counted m - fst (default (0, 0) (m !! k)).
Proof.
  unfold counted. destruct (m !! k) as [old|] eqn:E; cbn [default].
  - rewrite (map_fold_delete_L _ _ k old m) by (try exact E; intros; lia).
    rewrite <- insert_delete_eq.
    rewrite map_fold_insert_L
      by (try apply lookup_delete_eq; intros; lia).
    cbv beta. unfold id. lia.
  - rewrite map_fold_insert_L by (try exact E; intros; lia). cbn. lia.
Qed.

Lemma sized_insert (m : gmap string (Z * Z)) k v :
  sized (<[k := v]> m) = snd v + sized m - snd (default (0, 0) (m !! k)).
Proof.
  unfold sized. destruct (m !! k) as [old|] eqn:E; cbn [default].
  - rewrite (map_fold_delete_L _ _ k old m) by (try exact E; intros; lia).
    rewrite <- insert_delete_eq.
    rewrite map_fold_insert_L
      by (try apply lookup_delete_eq; intros; lia).
    cbv beta. unfold id. lia.
  - rewrite map_fold_insert_L by (try exact E; intros; lia). cbn. lia.
Qed.

Lemma new_Found_balanced target : balanced (new_Found target).
Proof. split; reflexivity. Qed.

Lemma add_file_balanced f p s t m :
  balanced f -> balanced (add_file f p s t m).
Proof.
  intros [Hc Hs]. unfold balanced, add_file. cbn [result files file_types total_size].
  rewrite length_app, Nat2Z.inj_add. cbn [length].
  destruct (file_types (result f) !! t) as [[c z]|] eqn:E.
  - rewrite counted_insert, sized_insert, E. cbn [from_option fst snd].
    unfold id. cbn [fst snd]. lia.
  - rewrite counted_insert, sized_insert, E. cbn [from_option fst snd].
    unfold id. cbn [fst snd]. lia.
Qed.

Lemma add_hits_balanced hits f :
  balanced f -> balanced (fold_left add_hit hits f).
Proof.
  revert f. induction hits as [|[[[p s] t] m] hits IH]; intros f Hf; [exact Hf|].
  cbn [fold_left add_hit]. apply IH. now apply add_file_balanced.
Qed.

Lemma add_hits_files hits f :
  files (result (fold_left add_hit hits f))
  = files (result f) ++ map hit_path hits.
Proof.
  revert f. induction hits as [|[[[p s] t] m] hits IH]; intros f.
  - cbn. now rewrite app_nil_r.
  - cbn [fold_left add_hit map hit_path]. rewrite IH.
    cbn [add_file result files]. now rewrite <- app_assoc.
Qed.

Lemma add_hits_target hits f :
  target (result (fold_left add_hit hits f)) = target (result f).
Proof.
  revert f. induction hits as [|[[[p s] t] m] hits IH]; intros f; [reflexivity|].
  cbn [fold_left add_hit]. now rewrite IH.
Qed.

Lemma add_hits_app h1 h2 f :
  fold_left add_hit (h1 ++ h2) f = fold_left add_hit h2 (fold_left add_hit h1 f).
Proof. apply fold_left_app. Qed.

Section Run.
Context `{OsPath}.
Variable abort_requested : nat -> bool.
Variable now : nat -> Z.
Variable match_pattern : string -> string -> res bool.

Lemma any_match_true filename patterns :
  any_match match_pattern filename patterns = Ret true ->
  exists pattern, In pattern patterns /\
                  match_pattern filename pattern = Ret true.
Proof.
  induction patterns as [|p ps IH]; cbn [any_match]; [discriminate|].
  destruct (match_pattern filename p) as [[|]|e] eqn:E; cbn [bind].
  - intros _. exists p. split; [now left | exact E].
  - intros Hm. destruct (IH Hm) as (q & Hq & Eq). exists q.
    split; [now right | exact Eq].
  - discriminate.
Qed.

Lemma any_match_false filename patterns :
  any_match match_pattern filename patterns = Ret false ->
  forall pattern, In pattern patterns ->
                  match_pattern filename pattern = Ret false.
Proof.
  induction patterns as [|p ps IH]; cbn [any_match].
  - intros _ q [].
  - destruct (match_pattern filename p) as [[|]|e] eqn:E; cbn [bind];
      try discriminate.
    intros Hm q [<-|Hq]; [exact E | now apply IH].
Qed.

Lemma nonempty_true {A : Type} (l : list A) : nonempty l = true <-> l <> [].
Proof. destruct l; cbn; split; congruence. Qed.

Lemma reports_nothing target filter_obj directory items w w' :
  found w' = found w -> reports now match_pattern target filter_obj directory items w w'.
Proof. intros E. exists []. split; [exact E | constructor]. Qed.

Lemma reports_more target filter_obj directory items items' w w' :
  (forall x, In x items -> In x items') ->
  reports now match_pattern target filter_obj directory items w w' ->
  reports now match_pattern target filter_obj directory items' w w'.
Proof.
  intros Hsub (hits & E & Hh). exists hits. split; [exact E|].
  eapply Forall_impl; [exact Hh|]. cbn beta. intros h [Hc Hin].
  split; [exact Hc|]. apply in_flat_map in Hin as (x & Hx & Hin).
  apply in_flat_map. exists x. split; [now apply Hsub | exact Hin].
Qed.

Lemma reports_trans target filter_obj directory items w1 w2 w3 :
  reports now match_pattern target filter_obj directory items w1 w2 ->
  reports now match_pattern target filter_obj directory items w2 w3 ->
  reports now match_pattern target filter_obj directory items w1 w3.
Proof.
  intros (h1 & E1 & H1) (h2 & E2 & H2). exists (h1 ++ h2).
  rewrite add_hits_app, <- E1, <- E2. split; [reflexivity|].
  apply Forall_app. now split.
Qed.

(** [_process_file] reports nothing, or the file it was given. *)
Lemma process_file_reports target directory name stat filter_obj w :
  reports now match_pattern target filter_obj directory [FsFile name stat] w
          (fst (_process_file now match_pattern target (path_join directory name) stat
                              filter_obj w)).
Proof.
  unfold _process_file.
  set (p := path_join directory name). set (filename := path_basename p).
  destruct (if nonempty (patterns target)
            then any_match match_pattern filename (patterns target) else Ret true)
    as [is_match|e] eqn:Em; [|now apply reports_nothing].
  destruct (if nonempty (exclude_patterns target)
            then any_match match_pattern filename (exclude_patterns target) else Ret false)
    as [is_excluded|e] eqn:Ex; [|now apply reports_nothing].
  destruct is_excluded; [now apply reports_nothing|].
  destruct is_match; [|now apply reports_nothing].
  destruct stat as [file_size mod_time| |e]; try now apply reports_nothing.
  (* the file passes the patterns *)
  assert (Hpat : patterns target <> [] ->
            exists pattern, In pattern (patterns target) /\
                            match_pattern filename pattern = Ret true).
  { intros Hne. apply nonempty_true in Hne. rewrite Hne in Em.
    now apply any_match_true. }
  assert (Hexc : forall pattern, In pattern (exclude_patterns target) ->
                   match_pattern filename pattern = Ret false).
  { intros q Hq. destruct (exclude_patterns target) as [|x l] eqn:El; [destruct Hq|].
    cbn [nonempty] in Ex. now apply (any_match_false _ _ Ex). }
  set (w1 := match filter_obj with
             | Some f => let '(t, w) := read_clock now w in
                         (match_file f t p file_size mod_time, w)
             | None => (true, w)
             end).
  assert (Hw1 : found (snd w1) = found w /\
                (fst w1 = true -> forall f, filter_obj = Some f ->
                   exists k, match_file f (now k) p file_size mod_time = true)).
  { unfold w1. destruct filter_obj as [f|]; cbn.
    - split; [reflexivity|]. intros Hp f' [= <-]. now exists (ticks w).
    - split; [reflexivity|]. discriminate. }
  destruct w1 as [passes w1']. cbn [fst snd] in Hw1.
  destruct Hw1 as (Hf1 & Hpass).
  destruct passes; cbn [negb]; [|now apply reports_nothing].
  set (w2 := if truthy (min_age target)
             then let '(t, w) := read_clock now w1' in
                  (negb (days_between t mod_time <? default 0 (min_age target)), w)
             else (true, w1')).
  assert (Hw2 : found (snd w2) = found w /\
                (fst w2 = true -> truthy (min_age target) = true ->
                   exists k, default 0 (min_age target)
                             <= days_between (now k) mod_time)).
  { unfold w2. destruct (truthy (min_age target)); cbn.
    - split; [assumption|]. intros Hp _. exists (ticks w1').
      apply negb_true_iff, Z.ltb_ge in Hp. exact Hp.
    - split; [assumption|]. discriminate. }
  destruct w2 as [old_enough w2']. cbn [fst snd] in Hw2.
  destruct Hw2 as (Hf2 & Hage).
  destruct old_enough; cbn [negb]; [|now apply reports_nothing].
  cbn [fst with_found scanner found].
  exists [(p, file_size, file_type_of filename, mod_time)].
  cbn [fold_left add_hit found]. rewrite Hf2. split; [reflexivity|].
  constructor; [|constructor]. split.
  - unfold checked. repeat split; auto.
  - cbn. now left.
Qed.

(** The loop over a listing reports what its body reports of the entries. *)
Lemma listdir_loop_reports target filter_obj directory visit items :
  Forall (fun item => forall w,
            reports now match_pattern target filter_obj directory [item] w (fst (visit item w)))
         items ->
  forall w, reports now match_pattern target filter_obj directory items w
                    (fst (listdir_loop abort_requested visit items w)).
Proof.
  induction 1 as [|item items Hitem _ IH]; intros w.
  - now apply reports_nothing.
  - cbn [listdir_loop].
    destruct (read_abort abort_requested w) as [a w0] eqn:Ea.
    assert (Hw0 : found w0 = found w).
    { unfold read_abort in Ea.
      destruct (read_abort_flag abort_requested (scanner w)).
      now injection Ea as _ <-. }
    destruct a; [now apply reports_nothing|].
    specialize (Hitem w0).
    destruct (visit item w0) as [w1 [u|e]] eqn:Ev; cbn [fst] in Hitem.
    + apply (reports_trans _ _ _ _ _ w1).
      * apply (reports_more _ _ _ [item]); [intros x [<-|[]]; now left|].
        destruct Hitem as (hits & E & Hh). exists hits.
        now rewrite <- Hw0.
      * apply (reports_more _ _ _ items); [intros x Hx; now right|]. apply IH.
    + cbn [fst]. apply (reports_more _ _ _ [item]); [intros x [<-|[]]; now left|].
      destruct Hitem as (hits & E & Hh). exists hits. now rewrite <- Hw0.
Qed.

Lemma scan_item_reports target filter_obj item :
  forall directory w,
    reports now match_pattern target filter_obj directory [item] w
            (fst (scan_item abort_requested now match_pattern target directory filter_obj item w)).
Proof.
  induction item as [name stat|name|name items IH|name]
    using fs_entry_listing_ind; intros directory w.
  - apply process_file_reports.
  - cbn. destruct (recursive target); now apply reports_nothing.
  - cbn [scan_item].
    destruct (recursive target) eqn:Er; [|now apply reports_nothing].
    cbn [scan_directory_with].
    pose proof (listdir_loop_reports target filter_obj
                  (path_join directory name)
                  (scan_item abort_requested now match_pattern target (path_join directory name) filter_obj)
                  items) as Hloop.
    destruct (Hloop (Forall_impl _ _ _ IH (fun item Hi => Hi _)) w)
      as (hits & E & Hh).
    exists hits. split; [exact E|].
    eapply Forall_impl; [exact Hh|]. cbn beta. intros h [Hc Hin].
    split; [exact Hc|]. cbn [flat_map entry_files]. rewrite Er in Hin |- *.
    now rewrite app_nil_r.
  - now apply reports_nothing.
Qed.

(** The times of a result do not touch what it counts. *)
Lemma add_hits_start_time hits f t :
  fold_left add_hit hits (with_start_time f t)
  = with_start_time (fold_left add_hit hits f) t.
Proof.
  revert f. induction hits as [|[[[p s] t'] m] hits IH]; intros f; [reflexivity|].
  cbn [fold_left add_hit]. rewrite <- IH. reflexivity.
Qed.

(** The walk of a target reports files of its tree that [_process_file] has
    checked now match_pattern, in a result that starts empty. *)
Lemma scan_target_reports fs target filter_obj w :
  exists hits t,
    found (_scan_target abort_requested now match_pattern fs target filter_obj w)
    = with_end_time
        (with_start_time (fold_left add_hit hits (new_Found target))
                         (now (ticks w))) t /\
    Forall (fun h => checked now match_pattern target filter_obj h /\
                     In (hit_file h)
                        (tree_files (recursive target) (path target) fs))
           hits.
Proof.
  unfold _scan_target. cbn [read_clock with_found found ticks scanner].
  set (w0 := {| scanner := scanner w; ticks := S (ticks w);
                found := with_start_time (new_Found target) (now (ticks w)) |}).
  assert (Hw : exists hits,
     found (match fs with
            | NoSuchPath => w0
            | Root listing =>
                fst (_scan_directory abort_requested now match_pattern target (path target) listing filter_obj w0)
            end) = fold_left add_hit hits (found w0) /\
     Forall (fun h => checked now match_pattern target filter_obj h /\
                     In (hit_file h)
                        (tree_files (recursive target) (path target) fs))
           hits).
  { destruct fs as [|[items|]].
    - exists []. split; [reflexivity|constructor].
    - cbn [_scan_directory scan_directory_with tree_files].
      apply (listdir_loop_reports target filter_obj (path target)).
      apply Forall_forall. intros item _ w1. apply scan_item_reports.
    - exists []. split; [reflexivity|constructor]. }
  destruct Hw as (hits & E & Hh). exists hits. eexists. split; [|exact Hh].
  cbn [found].
  change (with_found {| scanner := scanner w; ticks := S (ticks w);
                        found := new_Found target |}
                     (with_start_time (new_Found target) (now (ticks w))))
    with w0.
  rewrite E.
  change (found w0) with (with_start_time (new_Found target) (now (ticks w))).
  rewrite add_hits_start_time. reflexivity.
Qed.

(** *** The target's own size limits *)

(** [_process_file] does not look at the scanner, nor at the target of the
    result. *)
Lemma process_file_with_target t target p stat filter_obj w :
  _process_file now match_pattern target p stat filter_obj (with_target t w)
  = (with_target t (fst (_process_file now match_pattern target p stat filter_obj w)),
     snd (_process_file now match_pattern target p stat filter_obj w)).
Proof.
  unfold _process_file.
  destruct (if nonempty (patterns target)
            then any_match match_pattern (path_basename p) (patterns target)
            else Ret true) as [[|]|e];
    destruct (if nonempty (exclude_patterns target)
              then any_match match_pattern (path_basename p)
                             (exclude_patterns target)
              else Ret false) as [[|]|e'];
    try reflexivity.
  destruct stat as [file_size mod_time| |e]; try reflexivity.
  destruct filter_obj as [f|]; cbn [read_clock with_target ticks scanner found].
  - destruct (match_file f (now (ticks w)) p file_size mod_time);
      cbn [negb]; [|reflexivity].
    destruct (truthy (min_age target)); cbn [read_clock ticks];
      [destruct (negb (days_between _ mod_time <? _))|]; reflexivity.
  - cbn [negb].
    destruct (truthy (min_age target)); cbn [read_clock ticks];
      [destruct (negb (days_between _ mod_time <? _))|]; reflexivity.
Qed.

Lemma process_file_with_scanner s target p stat filter_obj w :
  _process_file now match_pattern target p stat filter_obj (with_scanner s w)
  = (with_scanner s (fst (_process_file now match_pattern target p stat filter_obj w)),
     snd (_process_file now match_pattern target p stat filter_obj w)).
Proof.
  unfold _process_file.
  destruct (if nonempty (patterns target)
            then any_match match_pattern (path_basename p) (patterns target)
            else Ret true) as [[|]|e];
    destruct (if nonempty (exclude_patterns target)
              then any_match match_pattern (path_basename p)
                             (exclude_patterns target)
              else Ret false) as [[|]|e'];
    try reflexivity.
  destruct stat as [file_size mod_time| |e]; try reflexivity.
  destruct filter_obj as [f|]; cbn [read_clock with_scanner ticks scanner found].
  - destruct (match_file f (now (ticks w)) p file_size mod_time);
      cbn [negb]; [|reflexivity].
    destruct (truthy (min_age target)); cbn [read_clock ticks];
      [destruct (negb (days_between _ mod_time <? _))|]; reflexivity.
  - cbn [negb].
    destruct (truthy (min_age target)); cbn [read_clock ticks];
      [destruct (negb (days_between _ mod_time <? _))|]; reflexivity.
Qed.

(** A target that differs in its size limits reads the tree alike. *)
Lemma process_file_size_filter target lo hi p stat filter_obj w :
  _process_file now match_pattern (set_size_filter target lo hi) p stat
                filter_obj w
  = _process_file now match_pattern target p stat filter_obj w.
Proof. reflexivity. Qed.

Lemma listdir_loop_with_target t visit visit' items :
  Forall (fun item => forall w,
            visit' item (with_target t w)
            = (with_target t (fst (visit item w)), snd (visit item w)))
         items ->
  forall w,
    listdir_loop abort_requested visit' items (with_target t w)
    = (with_target t (fst (listdir_loop abort_requested visit items w)),
       snd (listdir_loop abort_requested visit items w)).
Proof.
  induction 1 as [|item items Hitem _ IH]; intros w; [reflexivity|].
  cbn [listdir_loop].
  change (read_abort abort_requested (with_target t w))
    with (fst (read_abort abort_requested w),
          with_target t (snd (read_abort abort_requested w))).
  destruct (read_abort abort_requested w) as [[|] w0]; cbn [fst snd];
    [reflexivity|].
  rewrite Hitem. destruct (visit item w0) as [w1 [u|e]]; cbn [fst snd].
  - apply IH.
  - reflexivity.
Qed.

Lemma scan_item_size_filter t target lo hi filter_obj item :
  forall directory w,
    scan_item abort_requested now match_pattern (set_size_filter target lo hi)
              directory filter_obj item (with_target t w)
    = (with_target t (fst (scan_item abort_requested now match_pattern target
                                     directory filter_obj item w)),
       snd (scan_item abort_requested now match_pattern target
                      directory filter_obj item w)).
Proof.
  induction item as [name stat|name|name items IH|name]
    using fs_entry_listing_ind; intros directory w.
  - cbn [scan_item]. rewrite process_file_size_filter.
    apply process_file_with_target.
  - cbn. destruct (recursive target); reflexivity.
  - cbn [scan_item set_size_filter recursive].
    destruct (recursive target); [|reflexivity].
    cbn [scan_directory_with]. apply listdir_loop_with_target.
    eapply Forall_impl; [exact IH|]. cbn beta. intros item Hi w1. apply Hi.
  - reflexivity.
Qed.

End Run.

(** X12. In every result of a walk, aborted or not, the counters agree:
    the counts of the file types add up to the number of files reported,
    and their sizes to the total size. *)
Theorem scan_result_counters_agree :
  forall `{OsPath} abort_requested now match_pattern fs target filter_obj w,
    let r := result (found (_scan_target abort_requested now match_pattern
                                         fs target filter_obj w)) in
    counted (file_types r) = Z.of_nat (length (files r)) /\
    sized (file_types r) = total_size r.
Proof.
  intros ? abort_requested now match_pattern fs target filter_obj w.
  destruct (scan_target_reports abort_requested now match_pattern
              fs target filter_obj w) as (hits & t & E & _).
  cbv zeta. rewrite E.
  apply (add_hits_balanced hits (new_Found target)), new_Found_balanced.
Qed.

(** The files a walk reports are files that [_process_file] has checked. *)
Lemma scan_target_file `{OsPath} abort_requested now match_pattern
      fs target filter_obj w p :
  In p (files (result (found (_scan_target abort_requested now match_pattern
                                           fs target filter_obj w)))) ->
  exists s t m,
    checked now match_pattern target filter_obj (p, s, t, m) /\
    In (p, s, m) (tree_files (recursive target) (path target) fs).
Proof.
  destruct (scan_target_reports abort_requested now match_pattern
              fs target filter_obj w) as (hits & t & E & Hh).
  rewrite E. cbn [with_end_time with_start_time result files].
  rewrite add_hits_files. cbn [new_Found new_ScanResult result files app].
  intros Hp. apply in_map_iff in Hp as ([[[p' s] ty] m] & <- & Hin).
  rewrite List.Forall_forall in Hh. destruct (Hh _ Hin) as [Hc Ht].
  now exists s, ty, m.
Qed.

(** X13. A walk never reports a file whose name matches one of the
    exclude patterns of the target, and, when the target has patterns, it
    reports only files whose name matches one of them. *)
Theorem scan_reports_only_wanted_names :
  forall `{OsPath} abort_requested now match_pattern fs target filter_obj w p,
    In p (files (result (found (_scan_target abort_requested now match_pattern
                                             fs target filter_obj w)))) ->
    (forall pattern, In pattern (exclude_patterns target) ->
                     match_pattern (path_basename p) pattern = Ret false) /\
    (patterns target <> [] ->
     exists pattern, In pattern (patterns target) /\
                     match_pattern (path_basename p) pattern = Ret true).
Proof.
  intros ? abort_requested now match_pattern fs target filter_obj w p Hp.
  destruct (scan_target_file _ _ _ _ _ _ _ _ Hp)
    as (s & t & m & (Hpat & Hexc & _) & _).
  split; assumption.
Qed.

Lemma scan_reports_only_wanted_names_witness :
  (forall pattern, In pattern (exclude_patterns temp_target) ->
     match_glob (PosixPath.basename "/dl/cache/B.TMP") pattern = Ret false) /\
  (patterns temp_target <> [] ->
   exists pattern, In pattern (patterns temp_target) /\
     match_glob (PosixPath.basename "/dl/cache/B.TMP") pattern = Ret true).
Proof.
  apply (scan_reports_only_wanted_names (H := PosixPath.posix) (fun _ => false) (fun _ => 0)
           match_glob downloads temp_target None fresh_walk "/dl/cache/B.TMP").
  vm_compute. right. left. reflexivity.
Defined.

(** X14. Every file a walk reports is a regular file of the tree below the
    path of the target, one of the directory itself when the target is not
    recursive, whose size and time could be read; it has passed the filter
    of the scan, and it is at least as old as the target asks. *)
Theorem scan_reports_only_files_of_the_tree :
  forall `{OsPath} abort_requested now match_pattern fs target filter_obj w p,
    In p (files (result (found (_scan_target abort_requested now match_pattern
                                             fs target filter_obj w)))) ->
    exists size mod_time,
      In (p, size, mod_time)
         (tree_files (recursive target) (path target) fs) /\
      (forall f, filter_obj = Some f ->
                 exists k, match_file f (now k) p size mod_time = true) /\
      (truthy (min_age target) = true ->
       exists k, default 0 (min_age target)
                 <= days_between (now k) mod_time).
Proof.
  intros ? abort_requested now match_pattern fs target filter_obj w p Hp.
  destruct (scan_target_file _ _ _ _ _ _ _ _ Hp)
    as (s & t & m & (_ & _ & _ & Hf & Ha) & Hin).
  exists s, m. repeat split; assumption.
Qed.

Lemma scan_reports_only_files_of_the_tree_witness :
  exists size mod_time,
    In ("/dl/a.tmp", size, mod_time)
       (tree_files (H := PosixPath.posix)
                   (recursive (set_recursive temp_target false))
                   (path (set_recursive temp_target false)) downloads) /\
    (forall f, Some Scenarios.zero_filter = Some f ->
               exists k : nat,
                 match_file (H := PosixPath.posix) f 0 "/dl/a.tmp"
                            size mod_time = true) /\
    (truthy (min_age (set_recursive temp_target false)) = true ->
     exists k : nat, default 0 (min_age (set_recursive temp_target false))
               <= days_between 0 mod_time).
Proof.
  apply (scan_reports_only_files_of_the_tree (H := PosixPath.posix) (fun _ => false) (fun _ => 0)
           match_glob downloads (set_recursive temp_target false)
           (Some Scenarios.zero_filter) fresh_walk "/dl/a.tmp").
  vm_compute. left. reflexivity.
Defined.

(** X15. The size limits of a target are never applied: a walk reports the
    same files, types and sizes whatever [set_size_filter] has put into the
    target. *)
Theorem target_size_limits_are_not_applied :
  forall `{OsPath} abort_requested now match_pattern fs target lo hi
         filter_obj w,
    let r := result (found (_scan_target abort_requested now match_pattern
                              fs target filter_obj w)) in
    let r' := result (found (_scan_target abort_requested now match_pattern
                               fs (set_size_filter target lo hi)
                               filter_obj w)) in
    files r' = files r /\ file_types r' = file_types r /\
    total_size r' = total_size r.
Proof.
  intros ? abort_requested now match_pattern fs target lo hi filter_obj w.
  cbv zeta. unfold _scan_target.
  cbn [read_clock with_found found ticks scanner set_size_filter path].
  set (t' := set_size_filter target lo hi).
  set (w0 := {| scanner := scanner w; ticks := S (ticks w);
                found := with_start_time (new_Found target) (now (ticks w)) |}).
  change (with_found {| scanner := scanner w; ticks := S (ticks w);
                        found := new_Found target |}
                     (with_start_time (new_Found target) (now (ticks w))))
    with w0.
  change (with_found {| scanner := scanner w; ticks := S (ticks w);
                        found := new_Found t' |}
                     (with_start_time (new_Found t') (now (ticks w))))
    with (with_target t' w0).
  destruct fs as [|[items|]]; try (repeat split; reflexivity).
  cbn [_scan_directory scan_directory_with].
  rewrite (listdir_loop_with_target abort_requested t'
             (scan_item abort_requested now match_pattern target (path target)
                        filter_obj)).
  - repeat split; reflexivity.
  - apply Forall_forall. intros item _ w1.
    apply scan_item_size_filter.
Qed.

(** *** A walk that is aborted, against the walk that is not *)
Section Abort.
Context `{OsPath}.
Variable abort_requested : nat -> bool.
Variable now : nat -> Z.
Variable match_pattern : string -> string -> res bool.

Lemma reports_prefix target filter_obj directory items w w' :
  reports now match_pattern target filter_obj directory items w w' ->
  files (result (found w)) `prefix_of` files (result (found w')).
Proof.
  intros (hits & E & _). rewrite E, add_hits_files. now apply prefix_app_r.
Qed.

Lemma full_loop_prefix target filter_obj directory items w :
  files (result (found w)) `prefix_of`
  files (result (found (fst (listdir_loop Scenarios.never
     (scan_item Scenarios.never now match_pattern target directory filter_obj)
     items w)))).
Proof.
  apply (reports_prefix target filter_obj directory items).
  apply listdir_loop_reports. apply Forall_forall. intros item _ w1.
  apply scan_item_reports.
Qed.

(** Once the flag is seen, a loop does nothing more. *)
Lemma listdir_loop_aborted visit items w :
  abort_flag (scanner w) = true ->
  let r := listdir_loop abort_requested visit items w in
  r.2 = Ret tt /\ found r.1 = found w /\ abort_flag (scanner r.1) = true.
Proof.
  intros Hf. destruct items as [|item items]; cbn [listdir_loop].
  - now repeat split.
  - unfold read_abort, read_abort_flag. rewrite Hf. cbn. now repeat split.
Qed.

Lemma same_point (a b : Walk) :
  found a = found b -> ticks a = ticks b -> b = with_scanner (scanner b) a.
Proof. destruct a, b. cbn. now intros -> ->. Qed.

Lemma listdir_loop_keeps_up target filter_obj directory items :
  Forall (fun item => forall a b,
            found a = found b -> ticks a = ticks b ->
            abort_flag (scanner b) = false ->
            keeps_up
              (scan_item abort_requested now match_pattern target directory
                         filter_obj item a)
              (scan_item Scenarios.never now match_pattern target directory
                         filter_obj item b))
         items ->
  forall a b,
    found a = found b -> ticks a = ticks b ->
    abort_flag (scanner b) = false ->
    keeps_up
      (listdir_loop abort_requested
         (scan_item abort_requested now match_pattern target directory
                    filter_obj) items a)
      (listdir_loop Scenarios.never
         (scan_item Scenarios.never now match_pattern target directory
                    filter_obj) items b).
Proof.
  induction 1 as [|item items Hitem Hitems IH]; intros a b Hf Ht Hb.
  - left. now repeat split.
  - pose proof (full_loop_prefix target filter_obj directory (item :: items) b)
      as Hfull.
    cbn [listdir_loop] in Hfull |- *.
    (* the full walk reads the flag and goes on *)
    assert (Eb : read_abort Scenarios.never b
                 = (false, {| scanner :=
                                snd (read_abort_flag Scenarios.never (scanner b));
                              ticks := ticks b; found := found b |})).
    { unfold read_abort, read_abort_flag. rewrite Hb. reflexivity. }
    rewrite Eb in Hfull |- *. clear Eb.
    set (b0 := {| scanner := snd (read_abort_flag Scenarios.never (scanner b));
                  ticks := ticks b; found := found b |}) in *.
    assert (Hb0 : abort_flag (scanner b0) = false).
    { unfold b0, read_abort_flag. cbn. now rewrite Hb. }
    destruct (read_abort abort_requested a) as [flag a0] eqn:Ea.
    assert (Ha0 : found a0 = found a /\ ticks a0 = ticks a /\
                  abort_flag (scanner a0) = flag).
    { unfold read_abort, read_abort_flag in Ea. injection Ea as <- <-.
      now repeat split. }
    destruct Ha0 as (Hfa & Hta & Hfl).
    destruct flag.
    + right. cbn [fst snd]. repeat split; [exact Hfl|].
      rewrite Hfa, Hf. exact Hfull.
    + specialize (Hitem a0 b0).
      destruct Hitem as [(Hf1 & Ht1 & Hb1 & Eo)|(Hf1 & Eo & Hp)];
        [now rewrite Hfa | now rewrite Hta | exact Hb0 | |].
      * destruct (scan_item abort_requested now match_pattern target directory
                            filter_obj item a0) as [a1 ra].
        destruct (scan_item Scenarios.never now match_pattern target directory
                            filter_obj item b0) as [b1 rb].
        cbn [fst snd] in *. subst rb. destruct ra as [u|e].
        -- now apply IH.
        -- left. now repeat split.
      * destruct (scan_item abort_requested now match_pattern target directory
                            filter_obj item a0) as [a1 ra].
        destruct (scan_item Scenarios.never now match_pattern target directory
                            filter_obj item b0) as [b1 rb] eqn:Eb1.
        cbn [fst snd] in *. subst ra.
        destruct (listdir_loop_aborted
                    (scan_item abort_requested now match_pattern target
                               directory filter_obj) items a1 Hf1)
          as (Er & Hfr & Hflr).
        right. repeat split; [exact Hflr | exact Er |].
        rewrite Hfr. destruct rb as [u|e]; cbn [fst].
        -- etrans; [exact Hp|]. apply full_loop_prefix.
        -- exact Hp.
Qed.

Lemma scan_item_keeps_up target filter_obj item :
  forall directory a b,
    found a = found b -> ticks a = ticks b ->
    abort_flag (scanner b) = false ->
    keeps_up
      (scan_item abort_requested now match_pattern target directory
                 filter_obj item a)
      (scan_item Scenarios.never now match_pattern target directory
                 filter_obj item b).
Proof.
  induction item as [name stat|name|name items IH|name]
    using fs_entry_listing_ind; intros directory a b Hf Ht Hb.
  - cbn [scan_item]. rewrite (same_point a b Hf Ht).
    rewrite process_file_with_scanner. left. cbn [fst snd with_scanner].
    now repeat split.
  - left. cbn. destruct (recursive target); now repeat split.
  - cbn [scan_item]. destruct (recursive target).
    + cbn [scan_directory_with]. apply listdir_loop_keeps_up; try assumption.
      eapply Forall_impl; [exact IH|]. cbn beta. intros item Hi. apply Hi.
    + left. now repeat split.
  - left. now repeat split.
Qed.

End Abort.

(** X16. An abort only cuts the result of a walk short: the files that an
    aborted walk reports are the first of the files that the walk reports
    when it is left to run, in the same order. *)
Theorem aborted_walk_reports_a_prefix :
  forall `{OsPath} abort_requested now match_pattern fs target filter_obj w,
    abort_flag (scanner w) = false ->
    files (result (found (_scan_target abort_requested now match_pattern
                                       fs target filter_obj w)))
    `prefix_of`
    files (result (found (_scan_target Scenarios.never now match_pattern
                                       fs target filter_obj w))).
Proof.
  intros ? abort_requested now match_pattern fs target filter_obj w Hw.
  unfold _scan_target. cbn [read_clock with_found found ticks scanner].
  set (w0 := {| scanner := scanner w; ticks := S (ticks w);
                found := with_start_time (new_Found target) (now (ticks w)) |}).
  change (with_found {| scanner := scanner w; ticks := S (ticks w);
                        found := new_Found target |}
                     (with_start_time (new_Found target) (now (ticks w))))
    with w0.
  destruct fs as [|[items|]]; try reflexivity.
  cbn [_scan_directory scan_directory_with with_end_time result files].
  destruct (listdir_loop_keeps_up abort_requested now match_pattern
              target filter_obj (path target) items) with (a := w0) (b := w0)
    as [(Hf & _)|(_ & _ & Hp)]; try reflexivity; try exact Hw.
  - apply Forall_forall. intros item _ a b. apply scan_item_keeps_up.
  - now rewrite Hf.
  - exact Hp.
Qed.

Lemma aborted_walk_reports_a_prefix_witness :
  files (result (found (_scan_target (H := PosixPath.posix)
                          (fun k => Nat.leb 3 k) (fun _ => 0) match_glob
                          downloads temp_target None fresh_walk)))
  `prefix_of`
  files (result (found (_scan_target (H := PosixPath.posix)
                          Scenarios.never (fun _ => 0) match_glob
                          downloads temp_target None fresh_walk))).
Proof.
  apply (aborted_walk_reports_a_prefix (H := PosixPath.posix)).
  reflexivity.
Defined.

(** *** A pattern that [re] rejects *)
Section Rejected.
Context `{OsPath}.
Variable abort_requested : nat -> bool.
Variable now : nat -> Z.
Variable match_pattern : string -> string -> res bool.
Variable target : ScanTarget.
Variable filter_obj : option ScanFilter.
Variables (pattern : string) (rest : list string) (e : exn).
Hypothesis first_pattern : patterns target = pattern :: rest.
Hypothesis rejected : forall name, match_pattern name pattern = Raise e.

Lemma process_file_rejected p stat w :
  _process_file now match_pattern target p stat filter_obj w = (w, Raise e).
Proof.
  unfold _process_file. rewrite first_pattern. cbn [nonempty any_match].
  now rewrite rejected.
Qed.

Lemma listdir_loop_rejected visit items :
  Forall (fun item => forall w, found (fst (visit item w)) = found w) items ->
  forall w,
    found (fst (listdir_loop abort_requested visit items w)) = found w.
Proof.
  induction 1 as [|item items Hitem _ IH]; intros w; [reflexivity|].
  cbn [listdir_loop].
  destruct (read_abort abort_requested w) as [a w0] eqn:Ea.
  assert (Hw0 : found w0 = found w).
  { unfold read_abort, read_abort_flag in Ea. now injection Ea as _ <-. }
  destruct a; [exact Hw0|].
  specialize (Hitem w0). destruct (visit item w0) as [w1 [u|e']];
    cbn [fst] in *.
  - now rewrite IH, Hitem.
  - now rewrite Hitem.
Qed.

Lemma scan_item_rejected item :
  forall directory w,
    found (fst (scan_item abort_requested now match_pattern target directory
                          filter_obj item w)) = found w.
Proof.
  induction item as [name stat|name|name items IH|name]
    using fs_entry_listing_ind; intros directory w.
  - cbn [scan_item]. now rewrite process_file_rejected.
  - cbn. now destruct (recursive target).
  - cbn [scan_item]. destruct (recursive target); [|reflexivity].
    cbn [scan_directory_with]. apply listdir_loop_rejected.
    eapply Forall_impl; [exact IH|]. cbn beta. intros item Hi. apply Hi.
  - reflexivity.
Qed.

End Rejected.

(** X17. A pattern that the regular expressions reject does not stop the
    scan, but it empties the result: when the first pattern of a target
    makes [_match_pattern] raise, the walk of the target ends at the first
    file it looks at and reports no file at all, whatever the other patterns
    are. *)
Theorem rejected_pattern_empties_the_result :
  forall `{OsPath} abort_requested now match_pattern fs target filter_obj w
         pattern rest e,
    patterns target = pattern :: rest ->
    (forall name, match_pattern name pattern = Raise e) ->
    files (result (found (_scan_target abort_requested now match_pattern
                                       fs target filter_obj w))) = [] /\
    total_size (result (found (_scan_target abort_requested now match_pattern
                                            fs target filter_obj w))) = 0.
Proof.
  intros ? abort_requested now match_pattern fs target filter_obj w
         pattern rest e Hp Hr.
  unfold _scan_target. cbn [read_clock with_found found ticks scanner].
  set (w0 := {| scanner := scanner w; ticks := S (ticks w);
                found := with_start_time (new_Found target) (now (ticks w)) |}).
  change (with_found {| scanner := scanner w; ticks := S (ticks w);
                        found := new_Found target |}
                     (with_start_time (new_Found target) (now (ticks w))))
    with w0.
  destruct fs as [|[items|]]; try (split; reflexivity).
  cbn [_scan_directory scan_directory_with with_end_time result files total_size].
  rewrite (listdir_loop_rejected abort_requested).
  - split; reflexivity.
  - apply Forall_forall. intros item _ w1.
    apply (scan_item_rejected abort_requested now match_pattern target
             filter_obj pattern rest e Hp Hr).
Qed.

Lemma rejected_pattern_empties_the_result_witness :
  files (result (found (_scan_target (H := PosixPath.posix)
                          Scenarios.never (fun _ => 0) match_glob
                          downloads broken_target None fresh_walk))) = [] /\
  total_size (result (found (_scan_target (H := PosixPath.posix)
                               Scenarios.never (fun _ => 0) match_glob
                               downloads broken_target None fresh_walk))) = 0.
Proof.
  apply (rejected_pattern_empties_the_result (H := PosixPath.posix)
           Scenarios.never (fun _ => 0) match_glob downloads broken_target
           None fresh_walk "[" ["*.tmp"] ValueError).
  - reflexivity.
  - intros name. unfold match_glob, _match_pattern, PyRe.re_match_ignorecase.
    destruct (forallb PyRe.is_ascii (chars name)); reflexivity.
Defined.

End ScanWalkProps.

(** ** Targets and filters of the scanner *)
Module ScanTargetProps.
Import PyStr Scanner ScannerWalk ScanReport TextFacts.

Lemma mem_In x l : mem x l = true <-> In x l.
Proof.
  unfold mem. rewrite existsb_exists. split.
  - intros (y & Hy & E). apply String.eqb_eq in E. now subst.
  - intros Hx. exists x. split; [exact Hx | apply String.eqb_refl].
Qed.

Lemma NoDup_snoc (l : list string) p :
  List.NoDup l -> ~ In p l -> List.NoDup (l ++ [p]).
Proof.
  induction 1 as [|x l Hx Hl IH]; intros Hp; cbn [app].
  - constructor; [intros []|constructor].
  - constructor.
    + intros Hin. apply in_app_or in Hin as [Hin|[<-|[]]]; [tauto|].
      apply Hp. now left.
    + apply IH. intros Hin. apply Hp. now right.
Qed.

Lemma add_pattern_patterns t p :
  List.NoDup (patterns t) ->
  List.NoDup (patterns (add_pattern t p)) /\
  (forall q, In q (patterns (add_pattern t p)) <-> In q (patterns t) \/ q = p) /\
  exclude_patterns (add_pattern t p) = exclude_patterns t /\
  recursive (add_pattern t p) = recursive t /\
  min_age (add_pattern t p) = min_age t /\
  path (add_pattern t p) = path t /\
  enabled (add_pattern t p) = enabled t.
Proof.
  intros Hnd. unfold add_pattern.
  destruct (mem p (patterns t)) eqn:Em.
  - apply mem_In in Em. repeat split; try assumption; try tauto.
    intros [Hq| ->]; assumption.
  - assert (Hnot : ~ In p (patterns t)).
    { intros Hin. apply mem_In in Hin. congruence. }
    cbn [patterns exclude_patterns recursive min_age path enabled].
    repeat split.
    + now apply NoDup_snoc.
    + intros Hq. apply in_app_or in Hq as [Hq|[<-|[]]]; tauto.
    + intros [Hq| ->]; apply in_or_app; [now left | right; now left].
Qed.

Lemma add_patterns_patterns ps :
  forall t,
    List.NoDup (patterns t) ->
    let t' := fold_left add_pattern ps t in
    List.NoDup (patterns t') /\
    (forall q, In q (patterns t') <-> In q (patterns t) \/ In q ps) /\
    exclude_patterns t' = exclude_patterns t /\
    recursive t' = recursive t /\
    min_age t' = min_age t /\
    path t' = path t /\
    enabled t' = enabled t.
Proof.
  induction ps as [|p ps IH]; intros t Hnd; cbn [fold_left].
  - repeat split; try assumption; try tauto. intros [Hq|[]]; exact Hq.
  - destruct (add_pattern_patterns t p Hnd) as (H1 & H2 & H3 & H4 & H5 & H6 & H7).
    destruct (IH (add_pattern t p) H1) as (I1 & I2 & I3 & I4 & I5 & I6 & I7).
    cbv zeta in *. repeat split; try congruence.
    + intros Hq. apply I2 in Hq as [Hq|Hq]; [|right; now right].
      apply H2 in Hq as [Hq| ->]; [now left | right; now left].
    + intros [Hq|[<-|Hq]]; apply I2.
      * left. apply H2. now left.
      * left. apply H2. now right.
      * now right.
Qed.

(** X18. The target that [add_custom_target] makes for a path that exists
    is added to the scanner as its last target; it lists every pattern it
    was given once, and the pattern [*] when it was given none; it excludes
    nothing and is recursive. For a path that does not exist the scanner is
    left as it was and the call returns [None]. *)
Theorem custom_target_patterns :
  forall self name path ps age min_size description enabled,
    (exists t,
       add_custom_target true self name path ps age min_size description
                         enabled
       = (Some t, with_targets self (targets self ++ [t])) /\
       List.NoDup (patterns t) /\
       (forall p, In p (patterns t) <->
                  In p (match default [] ps with [] => ["*"] | l => l end)) /\
       exclude_patterns t = [] /\ recursive t = true /\
       Scanner.path t = path /\ Scanner.enabled t = enabled) /\
    add_custom_target false self name path ps age min_size description enabled
    = (None, self).
Proof.
  intros self name path ps age min_size description enabled.
  split; [|reflexivity].
  unfold add_custom_target.
  set (d := if String.eqb (default "" description) ""
            then user_directory +:+ path else default "" description).
  set (t0 := new_ScanTarget name path (Some d) false enabled).
  assert (Hnd0 : List.NoDup (patterns t0)) by (cbn; constructor).
  set (t1 := if nonempty (default [] ps)
             then fold_left add_pattern (default [] ps) t0
             else add_pattern t0 "*").
  assert (H1 : List.NoDup (patterns t1) /\
               (forall p, In p (patterns t1) <->
                  In p (match default [] ps with [] => ["*"] | l => l end)) /\
               exclude_patterns t1 = [] /\ recursive t1 = true /\
               Scanner.path t1 = path /\ Scanner.enabled t1 = enabled).
  { unfold t1. destruct (default [] ps) as [|p l] eqn:El; cbn [nonempty].
    - cbn. repeat split; try tauto. repeat constructor. intros []. 
    - destruct (add_patterns_patterns (p :: l) t0 Hnd0)
        as (I1 & I2 & I3 & I4 & I5 & I6 & I7).
      cbv zeta in *. repeat split; try assumption.
      + intros Hq. apply I2 in Hq as [[]|Hq]. exact Hq.
      + intros Hq. apply I2. now right. }
  set (t2 := match age with
             | Some a => set_age_filter t1 (Some a)
             | None => t1
             end).
  set (t3 := if 0 <? min_size then set_size_filter t2 min_size None else t2).
  exists t3. split; [reflexivity|].
  assert (E : patterns t3 = patterns t1 /\
              exclude_patterns t3 = exclude_patterns t1 /\
              recursive t3 = recursive t1 /\
              Scanner.path t3 = Scanner.path t1 /\
              Scanner.enabled t3 = Scanner.enabled t1).
  { unfold t3, t2. destruct (0 <? min_size), age; repeat split. }
  destruct E as (-> & -> & -> & -> & ->). exact H1.
Qed.

(** The extension that [os.path.splitext] cuts off is empty, or it begins
    with the dot. *)
Lemma splitext_extension p :
  snd (PosixPath.splitext p) = "" \/
  exists rest, snd (PosixPath.splitext p) = String "." rest.
Proof.
  unfold PosixPath.splitext.
  destruct (existsb _ _ && existsb _ _); cbn [snd].
  - right. eexists. reflexivity.
  - now left.
Qed.

Lemma lower_extension e :
  (e = "" \/ exists rest, e = String "." rest) ->
  lower e = "" \/ exists rest, lower e = String "." rest.
Proof.
  intros [->|(rest & ->)]; [now left|]. right.
  exists (lower rest). reflexivity.
Qed.

(** X19. An entry of the extension list that does not begin with a dot
    matches no file: with a list of such entries (["tmp"], or ["~"]),
    [match_file] rejects every file, whatever its name, size and age. *)
Theorem extension_without_dot_matches_nothing :
  forall self now file_path file_size mod_time,
    extensions self <> [] ->
    (forall e, In e (extensions self) ->
               exists c rest, e = String c rest /\ c <> "."%char) ->
    match_file (H := PosixPath.posix) self now file_path file_size mod_time
    = false.
Proof.
  intros self now file_path file_size mod_time Hne Hext.
  unfold match_file.
  destruct (_ && _); [reflexivity|].
  destruct (_ && _); [reflexivity|].
  destruct (_ && _); [reflexivity|].
  destruct (extensions self) as [|e0 l] eqn:El; [congruence|].
  cbn [nonempty orb andb].
  set (ext := lower (snd (path_splitext file_path))).
  assert (Hmem : mem ext (e0 :: l) = false).
  { destruct (mem ext (e0 :: l)) eqn:Em; [|reflexivity].
    apply mem_In in Em. destruct (Hext _ Em) as (c & rest & E & Hc).
    destruct (lower_extension _ (splitext_extension file_path))
      as [E0|(r & E0)];
      change (lower (snd (PosixPath.splitext file_path))) with ext in E0;
      rewrite E0 in E.
    - discriminate E.
    - injection E as <- _. congruence. }
  now rewrite Hmem.
Qed.

Lemma extension_without_dot_matches_nothing_witness :
  match_file (H := PosixPath.posix)
             {| min_size := 0; max_size := None; min_age_days := None;
                extensions := ["tmp"; "~"]; exclude_exts := [] |}
             0 "/dl/a.tmp" 10 0
  = false.
Proof.
  apply extension_without_dot_matches_nothing.
  - discriminate.
  - intros e [<-|[<-|[]]]; eexists _, _; (split; [reflexivity|discriminate]).
Defined.

End ScanTargetProps.

(** ** The counters of an analysis *)
Module AnalysisCounts.
Import Analyzer AnalysisTree.

Lemma fs_entry_entries_ind (P : fs_entry -> Prop)
      (Hfile : forall name size, P (FsFile name size))
      (Hdir : forall name readable entries,
          Forall P entries -> P (FsDir name readable entries))
      (Hother : forall name, P (FsOther name))
      (Hfault : forall name, P (FsFault name)) :
  forall item, P item.
Proof.
  fix IH 1. intros [name size|name readable entries|name|name].
  - apply Hfile.
  - apply Hdir. induction entries as [|item entries IHentries].
    + constructor.
    + constructor; [apply IH | exact IHentries].
  - apply Hother.
  - apply Hfault.
Qed.

Lemma file_nodes_app a b : file_nodes (a ++ b) = file_nodes a ++ file_nodes b.
Proof. unfold file_nodes. now rewrite flat_map_app, List.filter_app. Qed.

Lemma sum_sizes_app a b : sum_sizes (a ++ b) = sum_sizes a + sum_sizes b.
Proof.
  unfold sum_sizes. induction a as [|x a IH]; cbn [app map fold_right]; lia.
Qed.

Lemma file_nodes_directory it :
  is_dir it = true -> file_nodes [it] = file_nodes (children it).
Proof.
  intros Hd. unfold file_nodes. destruct it as [p n d s ch]. cbn in Hd.
  subst d. cbn [flat_map nodes app List.filter is_dir negb children].
  now rewrite app_nil_r.
Qed.

Lemma file_nodes_file it :
  is_dir it = false -> children it = [] -> file_nodes [it] = [it].
Proof.
  intros Hd Hc. unfold file_nodes. destruct it as [p n d s ch]. cbn in Hd, Hc.
  subst d ch. reflexivity.
Qed.

Lemma accounts_refl p s s' :
  the_result s' = the_result s -> accounts p s p s'.
Proof.
  intros E. exists []. rewrite E, app_nil_r. cbn. repeat split; lia.
Qed.

Lemma accounts_trans p1 s1 p2 s2 p3 s3 :
  accounts p1 s1 p2 s2 -> accounts p2 s2 p3 s3 -> accounts p1 s1 p3 s3.
Proof.
  intros (n1 & C1 & D1 & F1 & T1) (n2 & C2 & D2 & F2 & T2).
  exists (n1 ++ n2). rewrite C2, C1, D2, D1, F2, F1, T2, T1.
  rewrite file_nodes_app, sum_sizes_app, length_app, app_assoc.
  repeat split; lia.
Qed.

Section WithOsPath.
Context `{OsPath}.
Variable abort_requested : nat -> bool.

Lemma read_aborted_result s :
  the_result (snd (read_aborted abort_requested s)) = the_result s.
Proof. reflexivity. Qed.

Lemma scandir_loop_accounts visit items :
  Forall (fun item => forall p ds s,
            accounts p s (visit item p ds s).1.1 (visit item p ds s).2) items ->
  forall p ds s,
    let r := scandir_loop abort_requested visit items p ds s in
    accounts p s r.1.1.2 r.2.
Proof.
  induction 1 as [|item items Hitem _ IH]; intros p ds s; cbn zeta.
  - now apply accounts_refl.
  - cbn [scandir_loop].
    destruct (read_aborted abort_requested s) as [a s0] eqn:Ea.
    assert (Hs0 : the_result s0 = the_result s).
    { now rewrite <- (read_aborted_result s), Ea. }
    destruct a; [now apply accounts_refl|].
    specialize (Hitem p ds s0).
    destruct (visit item p ds s0) as [[p1 ds1] s1]. cbn [fst snd] in Hitem.
    apply (accounts_trans _ _ p1 s1); [|apply IH].
    destruct Hitem as (new & C & D & F & T). exists new.
    now rewrite <- Hs0.
Qed.

Lemma analyze_directory_with_accounts visit readable items dir p d md s :
  Forall (fun item => forall p ds s,
            accounts p s (visit item p ds s).1.1 (visit item p ds s).2) items ->
  let r := analyze_directory_with abort_requested visit readable items dir p
                                  d md s in
  accounts p s r.1 r.2.
Proof.
  intros Hv. cbn zeta. unfold analyze_directory_with.
  destruct (read_aborted abort_requested s) as [a s0] eqn:Ea.
  assert (Hs0 : the_result s0 = the_result s).
  { now rewrite <- (read_aborted_result s), Ea. }
  destruct a; [now apply accounts_refl|].
  destruct (beyond d md); [now apply accounts_refl|].
  destruct (negb readable); [now apply accounts_refl|].
  pose proof (scandir_loop_accounts visit items Hv p 0 s0) as Hl.
  cbn zeta in Hl.
  destruct (scandir_loop abort_requested visit items p 0 s0)
    as [[[ex p1] ds1] s1]. cbn [fst snd] in Hl.
  destruct Hl as (new & C & D & F & T). rewrite Hs0 in F, T.
  destruct ex; cbn [fst snd]; exists new; repeat split; assumption.
Qed.

Lemma analyze_item_accounts item :
  forall dir d md p ds s,
    let r := analyze_item abort_requested dir d md item p ds s in
    accounts p s r.1.1 r.2.
Proof.
  induction item as [name sz|name readable entries IH|name|name]
    using fs_entry_entries_ind; intros dir d md p ds s; cbn zeta.
  - cbn [analyze_item]. unfold _update_progress.
    set (it := new_DiskItem (path_join dir name) (Some name) false sz).
    set (s1 := with_result s (add_file (the_result s) (path_join dir name) sz)).
    assert (Hacc : accounts p s (add_child p it) s1).
    { exists [it]. rewrite file_nodes_file by reflexivity.
      cbn. repeat split; lia. }
    destruct (analyze_progress_callback s1); cbn [fst snd]; exact Hacc.
  - cbn [analyze_item].
    set (it := new_DiskItem (path_join dir name) (Some name) true 0).
    pose proof (analyze_directory_with_accounts
                  (analyze_item abort_requested (path_join dir name) (d + 1) md)
                  readable entries (path_join dir name) it (d + 1) md s) as Hd.
    cbn zeta in Hd.
    destruct (analyze_directory_with _ _ _ _ _ _ _ _ _) as [it' s1].
    cbn [fst snd] in Hd |- *.
    destruct Hd as (new & C & D & F & T).
    { eapply Forall_impl; [exact IH|]. cbn beta. intros item Hi p0 ds0 s0.
      apply Hi. }
    exists [it']. cbn [add_child children is_dir].
    rewrite (file_nodes_directory it') by (rewrite D; reflexivity).
    rewrite C. cbn [it new_DiskItem children app].
    repeat split; assumption.
  - now apply accounts_refl.
  - now apply accounts_refl.
Qed.

(** *** A walk that is not aborted *)
Hypothesis never_aborted : forall k, abort_requested k = false.

Lemma read_aborted_never s :
  aborted s = false ->
  exists s0, read_aborted abort_requested s = (false, s0) /\
             the_result s0 = the_result s /\ aborted s0 = false.
Proof.
  intros Ha. unfold read_aborted. rewrite Ha, never_aborted.
  eexists. split; [reflexivity|]. split; reflexivity.
Qed.

Lemma scandir_loop_sizes_up visit items :
  Forall (fun item => forall p ds s,
            aborted s = false ->
            sizes_up ds s (visit item p ds s).1.2 (visit item p ds s).2) items ->
  forall p ds s,
    aborted s = false ->
    let r := scandir_loop abort_requested visit items p ds s in
    r.1.1.1 = Exhausted /\ sizes_up ds s r.1.2 r.2.
Proof.
  induction 1 as [|item items Hitem _ IH]; intros p ds s Ha; cbn zeta.
  - cbn. split; [reflexivity|]. split; [exact Ha | lia].
  - cbn [scandir_loop].
    destruct (read_aborted_never s Ha) as (s0 & -> & Hs0 & Ha0).
    specialize (Hitem p ds s0 Ha0).
    destruct (visit item p ds s0) as [[p1 ds1] s1]. cbn [fst snd] in Hitem.
    destruct Hitem as [Ha1 Hd1].
    destruct (IH p1 ds1 s1 Ha1) as (Ex & Ha2 & Hd2).
    split; [exact Ex|]. split; [exact Ha2|]. rewrite Hs0 in Hd1. lia.
Qed.

Lemma analyze_directory_with_sizes_up visit readable items dir p d md s :
  Forall (fun item => forall p ds s,
            aborted s = false ->
            sizes_up ds s (visit item p ds s).1.2 (visit item p ds s).2) items ->
  aborted s = false -> size p = 0 ->
  let r := analyze_directory_with abort_requested visit readable items dir p
                                  d md s in
  sizes_up 0 s (size r.1) r.2.
Proof.
  intros Hv Ha Hp. cbn zeta. unfold analyze_directory_with.
  destruct (read_aborted_never s Ha) as (s0 & -> & Hs0 & Ha0).
  assert (Hsame : sizes_up 0 s (size p) s0).
  { split; [exact Ha0|]. rewrite Hs0, Hp. lia. }
  destruct (beyond d md); [exact Hsame|].
  destruct (negb readable); [exact Hsame|].
  destruct (scandir_loop_sizes_up visit items Hv p 0 s0 Ha0) as (Ex & Ha1 & Hd1).
  destruct (scandir_loop abort_requested visit items p 0 s0)
    as [[[ex p1] ds1] s1]. cbn [fst snd] in *. subst ex.
  cbn [fst snd set_size size]. split; [exact Ha1|].
  rewrite Hs0 in Hd1. exact Hd1.
Qed.

Lemma analyze_item_sizes_up item :
  forall dir d md p ds s,
    aborted s = false ->
    let r := analyze_item abort_requested dir d md item p ds s in
    sizes_up ds s r.1.2 r.2.
Proof.
  induction item as [name sz|name readable entries IH|name|name]
    using fs_entry_entries_ind; intros dir d md p ds s Ha; cbn zeta.
  - cbn [analyze_item]. unfold _update_progress.
    set (s1 := with_result s (add_file (the_result s) (path_join dir name) sz)).
    assert (Hs : sizes_up ds s (ds + sz) s1).
    { split; [exact Ha|]. cbn. lia. }
    destruct (analyze_progress_callback s1); cbn [fst snd]; exact Hs.
  - cbn [analyze_item].
    set (it := new_DiskItem (path_join dir name) (Some name) true 0).
    pose proof (analyze_directory_with_sizes_up
                  (analyze_item abort_requested (path_join dir name) (d + 1) md)
                  readable entries (path_join dir name) it (d + 1) md s) as Hd.
    cbn zeta in Hd.
    destruct (analyze_directory_with _ _ _ _ _ _ _ _ _) as [it' s1].
    cbn [fst snd] in Hd |- *.
    destruct Hd as (Ha1 & Hd1); try assumption; try reflexivity.
    { eapply Forall_impl; [exact IH|]. cbn beta. intros item Hi p0 ds0 s0.
      apply Hi. }
    split; [exact Ha1|]. lia.
  - cbn. split; [exact Ha | lia].
  - cbn. split; [exact Ha | lia].
Qed.

End WithOsPath.

(** X20. In every analysis, aborted or not and whatever its depth bound:
    [file_count] is the number of file nodes of the tree under the root
    item, and [total_size] is the sum of their sizes. *)
Theorem analysis_counts_the_file_nodes :
  forall `{OsPath} abort_requested fs path max_depth self,
    let r := the_result (fst (_analyze_thread abort_requested fs path
                                              max_depth self)) in
    let files := file_nodes (option_list (root_item r)) in
    file_count r = Z.of_nat (length files) /\ total_size r = sum_sizes files.
Proof.
  intros ? abort_requested fs path max_depth self. cbv zeta.
  unfold _analyze_thread.
  set (s0 := with_result (with_is_analyzing self true) (new_AnalyzeResult None)).
  assert (G : forall s : Analyzer,
    (let r := the_result s in
     file_count r = Z.of_nat (length (file_nodes (option_list (root_item r)))) /\
     total_size r = sum_sizes (file_nodes (option_list (root_item r)))) ->
    let s' := with_is_analyzing s false in
    let r := the_result
      (fst (match analyze_complete_callback s' with
            | Some cb => (with_event s' (Complete (the_result s')),
                          cb (the_result s'))
            | None => (s', Ret tt)
            end)) in
    file_count r = Z.of_nat (length (file_nodes (option_list (root_item r)))) /\
    total_size r = sum_sizes (file_nodes (option_list (root_item r)))).
  { intros s Hs. cbv zeta.
    destruct (analyze_complete_callback (with_is_analyzing s false));
      exact Hs. }
  apply G. clear G. cbv zeta.
  destruct fs as [|sz|readable items].
  - split; reflexivity.
  - cbn. split; lia.
  - set (root := new_DiskItem path None true 0).
    pose proof (analyze_directory_with_accounts abort_requested
                  (analyze_item abort_requested path 0 max_depth)
                  readable items path root 0 max_depth s0) as Hacc.
    cbn zeta in Hacc. unfold _analyze_directory.
    destruct (analyze_directory_with _ _ _ _ _ _ _ _ _) as [root' s1].
    cbn [fst snd] in Hacc.
    destruct Hacc as (new & C & D & F & T).
    { apply Forall_forall. intros item _ p ds s. apply analyze_item_accounts. }
    cbn [the_result with_result result default from_option].
    unfold id.
    cbn [set_root_item root_item file_count total_size option_list
         option_rect].
    change (option_list (Some root')) with [root'].
    rewrite (file_nodes_directory root') by (rewrite D; reflexivity).
    rewrite C. cbn [root new_DiskItem children app].
    change (the_result s0) with (new_AnalyzeResult None) in F, T.
    cbn [new_AnalyzeResult file_count total_size] in F, T.
    split; [rewrite F | rewrite T]; lia.
Qed.

(** X21. When an analysis is not aborted, the size of its root item is
    [total_size], whatever the depth bound and whatever could not be read:
    the sizes of the directories add up to the bytes of the files that were
    counted. *)
Theorem unaborted_analysis_sizes_the_root :
  forall `{OsPath} fs path max_depth self,
    aborted self = false ->
    let r := the_result (fst (_analyze_thread Scenarios.never fs path
                                              max_depth self)) in
    match root_item r with
    | Some root => size root = total_size r
    | None => total_size r = 0
    end.
Proof.
  intros ? fs path max_depth self Ha. cbv zeta.
  unfold _analyze_thread.
  set (s0 := with_result (with_is_analyzing self true) (new_AnalyzeResult None)).
  assert (G : forall s : Analyzer,
    (let r := the_result s in
     match root_item r with
     | Some root => size root = total_size r
     | None => total_size r = 0
     end) ->
    let s' := with_is_analyzing s false in
    let r := the_result
      (fst (match analyze_complete_callback s' with
            | Some cb => (with_event s' (Complete (the_result s')),
                          cb (the_result s'))
            | None => (s', Ret tt)
            end)) in
    match root_item r with
    | Some root => size root = total_size r
    | None => total_size r = 0
    end).
  { intros s Hs. cbv zeta.
    destruct (analyze_complete_callback (with_is_analyzing s false));
      exact Hs. }
  apply G. clear G. cbv zeta.
  destruct fs as [|sz|readable items].
  - reflexivity.
  - cbn. lia.
  - set (root := new_DiskItem path None true 0).
    pose proof (analyze_directory_with_sizes_up Scenarios.never
                  (fun _ => eq_refl)
                  (analyze_item Scenarios.never path 0 max_depth)
                  readable items path root 0 max_depth s0) as Hsz.
    cbn zeta in Hsz. unfold _analyze_directory.
    destruct (analyze_directory_with _ _ _ _ _ _ _ _ _) as [root' s1].
    cbn [fst snd] in Hsz.
    destruct Hsz as (_ & Hd); try reflexivity; try exact Ha.
    { apply Forall_forall. intros item _ p ds s Hs.
      now apply analyze_item_sizes_up. }
    cbn [the_result with_result result default from_option].
    unfold id. cbn [set_root_item root_item total_size].
    change (the_result s0) with (new_AnalyzeResult None) in Hd.
    cbn [new_AnalyzeResult total_size] in Hd. lia.
Qed.

Lemma unaborted_analysis_sizes_the_root_witness :
  let r := the_result (fst (_analyze_thread (H := PosixPath.posix)
                              Scenarios.never photos "/p" None new_Analyzer)) in
  match root_item r with
  | Some root => size root = total_size r
  | None => total_size r = 0
  end.
Proof.
  apply (unaborted_analysis_sizes_the_root (H := PosixPath.posix)
           photos "/p" None new_Analyzer).
  reflexivity.
Defined.

End AnalysisCounts.

(** ** Runs that are aborted *)
Module AbortProps.

Section Clean.
Import Cleaner.
Context {FS : Type} `{Os FS}.
Variable abort_requested : nat -> bool.
Variable how : CleanMethod.
Variable pc : option (Z -> Z -> Z -> res unit).
Hypothesis pc_returns : forall f c t p, pc = Some f -> f c t p = Ret tt.

(** The loop, when the flag is seen at its read number [k]: the first [k]
    tasks are cleaned, and the loop ends there. *)
Lemma clean_loop_aborted total k :
  forall tasks i results self fs,
    abort_flag self = false ->
    (forall j, (j < k)%nat -> abort_requested (polls self + j) = false) ->
    abort_requested (polls self + k) = true ->
    (k < length tasks)%nat ->
    0 <= i -> i + Z.of_nat (length tasks) <= total -> total < 2 ^ 900 ->
    exists self',
      clean_loop abort_requested how pc total tasks i results self fs
      = (self', fst (clean_each how (firstn k tasks) fs),
         Ret (results ++ snd (clean_each how (firstn k tasks) fs))) /\
      running self' = running self /\ abort_flag self' = true.
Proof.
  induction k as [|k IH];
    intros tasks i results self fs Hab Hbefore Hat Hk Hi Hlen Htot;
    destruct tasks as [|task rest]; cbn [length] in Hk; try lia.
  - cbn [clean_loop firstn clean_each fst snd]. unfold read_abort_flag.
    rewrite Nat.add_0_r in Hat. rewrite Hab, Hat. cbn [orb].
    eexists. rewrite app_nil_r. repeat split.
  - cbn [length] in Hlen. rewrite Nat2Z.inj_succ in Hlen.
    cbn [clean_loop firstn clean_each]. unfold read_abort_flag.
    pose proof (Hbefore 0%nat ltac:(lia)) as Hfirst.
    rewrite Nat.add_0_r in Hfirst. rewrite Hab, Hfirst. cbn [orb].
    destruct (FloatFacts.clean_percent_bounds (i + 1) total ltac:(lia) Htot)
      as (p & Ep & _).
    rewrite Ep.
    destruct (_clean_file task how fs) as [fs1 result] eqn:Ef.
    assert (Hcalled :
      exists s1,
        (match pc with
         | Some cb =>
             (with_event
                {| method := Cleaner.method self; running := running self;
                   abort_flag := false; polls := S (polls self);
                   events := events self |} (Progress (i + 1) total p),
              cb (i + 1) total p)
         | None =>
             ({| method := Cleaner.method self; running := running self;
                 abort_flag := false; polls := S (polls self);
                 events := events self |}, Ret tt)
         end) = (s1, Ret tt) /\
        abort_flag s1 = false /\ polls s1 = S (polls self) /\
        running s1 = running self).
    { destruct pc as [f|].
      - rewrite (pc_returns f _ _ _ eq_refl). eexists. repeat split.
      - eexists. repeat split. }
    destruct Hcalled as (s1 & -> & Hab1 & Hp1 & Hr1).
    destruct (IH rest (i + 1) (results ++ [result])
                 (with_event s1 (Cleaned task result)) fs1)
      as (self' & E & Hrun & Hfl); try lia.
    + exact Hab1.
    + intros j Hj. cbn [polls with_event]. rewrite Hp1.
      replace (S (polls self) + j)%nat with (polls self + S j)%nat by lia.
      apply Hbefore. lia.
    + cbn [polls with_event]. rewrite Hp1.
      replace (S (polls self) + k)%nat with (polls self + S k)%nat by lia.
      exact Hat.
    + exists self'. rewrite E.
      destruct (clean_each how (firstn k rest) fs1) as [fs2 results'].
      cbn [fst snd running with_event] in *.
      rewrite <- app_assoc. repeat split; [congruence | exact Hfl].
Qed.

End Clean.

(** X22. A clean that sees the abort flag at its read number [k] has
    cleaned the first [k] tasks and no other: the file system is as these
    [k] tasks leave it, the completion callback is still called, with their
    [k] results, the cleaner is no longer running, and the next [clean] is
    accepted. *)
Theorem aborted_clean_stops_before_the_next_task :
  forall {FS : Type} `{Cleaner.Os FS} (abort_requested : nat -> bool)
         (self : Cleaner.Cleaner) (fs : FS) (tasks : list Cleaner.CleanTask)
         (method : Cleaner.CleanMethod)
         (progress_callback : option (Z -> Z -> Z -> res unit))
         (complete_callback : list Cleaner.CleanResult -> res unit)
         (k : nat),
    Cleaner.abort_flag self = false ->
    (forall f c t p, progress_callback = Some f -> f c t p = Ret tt) ->
    (forall j, (j < k)%nat ->
               abort_requested (Cleaner.polls self + j)%nat = false) ->
    abort_requested (Cleaner.polls self + k)%nat = true ->
    (k < length tasks)%nat ->
    Z.of_nat (length tasks) < 2 ^ 900 ->
    let done := Cleaner.clean_each method (firstn k tasks) fs in
    let '(self', fs', outcome) :=
      Cleaner._clean_thread abort_requested self fs tasks method
                            progress_callback (Some complete_callback) in
    fs' = fst done /\ outcome = complete_callback (snd done) /\
    length (snd done) = k /\
    Cleaner.running self' = false /\
    fst (fst (Cleaner.clean self' None)) = PyBool true.
Proof.
  intros FS ? abort_requested self fs tasks method progress_callback
         complete_callback k Hab Hcb Hbefore Hat Hk Hlen.
  cbv zeta. unfold Cleaner._clean_thread.
  destruct (clean_loop_aborted abort_requested method progress_callback Hcb
              (Z.of_nat (length tasks)) k tasks 0 [] self fs)
    as (self' & E & Hrun & Hfl); try assumption; try lia.
  rewrite E. cbn [app fst snd Cleaner.running Cleaner.with_event
                  Cleaner.with_running].
  repeat split.
  rewrite CleanProps.clean_each_length, length_firstn. lia.
Qed.

Lemma aborted_clean_stops_before_the_next_task_witness :
  let '(self', fs', outcome) :=
    Cleaner._clean_thread (H := Scenarios.simple_os)
                          (fun n => Nat.leb 1 n) Scenarios.cleaner_started
                          Scenarios.fs_abc Scenarios.tasks_abc
                          Cleaner.PERMANENT (Some Scenarios.quiet3)
                          (Some Scenarios.quiet) in
  fs' = fst (Cleaner.clean_each (H := Scenarios.simple_os) Cleaner.PERMANENT
               (firstn 1 Scenarios.tasks_abc) Scenarios.fs_abc) /\
  outcome = Scenarios.quiet
              (snd (Cleaner.clean_each (H := Scenarios.simple_os)
                      Cleaner.PERMANENT (firstn 1 Scenarios.tasks_abc)
                      Scenarios.fs_abc)) /\
  length (snd (Cleaner.clean_each (H := Scenarios.simple_os)
                 Cleaner.PERMANENT (firstn 1 Scenarios.tasks_abc)
                 Scenarios.fs_abc)) = 1%nat /\
  Cleaner.running self' = false /\
  fst (fst (Cleaner.clean self' None)) = PyBool true.
Proof.
  apply (aborted_clean_stops_before_the_next_task (H := Scenarios.simple_os)
           (fun n => Nat.leb 1 n)
           Scenarios.cleaner_started Scenarios.fs_abc Scenarios.tasks_abc
           Cleaner.PERMANENT (Some Scenarios.quiet3) Scenarios.quiet 1).
  - reflexivity.
  - intros f c t p [= <-]. reflexivity.
  - intros j Hj. assert (j = 0%nat) as -> by lia. reflexivity.
  - reflexivity.
  - cbn. lia.
  - cbn. lia.
Defined.

Section Scan.
Import Scanner.
Variable abort_requested : nat -> bool.
Variable _scan_target : nat -> ScanTarget -> option ScanFilter -> ScanResult.
Variable filter_obj : option ScanFilter.
Variable pc : option (Z -> Z -> Z -> res unit).
Hypothesis pc_returns : forall f c t p, pc = Some f -> f c t p = Ret tt.

Lemma call_progress_returns c t p self :
  exists s1,
    call_progress pc c t p self = (s1, Ret tt) /\
    abort_flag s1 = abort_flag self /\ polls s1 = polls self /\
    running s1 = running self /\ results s1 = results self /\
    targets s1 = targets self.
Proof.
  unfold call_progress. destruct pc as [f|].
  - rewrite (pc_returns f _ _ _ eq_refl). eexists. repeat split.
  - eexists. repeat split.
Qed.

(** The loop, when the flag is seen at its read number [k]: the first [k]
    targets are walked, and the loop ends there. *)
Lemma scan_loop_aborted total k :
  forall ts i self,
    abort_flag self = false ->
    (forall j, (j < k)%nat -> abort_requested (polls self + j) = false) ->
    abort_requested (polls self + k) = true ->
    (k < length ts)%nat ->
    0 <= i -> 0 < total < 2 ^ 53 ->
    (i + Z.of_nat (length ts)) * 200 < 2 ^ 53 ->
    exists self',
      scan_loop abort_requested _scan_target filter_obj pc total ts i self
      = (self', Ret tt) /\
      results self'
      = results self ++ scan_results _scan_target filter_obj (firstn k ts) i /\
      running self' = running self /\ abort_flag self' = true /\
      targets self' = targets self.
Proof.
  induction k as [|k IH]; intros ts i self Hab Hbefore Hat Hk Hi Htot Hlen;
    destruct ts as [|t ts]; cbn [length] in Hk; try lia.
  - cbn [scan_loop firstn scan_results]. unfold read_abort_flag.
    rewrite Nat.add_0_r in Hat. rewrite Hab, Hat. cbn [orb].
    eexists. rewrite app_nil_r. repeat split.
  - cbn [length] in Hlen. rewrite Nat2Z.inj_succ in Hlen.
    cbn [scan_loop firstn scan_results]. unfold read_abort_flag.
    pose proof (Hbefore 0%nat ltac:(lia)) as Hfirst.
    rewrite Nat.add_0_r in Hfirst. rewrite Hab, Hfirst. cbn [orb].
    rewrite FloatFacts.percent_before_floor by lia.
    set (s0 := {| targets := targets self; results := results self;
                  running := running self; abort_flag := false;
                  polls := S (polls self); events := events self |}).
    destruct (call_progress_returns (i + 1 - 1) total
                ((2 * (i + 1) - 1) * 50 / total) s0)
      as (s1 & -> & Hab1 & Hp1 & Hr1 & Hres1 & Ht1).
    rewrite FloatFacts.percent_after_floor by lia.
    set (s2 := with_results (with_event s1 (Walk t))
                 (results (with_event s1 (Walk t))
                  ++ [_scan_target (Z.to_nat (i + 1 - 1)) t filter_obj])).
    destruct (call_progress_returns (i + 1) total ((i + 1) * 100 / total) s2)
      as (s3 & -> & Hab3 & Hp3 & Hr3 & Hres3 & Ht3).
    destruct (IH ts (i + 1) s3) as (self' & E & Hres & Hrun & Hfl & Htg);
      try lia.
    + rewrite Hab3. exact Hab1.
    + intros j Hj. rewrite Hp3. cbn [s2 polls with_results with_event].
      rewrite Hp1. cbn [s0 polls].
      replace (S (polls self) + j)%nat with (polls self + S j)%nat by lia.
      apply Hbefore. lia.
    + rewrite Hp3. cbn [s2 polls with_results with_event].
      rewrite Hp1. cbn [s0 polls].
      replace (S (polls self) + k)%nat with (polls self + S k)%nat by lia.
      exact Hat.
    + exists self'. split; [exact E|].
      rewrite Hres, Hrun, Htg, Hres3, Hr3, Ht3.
      cbn [s2 results running targets with_results with_event].
      rewrite Hres1, Hr1, Ht1. cbn [s0 results running targets].
      replace (i + 1 - 1) with i by lia.
      rewrite <- app_assoc. repeat split. exact Hfl.
Qed.

End Scan.

(** X23. A scan that sees the abort flag at its read number [k] has walked
    the first [k] enabled targets and no other: its results are theirs, in
    order, the completion callback is still called with them, the scanner is
    no longer running, and the next [scan] is accepted. *)
Theorem aborted_scan_stops_before_the_next_target :
  forall (abort_requested : nat -> bool)
         (_scan_target : nat -> Scanner.ScanTarget ->
                         option Scanner.ScanFilter -> Scanner.ScanResult)
         (self : Scanner.Scanner) (filter_obj : option Scanner.ScanFilter)
         (progress_callback : option (Z -> Z -> Z -> res unit))
         (complete_callback : list Scanner.ScanResult -> res unit)
         (k : nat),
    let enabled_targets :=
      List.filter Scanner.enabled (Scanner.targets self) in
    Scanner.abort_flag self = false ->
    (forall f c t p, progress_callback = Some f -> f c t p = Ret tt) ->
    (forall j, (j < k)%nat ->
               abort_requested (Scanner.polls self + j)%nat = false) ->
    abort_requested (Scanner.polls self + k)%nat = true ->
    (k < length enabled_targets)%nat ->
    Z.of_nat (length enabled_targets) * 200 < 2 ^ 53 ->
    let walked :=
      Scanner.scan_results _scan_target filter_obj
                           (firstn k enabled_targets) 0 in
    let '(self', outcome) :=
      Scanner._scan_thread abort_requested _scan_target self filter_obj
                           progress_callback (Some complete_callback) in
    Scanner.results self' = walked /\ outcome = complete_callback walked /\
    Scanner.running self' = false /\
    fst (fst (Scanner.scan self')) = PyBool true.
Proof.
  intros abort_requested _scan_target self filter_obj progress_callback
         complete_callback k enabled_targets Hab Hcb Hbefore Hat Hk Hlen.
  cbv zeta. unfold Scanner._scan_thread.
  cbn [Scanner.targets Scanner.with_results].
  fold enabled_targets.
  destruct (scan_loop_aborted abort_requested _scan_target filter_obj
              progress_callback Hcb (Z.of_nat (length enabled_targets)) k
              enabled_targets 0 (Scanner.with_results self []))
    as (self' & E & Hres & Hrun & Hfl & _); try assumption; try lia.
  rewrite E. cbn [Scanner.results Scanner.with_results app] in Hres.
  cbn [fst snd Scanner.results Scanner.running Scanner.with_event
       Scanner.with_running].
  rewrite Hres. repeat split.
Qed.

Lemma aborted_scan_stops_before_the_next_target_witness :
  let '(self', outcome) :=
    Scanner._scan_thread (fun n => Nat.leb 2 n) Scenarios.empty_walk
                         (Scenarios.scanner_of 3) None
                         (Some Scenarios.quiet3) (Some Scenarios.quiet) in
  Scanner.results self'
  = Scanner.scan_results Scenarios.empty_walk None
      (firstn 2 (List.filter Scanner.enabled
                   (Scanner.targets (Scenarios.scanner_of 3)))) 0 /\
  outcome
  = Scenarios.quiet
      (Scanner.scan_results Scenarios.empty_walk None
         (firstn 2 (List.filter Scanner.enabled
                      (Scanner.targets (Scenarios.scanner_of 3)))) 0) /\
  Scanner.running self' = false /\
  fst (fst (Scanner.scan self')) = PyBool true.
Proof.
  apply (aborted_scan_stops_before_the_next_target (fun n => Nat.leb 2 n)
           Scenarios.empty_walk (Scenarios.scanner_of 3) None
           (Some Scenarios.quiet3) Scenarios.quiet 2).
  - reflexivity.
  - intros f c t p [= <-]. reflexivity.
  - intros j Hj. destruct j as [|[|j]]; [reflexivity | reflexivity | lia].
  - reflexivity.
  - cbn. lia.
  - vm_compute. reflexivity.
Defined.

End AbortProps.
